(* ===== verification/_CoqProject ===== *)
-Q . S2P
Prelude.v
JsNumber.v
StringToNumber.v
JsValue.v
Dsv.v
NumberFormat.v
Svg.v
StableSort.v
ArraySlice.v
TopReasons.v
D3Scale.v
D3Ticks.v
D3Format.v
D3Axis.v
Chart.v
Page.v
