(* ===== verification/Prelude.v ===== *)
(** * A verification library for [src/script.js], the Boston 311 bar chart

    The program is one d3 script ([src/script.js], 123 lines).  On each page
    load it runs a linear pipeline:

      d3.csv (fetch, parse; line 2)  ->  coerce ([d.Count = +d.Count], lines 4-6)
              ->  sort ([b.Count - a.Count], lines 9-11)
              ->  slice(0, 10) (line 14)
              ->  scales (lines 29-37)  ->  SVG elements (lines 21-122).

    The development models this pipeline as pure functions over an explicit
    model of the JavaScript values the script touches.  There is one file
    per part, listed here in dependency order:

    - [Prelude] (this file): the notation scope [viz_scope], the hint
      databases [viz] and [viz_rw], the tactics [length_lia] and
      [app_solve], and generic lemmas on [List.filter], prefixes and
      [StronglySorted] that the sort and selection files share.
    - [JsNumber]: ECMAScript Number values.  These are NaN, the two
      infinities and finite values, which are kept exact as rationals [Q].
      The file also holds the operators the script and d3 apply, and the
      sign step of SortCompare.  [sort_sign_sub] shows that the sign of
      [a - b] is the numeric order of [a] and [b].
    - [StringToNumber]: StringToNumber, the meaning of the unary [+] on line
      5.  It covers the full StringNumericLiteral grammar over ASCII text:
      white space trimming, the [0x]/[0o]/[0b] prefixes, decimals with a
      fraction and an exponent, and [Infinity].
    - [JsValue]: the values of a row object ([undefined], strings,
      numbers).  It models the row object d3-dsv builds, as a
      [gmap string jsval]: a missing cell becomes [""] and a repeated column
      name keeps its last cell.  It also models property reads and ToNumber.
    - [Dsv]: d3-dsv's [csvParseRows], translated index by index: the text
      read with [charCodeAt], [N] lowered for a trailing line end,
      [token()] as a function of the explicit state [I]/[eof]/[eol], the
      quoted scan (written with Equations on a decreasing measure), the
      unquoted scan, and the two loops of [parseRows].  [csv_parse] is
      [csvParse]: the first row names the columns of the row objects.
      d3-dsv's formatter ([format_rows]) is modelled too, as the inverse
      the parser is checked against.
    - [NumberFormat]: Number::toString, which gives the label text on line
      95, by ECMAScript's steps 5 to 10: the digits [s] and exponent [n] of
      the value ([shortest_decimal], from the prime factors 2 and 5 of the
      reduced denominator and the trailing zeros), then the plain, point,
      [0.000] or exponent text ([format_decimal]).  It covers NaN, the
      infinities, 0, values of at most 15 significant digits and normal
      magnitude, and integers up to 2^53: there the double nearest the
      value prints as the value's own shortest decimal.
    - [Svg]: the DOM the script builds, as a tree of nodes with their
      attributes, styles, text and children.  It also models
      [selection.attr], [selection.style] and [selectAll] followed by an
      update.
    - [StableSort]: [Array.prototype.sort] with a comparator.
      - SortCompare, where a NaN result counts as +0.
      - ECMAScript's "consistent comparator" condition.
      - The abstract specification [stable_sort_of]: a strongly sorted,
        stable permutation.
      - A proof that this specification determines the result.
      - Two model engines proved to implement it, a linear insertion sort
        and a top-down merge sort written with Equations (not a browser's
        code: they show the interface can be met).
      - The [SortEngine] class: the interface that the rest of the model
        is proved against.
    - [ArraySlice]: [Array.prototype.slice] with its index clamping.
    - [TopReasons]: lines 4-14.  It holds the coercion loop, the comparator
      and [top_reasons], the selection for any [SortEngine] instance.
    - [D3Scale]: the d3 functions called on lines 30-37.
      - [d3.max].
      - [d3.scaleLinear] with two points: bimap, normalize and
        interpolateNumber; a NaN input gives [undefined].
      - [d3.scaleBand]: the ordinal domain is an InternMap under
        SameValueZero, and the layout follows [rescale] with paddingInner
        [min 1 p], paddingOuter [p] and align [0.5].
    - [D3Ticks]: d3-array's [ticks] and [tickSpec], the tick values of
      the linear axis.  [Math.log10], [Math.floor] and the comparisons
      with [sqrt(50)], [sqrt(10)] and [sqrt(2)] are computed exactly.
    - [D3Format]: the tick labels of the linear axis, d3-format's
      [",.Nf"]: [toFixed], grouping by thousands and the sign.  It also
      holds [precisionFixed] and the linear scale's [tickFormat].
    - [D3Axis]: d3-axis.  It models the axis object ([axisBottom],
      [axisLeft], [tickSize], [tickFormat]) and what [g.call(axis)] draws:
      the domain path and one tick group per value, each with a line and
      a text.
    - [Chart]: lines 16-122.  [render] gives the page as a tree: the
      [svg], the translated [g], and in the [g] the two axes (lines
      40-57), the two gridline groups (lines 60-72), one rect and one
      text per row, and three titles.  When d3 is given [undefined] it
      removes the attribute; the model leaves that attribute out.  [chart]
      is [render] applied to [top_reasons].
    - [Page]: the page over time.  Its state is the children of [#chart]
      (or the absence of that element) and the state of the [d3.csv]
      promise.  [step] is its step relation for a given answer of the
      network: the promise settles ([settle]: [fetch]'s TypeError,
      [responseText]'s Error for a status outside 200-299, or the parsed
      rows), then the callback runs [Chart.chart] and appends the svg in
      one step.  A rejected promise has no handler and no step.

    The repository does not say which d3 the page loads.  The d3 files
    follow d3 v7 (d3-array 3, d3-scale 4, d3-axis 3, d3-format 3).  d3-axis
    shifts its ticks by half a pixel unless [window.devicePixelRatio]
    exceeds 1, so [render] takes that ratio as an input.

    Theorems, by group:
    - Selection (TopReasons): the length is [min 10 m].  When every count
      reads as a number:
      - the selection is in descending order;
      - it holds the largest counts;
      - ties keep file order;
      - any two engines select the same rows.
      - every selected row holds a Number in [Count] (a type property
        that needs no hypothesis).
      With a NaN count the comparator is not consistent, so the order is
      left to the engine.  The specification's
      scenario is checked by evaluation.
    - Loading (Page, Dsv): the invariant of every reachable page, stated
      on the network's answer and the container (proved by rule induction
      on [rtc]: nothing is drawn until the callback, which appends exactly
      one svg, the chart of the parsed body); a failed load never draws; a 2xx
      answer always ends with the chart drawn, whatever the file's text
      (liveness).  The parser returns on every text (termination), reads
      back what d3-dsv writes (round trip, also for the row objects), and
      splits a cell with text after its closing quote.
    - Sorting (StableSort): the specification's uniqueness theorem, and
      the correctness and stability of both model engines: the lemmas the
      selection's theorems rest on.
    - Drawing (Chart, D3Scale):
      - bars are proportional to the counts;
      - the x domain ends at the largest count;
      - the band scale gives one band per distinct reason, and the bands
        lie inside the plot and do not overlap;
      - the page has one rect per row, and with counts [>= 0] every rect
        lies inside the plot (a safety property);
      - the scenario's bar widths and axis labels are computed.
      Degenerate inputs are also covered: a NaN count, all counts 0, and
      a header without a [reason] column.
    - Axes (Chart, D3Axis, D3Ticks, D3Format):
      - the gridlines sit at the axes' ticks, span the plot and have no
        labels;
      - the x ticks lie inside the plot;
      - d3's ticks are consecutive multiples of 1, 2 or 5 times a power
        of ten;
      - their number is bounded;
      - they are symmetric under reversing the domain;
      - [tickSpec] terminates;
      - axis labels agree with bar labels up to thousands separators.
      Two behaviours the specification does not cover are shown:
      fractional labels (0.5, 1.5, ...) when the largest count is a whole
      number from 1 to 7,
      and the dark domain paths of the gridline groups.
    - Values: [+] on padded digit strings, on blank text (which gives 0)
      and on text outside the grammar, inner white space included (which
      gives NaN).  Number::toString
      refines step 5 of the standard (least [k], unique digits), prints
      on every nonzero [m * 10^e] with [|m| < 10^15] and [|e| <= 290] the
      text of steps 6 to 10 on step 5's digits, and
      every text it prints reads back by StringToNumber as the same value
      (up to [Qeq], the equivalence [≡] on [number]).  The length of [slice].  The cells of a
      d3-dsv row.

    Fuel and measures:
    - [NumberFormat.n_digits] gets [1 + N.size n] steps, one more than the
      number of bits of [n].  That is at least the number of its decimal
      digits, so the fuel never runs out ([decimal_digits_spec] proves the
      full digit list is produced).
    - [D3Ticks.zlog10] gets the same number of steps ([zlog10_spec]).
    - [NumberFormat.strip_zeros] and [NumberFormat.fives] get the number
      of bits of their argument: each round divides it by 10 or by 5
      ([strip_zeros_last], [fives_spec] prove every factor is removed).
    - [D3Ticks.tick_spec] gets two levels for the recursion of
      [tickSpec], which doubles a count in [0.5, 2).  [tick_spec_enough]
      proves that more fuel gives the same result.
    - [merge_sort] recurses on [length l] by well-founded recursion, so
      it needs no fuel.
    - [Dsv.quote_scan] recurses on [N + length text - I] by well-founded
      recursion.  The unquoted scan runs on [N - I], which is exact.  The
      loops of [parseRows] get [2 * length text + 4] rounds: each token
      moves [I] forward or clears [eol], so the variant
      [2 * (N + 1 - I) + eol + 1] drops at every round until [eof]
      ([parse_rows_total] proves the rounds never run out).

    Not modelled:
    - The network itself: its answer is a parameter of the page's steps.
      The decoding of the body from UTF-8 is not modelled: the text is
      read as ASCII characters.  A column named [__proto__], which the
      object literal of d3-dsv turns into a prototype, is not modelled.
    - Timing and the microtask queue beyond the order of the two steps.
    - The DOM and CSS rendering.
    - Transitions and later calls of an axis on the same group: the
      script draws each axis once.
    - The rounding of IEEE doubles and the sign of zero.  Numbers are
      exact rationals, which is exact for the integer counts of the dataset
      (all far below 2^53).
    - Number::toString on values the double would round (more than 15
      significant digits, no finite decimal expansion, or out of the
      normal range), which gives [None].  Transforms and path data keep
      their numbers rather than their strings.
    - A browser's sort (V8's TimSort).  Any conforming engine gives the
      same result when the comparator is consistent ([engines_agree]);
      with a NaN count the comparator is not consistent and the order is
      left to the engine, which the model does not fix. *)

From stdpp Require Export base list sets.
From Stdlib Require Export QArith Lqa Sorted.
From stdpp Require sorting.

Declare Scope viz_scope.
Delimit Scope viz_scope with viz.

Create HintDb viz.
Create Rewrite HintDb viz_rw.

(** ** Generic lemmas on [List.filter] and strongly sorted lists *)

Section filter_lemmas.
Context {A : Type}.

Lemma filter_cons_true (f : A -> bool) x l :
  f x = true -> List.filter f (x :: l) = x :: List.filter f l.
Proof. intros H. simpl. by rewrite H. Qed.

Lemma filter_cons_false (f : A -> bool) x l :
  f x = false -> List.filter f (x :: l) = List.filter f l.
Proof. intros H. simpl. by rewrite H. Qed.

Lemma filter_nil_Forall (f : A -> bool) l :
  Forall (fun y => f y = false) l -> List.filter f l = [].
Proof. induction 1 as [|y l Hy _ IH]; simpl; [done|]. by rewrite Hy. Qed.

Lemma filter_all_Forall (f : A -> bool) l :
  Forall (fun y => f y = true) l -> List.filter f l = l.
Proof. induction 1 as [|y l Hy _ IH]; simpl; [done|]. by rewrite Hy, IH. Qed.

Lemma filter_snoc (f : A -> bool) l x :
  List.filter f (l ++ [x]) = List.filter f l ++ (if f x then [x] else []).
Proof. rewrite List.filter_app. simpl. by destruct (f x). Qed.
End filter_lemmas.

Lemma elem_of_rev {A} (x : A) (l : list A) : x ∈ rev l <-> x ∈ l.
Proof. rewrite !list_elem_of_In. symmetry. apply in_rev. Qed.

Lemma filter_prefix {A} (f : A -> bool) (l1 l2 : list A) :
  l1 `prefix_of` l2 -> List.filter f l1 `prefix_of` List.filter f l2.
Proof. intros [k ->]. rewrite List.filter_app. by eexists. Qed.

Lemma StronglySorted_impl_Forall {A} (P : A -> Prop) (R R' : A -> A -> Prop) l :
  Forall P l -> (forall a b, P a -> P b -> R a b -> R' a b) ->
  StronglySorted R l -> StronglySorted R' l.
Proof.
  intros HP HRR'. induction 1 as [|a l Hs IH Ha]; constructor.
  - apply IH. by inversion HP.
  - inversion HP as [|? ? Pa Pl]; subst. rewrite Forall_forall in Ha, Pl |- *.
    intros b Hb. apply HRR'; auto.
Qed.

Lemma StronglySorted_take {A} (R : A -> A -> Prop) n l :
  StronglySorted R l -> StronglySorted R (take n l).
Proof.
  intros Hs. rewrite <- (take_drop n l) in Hs. by apply stdpp.sorting.StronglySorted_app_1_l in Hs.
Qed.

Lemma elem_of_map_iff {A B} (f : A -> B) (l : list A) (y : B) :
  y ∈ map f l <-> exists x, y = f x /\ x ∈ l.
Proof.
  rewrite list_elem_of_In, in_map_iff. setoid_rewrite list_elem_of_In. naive_solver.
Qed.

(** ** Concatenations *)

Lemma filter_concat {A} (f : A -> bool) (ls : list (list A)) :
  List.filter f (concat ls) = concat (map (List.filter f) ls).
Proof. induction ls as [|l ls IH]; [done|]. cbn. by rewrite List.filter_app, IH. Qed.

Lemma Forall_concat_map {A B} (P : B -> Prop) (f : A -> list B) (l : list A) :
  (forall a, Forall P (f a)) -> Forall P (concat (map f l)).
Proof. intros Hf. induction l as [|a l IH]; cbn; [constructor|]. apply Forall_app; auto. Qed.

Lemma length_concat_map_const {A B} (f : A -> list B) (l : list A) n :
  (forall a, length (f a) = n) -> length (concat (map f l)) = (n * length l)%nat.
Proof.
  intros Hf. induction l as [|a l IH]; cbn; [lia|]. rewrite length_app, Hf, IH. lia.
Qed.

(** ** Options *)

Lemma option_map_Some_inv {A B} (f : A -> B) (o : option A) (y : B) :
  option_map f o = Some y -> exists x, o = Some x /\ y = f x.
Proof. destruct o as [x|]; simpl; [intros [= <-]; by exists x | done]. Qed.

#[export] Hint Rewrite @filter_snoc @List.filter_app @filter_concat : viz_rw.
#[export] Hint Resolve Forall_concat_map : viz.

(** ** Tactics *)

(** Arithmetic on the lengths of concatenations and conses. *)
Ltac length_lia := rewrite ?length_app; cbn [length]; lia.

(** Equalities between concatenations, up to associativity. *)
Ltac app_solve := repeat progress (rewrite <- ?app_assoc; cbn [app]); reflexivity.
