(* ===== verification/JsNumber.v ===== *)
(** * ECMAScript Number values

    The script computes with JS numbers in three places: the comparator
    [b.Count - a.Count] (line 10), [d3.max] (line 31, which compares with
    [<] and [>=]) and the linear scale (line 30, which subtracts, divides,
    multiplies and adds).  This file models the Number type with its special
    values and these operators, following ECMAScript's Number::add,
    Number::subtract, Number::multiply, Number::divide and Number::lessThan.

    Finite values are exact rationals: IEEE rounding and the sign of zero
    are not modelled (see the header of [Prelude]). *)

From S2P Require Import Prelude.

Module Number.

Inductive number : Type :=
| NaN
| PosInf
| NegInf
| Fin (q : Q).

(** Unary minus. *)
Definition neg (x : number) : number :=
  match x with
  | NaN => NaN
  | PosInf => NegInf
  | NegInf => PosInf
  | Fin q => Fin (- q)
  end.

(** Number::add: NaN absorbs, opposite infinities give NaN. *)
Definition add (x y : number) : number :=
  match x, y with
  | NaN, _ | _, NaN => NaN
  | PosInf, NegInf | NegInf, PosInf => NaN
  | PosInf, _ | _, PosInf => PosInf
  | NegInf, _ | _, NegInf => NegInf
  | Fin a, Fin b => Fin (a + b)
  end.

(** Number::subtract is [x + (-y)]. *)
Definition sub (x y : number) : number := add x (neg y).

(** Number::multiply: zero times an infinity is NaN. *)
Definition mul (x y : number) : number :=
  match x, y with
  | NaN, _ | _, NaN => NaN
  | Fin a, Fin b => Fin (a * b)
  | Fin a, _ => match Qcompare a 0 with Eq => NaN | Gt => y | Lt => neg y end
  | _, Fin b => match Qcompare b 0 with Eq => NaN | Gt => x | Lt => neg x end
  | PosInf, _ => y
  | NegInf, _ => neg y
  end.

(** Number::divide, with zero read as +0. *)
Definition div (x y : number) : number :=
  match x, y with
  | NaN, _ | _, NaN => NaN
  | Fin a, Fin b =>
      match Qcompare b 0 with
      | Eq => match Qcompare a 0 with Eq => NaN | Gt => PosInf | Lt => NegInf end
      | _ => Fin (a / b)
      end
  | Fin _, _ => Fin 0
  | _, Fin b => match Qcompare b 0 with Lt => neg x | _ => x end
  | _, _ => NaN
  end.

Definition is_nan (x : number) : bool :=
  match x with NaN => true | _ => false end.

(** Number::lessThan: [None] is the spec's [undefined] (a NaN operand). *)
Definition compare (x y : number) : option comparison :=
  match x, y with
  | NaN, _ | _, NaN => None
  | Fin a, Fin b => Some (Qcompare a b)
  | PosInf, PosInf | NegInf, NegInf => Some Eq
  | NegInf, _ | _, PosInf => Some Lt
  | PosInf, _ | _, NegInf => Some Gt
  end.

(** The relational operators [x < y] and [x >= y] of IsLessThan. *)
Definition less_than (x y : number) : bool :=
  match compare x y with Some Lt => true | _ => false end.

Definition greater_eq (x y : number) : bool :=
  match compare x y with Some Lt | None => false | Some _ => true end.

(** ToBoolean on a number: [0] and NaN are falsy. *)
Definition truthy (x : number) : bool :=
  match x with NaN => false | Fin q => negb (Qeq_bool q 0) | _ => true end.

(** The sign step of SortCompare: a NaN result of the comparator is
    read as [+0]. *)
Definition sort_sign (v : number) : comparison :=
  match v with
  | NaN => Eq
  | PosInf => Gt
  | NegInf => Lt
  | Fin q => Qcompare q 0
  end.

(** The numeric order as a total comparison; NaN is put level with
    everything, which is how SortCompare sees it. *)
Definition ord (x y : number) : comparison := default Eq (compare x y).

(** Two numbers are the same value: the model keeps a finite value as a
    fraction that need not be reduced, so finite values are compared with
    [Qeq]. *)
#[export] Instance number_equiv : Equiv number := fun x y =>
  match x, y with
  | Fin a, Fin b => Qeq a b
  | _, _ => x = y
  end.

End Number.

Export Number.

(** ** Lemmas *)

#[export] Instance number_equiv_equivalence : Equivalence (≡@{number}).
Proof.
  split.
  - intros [| | |a]; cbn; done.
  - intros [| | |a] [| | |b]; cbn; try done; by symmetry.
  - intros [| | |a] [| | |b] [| | |c]; cbn; try done; apply Qeq_trans.
Qed.

#[export] Instance Fin_proper : Proper (Qeq ==> (≡)) Fin.
Proof. by intros a b H. Qed.

#[export] Instance neg_proper : Proper ((≡) ==> (≡)) neg.
Proof. intros [| | |a] [| | |b]; cbn; try done; intros H; by rewrite H. Qed.

Lemma Qcompare_sub_0 (a b : Q) : Qcompare (a + - b) 0 = Qcompare a b.
Proof.
  destruct (Qcompare_spec (a + - b) 0), (Qcompare_spec a b); try done; lra.
Qed.

(** The sign SortCompare takes of [a - b] is the numeric order of [a] and
    [b], NaN operands and [Infinity - Infinity] included (both sides are
    [Eq] there): the comparator [b.Count - a.Count] orders rows by count,
    largest first. *)
Lemma sort_sign_sub (a b : number) : sort_sign (sub a b) = ord a b.
Proof.
  destruct a, b; try reflexivity.
  apply Qcompare_sub_0.
Qed.

Lemma num_ord_opp (a b : number) : ord b a = CompOpp (ord a b).
Proof.
  destruct a, b; try reflexivity. unfold ord. simpl. by rewrite Qcompare_antisym.
Qed.

Lemma num_ord_refl (a : number) : ord a a = Eq.
Proof.
  destruct a as [| | |q]; try reflexivity. unfold ord; simpl.
  destruct (Qcompare_spec q q); try done; lra.
Qed.

Lemma num_ord_trans_le (a b c : number) :
  is_nan b = false -> ord a b <> Gt -> ord b c <> Gt -> ord a c <> Gt.
Proof.
  unfold ord; destruct a, b, c; simpl; intros Hb H1 H2; try congruence.
  rewrite <- Qle_alt in *. eapply Qle_trans; eauto.
Qed.

Lemma less_than_ord (a b : number) : less_than a b = true <-> ord a b = Lt.
Proof. unfold less_than, ord. destruct (compare a b) as [[]|]; simpl; intuition congruence. Qed.

Lemma greater_eq_ord (a b : number) :
  is_nan a = false -> is_nan b = false -> greater_eq a b = true <-> ord a b <> Lt.
Proof.
  unfold greater_eq, ord. destruct a, b; intros Ha Hb; try discriminate; simpl;
    try (destruct (Qcompare _ _)); intuition congruence.
Qed.

#[export] Hint Resolve num_ord_refl : viz.

Lemma greater_eq_self (a : number) : greater_eq a a = negb (is_nan a).
Proof.
  destruct a as [| | |q]; try reflexivity. unfold greater_eq; simpl.
  destruct (Qcompare_spec q q); try reflexivity; lra.
Qed.

Lemma greater_eq_ord_opp (a b : number) :
  is_nan a = false -> is_nan b = false -> greater_eq a b = true <-> ord b a <> Gt.
Proof.
  intros Ha Hb. rewrite greater_eq_ord by done. rewrite (num_ord_opp a b).
  destruct (ord a b); simpl; intuition congruence.
Qed.

Lemma greater_eq_trans (a b c : number) :
  is_nan a = false -> is_nan b = false -> is_nan c = false ->
  greater_eq a b = true -> greater_eq b c = true -> greater_eq a c = true.
Proof.
  intros Ha Hb Hc. rewrite !greater_eq_ord_opp by done.
  intros Hab Hbc. by apply (num_ord_trans_le c b a).
Qed.

Lemma less_than_greater_eq (a b : number) :
  less_than a b = true -> greater_eq b a = true.
Proof.
  rewrite less_than_ord. intros H. unfold greater_eq.
  destruct a, b; try discriminate; simpl in *; try reflexivity.
  rewrite <- Qcompare_antisym. unfold ord in H; simpl in H. by rewrite H.
Qed.

Lemma not_less_than_greater_eq (a b : number) :
  is_nan a = false -> is_nan b = false -> less_than a b = false -> greater_eq a b = true.
Proof.
  intros Ha Hb H. unfold greater_eq, less_than in *.
  destruct (compare a b) as [[]|] eqn:E; try done. by destruct a, b.
Qed.
