(* ===== verification/StringToNumber.v ===== *)
(** * StringToNumber: the unary [+] of line 5

    Line 5 of the script, [d.Count = +d.Count], applies ToNumber to the text
    that [d3.csv] read from the [Count] column.  For a string ToNumber is
    ECMAScript's StringToNumber: the text, stripped of leading and trailing
    white space, must match StringNumericLiteral, otherwise the result is
    NaN; an empty (or all white space) text gives 0.

    The grammar is modelled in full over ASCII text: optional white space,
    then either a NonDecimalIntegerLiteral ([0b], [0o], [0x] and digits of
    that radix, no sign) or a StrDecimalLiteral (an optional sign, then
    [Infinity] or digits with an optional fraction and exponent).  Strings
    are byte strings: the non-ASCII white space of the standard (NBSP, BOM,
    Unicode spaces) is not modelled.  The value is exact (see [Prelude]). *)

From S2P Require Import Prelude JsNumber.
From Stdlib Require Import Ascii String.
From stdpp Require Import strings.

Module StrToNum.
Local Open Scope nat_scope.

(** StrWhiteSpaceChar, ASCII part: TAB, LF, VT, FF, CR and space. *)
Definition is_str_whitespace (c : ascii) : bool :=
  existsb (Nat.eqb (nat_of_ascii c)) [9; 10; 11; 12; 13; 32].

Fixpoint trim_start (s : list ascii) : list ascii :=
  match s with
  | c :: r => if is_str_whitespace c then trim_start r else s
  | [] => []
  end.

Definition trim (s : list ascii) : list ascii :=
  rev (trim_start (rev (trim_start s))).

(** The value of a character as a digit: [0-9], then [a-z] and [A-Z]
    for 10 to 35. *)
Definition char_digit (c : ascii) : option nat :=
  let n := nat_of_ascii c in
  if (48 <=? n) && (n <=? 57) then Some (n - 48)
  else if (97 <=? n) && (n <=? 122) then Some (n - 87)
  else if (65 <=? n) && (n <=? 90) then Some (n - 55)
  else None.

(** The value of a digit of [radix]. *)
Definition digit_value (radix : nat) (c : ascii) : option nat :=
  match char_digit c with
  | Some d => if d <? radix then Some d else None
  | None => None
  end.

(** The longest prefix of digits of [radix], and the rest. *)
Fixpoint span_digits (radix : nat) (s : list ascii) : list nat * list ascii :=
  match s with
  | c :: r =>
      match digit_value radix c with
      | Some d => let '(ds, rest) := span_digits radix r in (d :: ds, rest)
      | None => ([], s)
      end
  | [] => ([], [])
  end.

Definition digits_value (radix : nat) (ds : list nat) : Z :=
  fold_left (fun acc d => acc * Z.of_nat radix + Z.of_nat d)%Z ds 0%Z.

(** A whole text of one or more digits of [radix]. *)
Definition parse_digits (radix : nat) (s : list ascii) : option (list nat) :=
  match span_digits radix s with
  | (d :: ds, []) => Some (d :: ds)
  | _ => None
  end.

Definition radix_prefix (c : ascii) : option nat :=
  match c with
  | "b"%char | "B"%char => Some 2
  | "o"%char | "O"%char => Some 8
  | "x"%char | "X"%char => Some 16
  | _ => None
  end.

(** NonDecimalIntegerLiteral: [0b101], [0o17], [0x1F]; no sign. *)
Definition parse_non_decimal (s : list ascii) : option number :=
  match s with
  | "0"%char :: c :: r =>
      match radix_prefix c with
      | Some radix =>
          match parse_digits radix r with
          | Some ds => Some (Fin (inject_Z (digits_value radix ds)))
          | None => None
          end
      | None => None
      end
  | _ => None
  end.

(** SignedInteger: an optional sign and one or more digits. *)
Definition parse_signed_integer (s : list ascii) : option Z :=
  match s with
  | "+"%char :: r => option_map (digits_value 10) (parse_digits 10 r)
  | "-"%char :: r => option_map (fun ds => (- digits_value 10 ds)%Z) (parse_digits 10 r)
  | _ => option_map (digits_value 10) (parse_digits 10 s)
  end.

(** ExponentPart, or nothing (exponent 0). *)
Definition parse_exponent (s : list ascii) : option Z :=
  match s with
  | [] => Some 0%Z
  | c :: r =>
      if (c =? "e")%char || (c =? "E")%char then parse_signed_integer r else None
  end.

(** The mathematical value of [int.frac e exp]. *)
Definition decimal_value (int frac : list nat) (e : Z) : Q :=
  let m := digits_value 10 (int ++ frac) in
  let k := (e - Z.of_nat (List.length frac))%Z in
  if (0 <=? k)%Z then inject_Z (m * 10 ^ k) else Qmake m (Z.to_pos (10 ^ (- k))).

Definition infinity_text : list ascii := list_ascii_of_string "Infinity".

(** The optional [. DecimalDigits] after the integer digits. *)
Definition split_fraction (r : list ascii) : list nat * list ascii :=
  match r with
  | "."%char :: r' => span_digits 10 r'
  | _ => ([], r)
  end.

(** StrUnsignedDecimalLiteral. *)
Definition parse_unsigned_decimal (s : list ascii) : option number :=
  if decide (s = infinity_text) then Some PosInf else
  let '(int, r1) := span_digits 10 s in
  let '(frac, r2) := split_fraction r1 in
  match int, frac with
  | [], [] => None
  | _, _ => option_map (fun e => Fin (decimal_value int frac e)) (parse_exponent r2)
  end.

(** StrDecimalLiteral: an optional sign. *)
Definition parse_decimal (s : list ascii) : option number :=
  match s with
  | "+"%char :: r => parse_unsigned_decimal r
  | "-"%char :: r => option_map neg (parse_unsigned_decimal r)
  | _ => parse_unsigned_decimal s
  end.

(** StringToNumber. *)
Definition string_to_number (str : string) : number :=
  match trim (list_ascii_of_string str) with
  | [] => Fin 0
  | t =>
      match parse_non_decimal t with
      | Some n => n
      | None => default NaN (parse_decimal t)
      end
  end.

End StrToNum.

Export StrToNum.

(** ** Lemmas on the scanner *)

(** The character of a decimal digit. *)
Definition digit_char (d : nat) : ascii := ascii_of_nat (48 + d).
Arguments digit_char : simpl never.
Arguments digit_value : simpl never.


Ltac digit_cases d :=
  do 10 (destruct d as [|d]; [reflexivity|]); lia.

Lemma digit_value_char d : (d < 10)%nat -> digit_value 10 (digit_char d) = Some d.
Proof. intros Hd. digit_cases d. Qed.

Lemma span_digits_chars ds rest :
  Forall (fun d => d < 10)%nat ds ->
  (forall c r, rest = c :: r -> digit_value 10 c = None) ->
  span_digits 10 (map digit_char ds ++ rest) = (ds, rest).
Proof.
  intros Hds Hrest. induction Hds as [|d ds Hd _ IH]; cbn [map app].
  - destruct rest as [|c r]; [done|]. cbn [span_digits]. by rewrite (Hrest c r eq_refl).
  - cbn [span_digits]. rewrite digit_value_char by done. by rewrite IH.
Qed.

Lemma trim_start_ws ws s :
  Forall (fun c => is_str_whitespace c = true) ws -> trim_start (ws ++ s) = trim_start s.
Proof. induction 1 as [|c ws Hc _ IH]; cbn [app trim_start]; [done|]. by rewrite Hc. Qed.

Lemma trim_start_stop c s : is_str_whitespace c = false -> trim_start (c :: s) = c :: s.
Proof. intros H. cbn [trim_start]. by rewrite H. Qed.

Lemma digit_char_not_ws d : (d < 10)%nat -> is_str_whitespace (digit_char d) = false.
Proof. intros Hd. digit_cases d. Qed.

Lemma trim_digits ws1 ws2 ds :
  Forall (fun c => is_str_whitespace c = true) ws1 ->
  Forall (fun c => is_str_whitespace c = true) ws2 ->
  ds <> [] -> Forall (fun d => d < 10)%nat ds ->
  trim (ws1 ++ map digit_char ds ++ ws2) = map digit_char ds.
Proof.
  intros H1 H2 Hne Hds. unfold trim.
  destruct ds as [|d ds']; [done|]. inversion Hds as [|? ? Hd Hds']; subst.
  rewrite trim_start_ws by done. cbn [map app].
  rewrite trim_start_stop by (by apply digit_char_not_ws).
  rewrite app_comm_cons, rev_app_distr, trim_start_ws by (by apply Forall_rev).
  destruct (exists_last (l := d :: ds') ltac:(done)) as (init & dl & Heq).
  assert (Hdl : (dl < 10)%nat).
  { rewrite Forall_forall in Hds. apply Hds. rewrite Heq. set_solver. }
  change (digit_char d :: map digit_char ds') with (map digit_char (d :: ds')).
  rewrite Heq, map_app, rev_app_distr. cbn [map rev app].
  rewrite trim_start_stop by (by apply digit_char_not_ws).
  cbn [rev]. by rewrite rev_involutive.
Qed.

Lemma parse_decimal_digit c r d :
  digit_value 10 c = Some d -> parse_decimal (c :: r) = parse_unsigned_decimal (c :: r).
Proof. destruct c as [[] [] [] [] [] [] [] []]; intros H; (reflexivity || discriminate H). Qed.

(** A case split on a character against the ones a [match] names. *)
Ltac other_char c H :=
  destruct c as [[] [] [] [] [] [] [] []]; try reflexivity; by destruct H.

Lemma parse_non_decimal_not_0 c r : c <> "0"%char -> parse_non_decimal (c :: r) = None.
Proof. intros H. other_char c H. Qed.

Lemma parse_non_decimal_digits ds :
  Forall (fun d => d < 10)%nat ds -> parse_non_decimal (map digit_char ds) = None.
Proof.
  intros Hds. destruct Hds as [|d0 ds Hd0 Hds]; [done|]. cbn [map].
  destruct (decide (digit_char d0 = "0"%char)) as [->|Hne];
    [|by apply parse_non_decimal_not_0].
  destruct Hds as [|d1 ds Hd1 _]; [reflexivity|]. cbn [map].
  change (parse_non_decimal ("0"%char :: digit_char d1 :: map digit_char ds))
    with (match radix_prefix (digit_char d1) with
          | Some radix =>
              match parse_digits radix (map digit_char ds) with
              | Some ds => Some (Fin (inject_Z (digits_value radix ds)))
              | None => None
              end
          | None => None
          end).
  assert (radix_prefix (digit_char d1) = None) as -> by digit_cases d1. done.
Qed.

Lemma decimal_value_int ds : decimal_value ds [] 0 = inject_Z (digits_value 10 ds).
Proof. unfold decimal_value. rewrite app_nil_r. cbn -[digits_value]. by rewrite Z.mul_1_r. Qed.

(** Every accepted literal is made of literal characters. *)












(** ** Decimal literals with a fraction and an exponent *)

(** The text of the literal [int.frac] followed by [ex] (an exponent part
    or nothing); there is no point when [frac] is empty. *)
Definition decimal_text (int frac : list nat) (ex : list ascii) : list ascii :=
  map digit_char int ++
    (match frac with [] => [] | _ => "."%char :: map digit_char frac end) ++ ex.

(** What may follow the integer digits of such a literal. *)
Definition after_int (r : list ascii) : Prop :=
  r = [] \/ (exists r', r = "."%char :: r') \/ (exists r', r = "e"%char :: r').

Lemma trim_start_nows s :
  Forall (fun c => is_str_whitespace c = false) s -> trim_start s = s.
Proof. destruct 1; [done|]. by apply trim_start_stop. Qed.

Lemma trim_nows s : Forall (fun c => is_str_whitespace c = false) s -> trim s = s.
Proof.
  intros Hs. unfold trim.
  rewrite (trim_start_nows s), (trim_start_nows (rev s)), rev_involutive by (by apply Forall_rev || done).
  done.
Qed.

Lemma radix_prefix_digit d : (d < 10)%nat -> radix_prefix (digit_char d) = None.
Proof. intros Hd. digit_cases d. Qed.

Lemma after_int_no_prefix c0 r : after_int r -> parse_non_decimal (c0 :: r) = None.
Proof.
  intros [->|[(r' & ->)|(r' & ->)]].
  - destruct c0 as [[] [] [] [] [] [] [] []]; reflexivity.
  - destruct (decide (c0 = "0"%char)) as [->|H0]; [done | by apply parse_non_decimal_not_0].
  - destruct (decide (c0 = "0"%char)) as [->|H0]; [done | by apply parse_non_decimal_not_0].
Qed.

Lemma span_digits_after int r :
  Forall (fun d => d < 10)%nat int -> after_int r ->
  span_digits 10 (map digit_char int ++ r) = (int, r).
Proof.
  intros Hi Hr. apply span_digits_chars; [done|]. intros c r' ->.
  by destruct Hr as [?|[(? & [= -> _])|(? & [= -> _])]].
Qed.

Lemma after_int_fraction frac ex :
  (ex = [] \/ exists r, ex = "e"%char :: r) ->
  after_int ((match frac with [] => [] | _ => "."%char :: map digit_char frac end) ++ ex).
Proof.
  intros Hex. destruct frac; [|by right; left; eexists].
  destruct Hex as [->|(r & ->)]; [by left | by right; right; eexists].
Qed.

Lemma decimal_text_nows int frac ex :
  Forall (fun d => d < 10)%nat int -> Forall (fun d => d < 10)%nat frac ->
  Forall (fun c => is_str_whitespace c = false) ex ->
  Forall (fun c => is_str_whitespace c = false) (decimal_text int frac ex).
Proof.
  intros Hi Hf Hex. unfold decimal_text.
  assert (Hd : forall ds, Forall (fun d => d < 10)%nat ds ->
    Forall (fun c => is_str_whitespace c = false) (map digit_char ds)).
  { intros ds Hds. apply Forall_map. eapply Forall_impl; [done|]. apply digit_char_not_ws. }
  apply Forall_app; split; [by apply Hd|]. apply Forall_app; split; [|done].
  destruct frac; [done|]. constructor; [reflexivity | by apply Hd].
Qed.

Lemma decimal_text_no_prefix d int frac ex :
  Forall (fun d => d < 10)%nat (d :: int) ->
  (ex = [] \/ exists r, ex = "e"%char :: r) ->
  parse_non_decimal (decimal_text (d :: int) frac ex) = None.
Proof.
  intros Hi Hex. unfold decimal_text. cbn [map app].
  destruct int as [|d' int]; [by apply after_int_no_prefix, after_int_fraction|].
  cbn [map app]. destruct (decide (digit_char d = "0"%char)) as [->|H0];
    [|by apply parse_non_decimal_not_0].
  cbn [parse_non_decimal]. inversion Hi as [|? ? _ Hi']. inversion Hi'; subst.
  by rewrite radix_prefix_digit.
Qed.

(** An unsigned decimal literal reads as [decimal_value]. *)
Lemma parse_unsigned_decimal_text int frac ex e :
  int <> [] -> Forall (fun d => d < 10)%nat int -> Forall (fun d => d < 10)%nat frac ->
  (ex = [] \/ exists r, ex = "e"%char :: r) -> parse_exponent ex = Some e ->
  parse_unsigned_decimal (decimal_text int frac ex) = Some (Fin (decimal_value int frac e)).
Proof.
  intros Hne Hi Hf Hex He. unfold parse_unsigned_decimal.
  destruct (decide _) as [Hinf|_].
  { destruct int as [|d int]; [done|]. inversion Hi as [|? ? Hd _]; subst.
    pose proof (f_equal (fun l => digit_value 10 (hd "0"%char l)) Hinf) as Hh.
    cbn in Hh. rewrite digit_value_char in Hh by done. discriminate. }
  unfold decimal_text. rewrite span_digits_after by (done || by apply after_int_fraction).
  destruct frac as [|f frac].
  - destruct Hex as [->|(r & ->)]; cbn [app split_fraction];
      (destruct int; [done|]); cbn -[decimal_value parse_exponent]; by rewrite He.
  - cbn [split_fraction app]. rewrite span_digits_chars by
      (done || (intros c r ->; by destruct Hex as [?|(? & [= -> _])])).
    destruct int; [done|]. cbn -[decimal_value]. by rewrite He.
Qed.

(** StringToNumber on a text without white space. *)
Lemma string_to_number_nows t :
  t <> [] -> Forall (fun c => is_str_whitespace c = false) t ->
  string_to_number (string_of_list_ascii t) =
    match parse_non_decimal t with Some n => n | None => default NaN (parse_decimal t) end.
Proof.
  intros Hne Ht. unfold string_to_number.
  rewrite list_ascii_of_string_of_list_ascii, trim_nows by done. by destruct t.
Qed.

(** The text of a positive value, and of a negative one. *)
Lemma string_to_number_decimal_text int frac ex e :
  int <> [] -> Forall (fun d => d < 10)%nat int -> Forall (fun d => d < 10)%nat frac ->
  Forall (fun c => is_str_whitespace c = false) ex ->
  (ex = [] \/ exists r, ex = "e"%char :: r) -> parse_exponent ex = Some e ->
  string_to_number (string_of_list_ascii (decimal_text int frac ex)) = Fin (decimal_value int frac e) /\
  string_to_number (string_of_list_ascii ("-"%char :: decimal_text int frac ex)) =
    Fin (- decimal_value int frac e).
Proof.
  intros Hne Hi Hf Hws Hex He. pose proof (decimal_text_nows int frac ex Hi Hf Hws) as Hn.
  destruct int as [|d int]; [done|].
  rewrite !string_to_number_nows by (done || by constructor).
  rewrite parse_non_decimal_not_0, decimal_text_no_prefix by done.
  assert (Hp : parse_decimal (decimal_text (d :: int) frac ex) =
    parse_unsigned_decimal (decimal_text (d :: int) frac ex)).
  { inversion Hi; subst. apply (parse_decimal_digit _ _ d). by apply digit_value_char. }
  cbn [parse_decimal]. rewrite Hp, (parse_unsigned_decimal_text _ _ _ e) by done. done.
Qed.

(** ** StringToNumber on the texts of a count column *)

(** A text that trims to decimal digits reads as their value. *)
Lemma string_to_number_digit_text (t : list ascii) (ds : list nat) :
  trim t = map digit_char ds -> ds <> [] -> Forall (fun d => d < 10)%nat ds ->
  string_to_number (string_of_list_ascii t) = Fin (inject_Z (digits_value 10 ds)).
Proof.
  intros Ht Hne Hds. unfold string_to_number.
  rewrite list_ascii_of_string_of_list_ascii, Ht.
  destruct ds as [|d ds']; [done|]. cbn [map].
  change (digit_char d :: map digit_char ds') with (map digit_char (d :: ds')).
  rewrite parse_non_decimal_digits by done.
  inversion Hds as [|? ? Hd _]; subst.
  cbn [map]. rewrite (parse_decimal_digit _ _ d) by (by apply digit_value_char).
  unfold parse_unsigned_decimal. destruct (decide _) as [Hinf|_].
  { pose proof (f_equal (fun l => digit_value 10 (hd "0"%char l)) Hinf) as Hh.
    cbn in Hh. rewrite digit_value_char in Hh by done. discriminate. }
  change (digit_char d :: map digit_char ds') with (map digit_char (d :: ds')).
  rewrite <- (app_nil_r (map digit_char (d :: ds'))), span_digits_chars by done.
  cbn -[decimal_value digits_value]. by rewrite decimal_value_int.
Qed.

(** C29: a count written as decimal digits, possibly padded with white
    space, is read as the integer those digits denote. *)
Theorem string_to_number_digits (ws1 ws2 : list ascii) (ds : list nat) :
  Forall (fun c => is_str_whitespace c = true) ws1 ->
  Forall (fun c => is_str_whitespace c = true) ws2 ->
  ds <> [] -> Forall (fun d => d < 10)%nat ds ->
  string_to_number (string_of_list_ascii (ws1 ++ map digit_char ds ++ ws2)) =
    Fin (inject_Z (digits_value 10 ds)).
Proof.
  intros H1 H2 Hne Hds. apply string_to_number_digit_text; [|done|done].
  by apply trim_digits.
Qed.

(** C30: an empty or blank cell is read as 0, not as NaN. *)
Theorem string_to_number_blank (ws : list ascii) :
  Forall (fun c => is_str_whitespace c = true) ws ->
  string_to_number (string_of_list_ascii ws) = Fin 0.
Proof.
  intros Hws. unfold string_to_number, trim.
  rewrite list_ascii_of_string_of_list_ascii, <- (app_nil_r ws), trim_start_ws by done.
  reflexivity.
Qed.





(** ** Witnesses *)

Lemma string_to_number_digits_witness :
  string_to_number " 42" = Fin 42.
Proof.
  apply (string_to_number_digits [" "%char] [] [4; 2]%nat);
    [repeat constructor | constructor | done | repeat constructor; lia].
Defined.

Lemma string_to_number_blank_witness : string_to_number "" = Fin 0.
Proof. apply (string_to_number_blank []). constructor. Defined.

