(* ===== verification/JsValue.v ===== *)
(** * The JS values of a CSV row

    [d3.csv] (line 2) hands the callback one object per data line of the
    file, with one property per header column whose value is the cell's text
    (the empty string when the line has fewer cells).  After line 5 the
    [Count] property holds a Number.  This file models those values, the
    row object as a finite map from property names to values, property
    reads ([d.Count], [d.reason]: [undefined] when the property is absent)
    and ToNumber on them. *)

From S2P Require Import Prelude JsNumber StringToNumber.
From stdpp Require Import gmap strings.

Module JsValue.

Inductive jsval : Type :=
| JUndefined
| JString (s : string)
| JNumber (n : number).

(** Reading a property: an absent property reads as [undefined]. *)
Definition get (o : gmap string jsval) (k : string) : jsval :=
  default JUndefined (o !! k).

(** ToNumber on the values a row can hold. *)
Definition to_number (v : jsval) : number :=
  match v with
  | JUndefined => NaN
  | JString s => string_to_number s
  | JNumber n => n
  end.

(** The row object d3-dsv builds for a header and the cells of a line:
    property [columns[i]] is [cells[i] || ""]; when two columns share a
    name the later one wins, as in the object literal d3 compiles. *)
Definition csv_row (columns cells : list string) : gmap string jsval :=
  list_to_map (reverse (imap (fun i name => (name, JString (default "" (cells !! i)))) columns)).

End JsValue.

Export JsValue.

Lemma get_insert_eq (o : gmap string jsval) k v : get (<[k := v]> o) k = v.
Proof. unfold get. by rewrite lookup_insert_eq. Qed.

Lemma get_insert_ne (o : gmap string jsval) k k' v :
  k <> k' -> get (<[k := v]> o) k' = get o k'.
Proof. intros H. unfold get. by rewrite lookup_insert_ne. Qed.

#[export] Hint Rewrite get_insert_eq : viz_rw.

(** The properties of a row are the header's columns. *)
Lemma csv_row_keys (columns cells : list string) :
  (reverse (imap (fun i name => (name, JString (default "" (cells !! i)))) columns)).*1 =
    reverse columns.
Proof.
  rewrite fmap_reverse, fmap_imap. f_equal.
  rewrite (imap_ext _ (const id)) by done. by rewrite imap_const, list_fmap_id.
Qed.

(** Reading a property the header does not have gives [undefined]. *)
Lemma csv_row_absent (columns cells : list string) (k : string) :
  k ∉ columns -> get (csv_row columns cells) k = JUndefined.
Proof.
  intros Hk. unfold get, csv_row. rewrite not_elem_of_list_to_map_1; [done|].
  rewrite csv_row_keys. by rewrite elem_of_reverse.
Qed.

(** C39: a header without repeated names gives each column the text of its
    cell: property [columns[i]] of the row object reads as [cells[i]], and
    as the empty string when the line has no [i]-th cell. *)
Theorem csv_row_get (columns cells : list string) (i : nat) (k : string) :
  NoDup columns -> columns !! i = Some k ->
  get (csv_row columns cells) k = JString (default "" (cells !! i)).
Proof.
  intros Hnd Hk. unfold get, csv_row.
  rewrite (elem_of_list_to_map_1 _ k (JString (default "" (cells !! i)))); [done| |].
  - rewrite csv_row_keys. by rewrite reverse_Permutation.
  - rewrite elem_of_reverse, list_elem_of_lookup. exists i.
    by rewrite list_lookup_imap, Hk.
Qed.

Lemma csv_row_get_witness :
  get (csv_row ["reason"; "Count"] ["Noise"]) "Count" = JString "".
Proof.
  apply (csv_row_get ["reason"; "Count"] ["Noise"] 1); [apply (bool_decide_unpack (NoDup _)); vm_compute; reflexivity | reflexivity].
Defined.
