(* ===== verification/Dsv.v ===== *)
(** * d3-dsv's CSV parser: the text [d3.csv] hands to the script

    [d3.csv(url)] (line 2) fetches the file and parses its text with
    d3-dsv's [csvParse] (d3-dsv 3).  [csvParse] runs [parseRows] and turns
    every line after the first into an object keyed by the first line's
    fields ([JsValue.csv_row]).

    This file translates [parseRows] as d3 writes it:
    - the text is read by [charCodeAt]: a character, or NaN past the end;
    - a trailing newline, and a carriage return before it, are stripped
      by lowering [N], not by cutting the text;
    - [token()] is a function of an explicit state: the index [I] and the
      flags [eof] and [eol];
    - its quoted branch scans with the loop
      [while (I++ < N && text.charCodeAt(I) !== QUOTE ||
              text.charCodeAt(++I) === QUOTE);]
      written with Equations on a decreasing measure;
    - its unquoted branch scans up to [N];
    - the two loops of [parseRows] run on fuel.

    The theorems show that the fuel is always enough ([parse_rows] returns
    rows on every text: no text makes [csvParse] fail), that parsing
    inverts d3-dsv's [csvFormatRows], and what [csvParse] gives the
    script on a concrete file. *)

From S2P Require Import Prelude JsValue.
From Stdlib Require Import Ascii String.
From stdpp Require Import gmap strings.
From Equations Require Import Equations.
From Equations.Prop Require Import Logic.

Module Dsv.

(** The character codes [parseRows] tests. *)
Definition QUOTE : ascii := ascii_of_nat 34.
Definition NEWLINE : ascii := ascii_of_nat 10.
Definition RETURN : ascii := ascii_of_nat 13.
Definition DELIMITER : ascii := ","%char.

(** [text.charCodeAt(k) === c]: false past the end, where [charCodeAt]
    gives NaN. *)
Definition code_is (text : list ascii) (k : nat) (c : ascii) : bool :=
  match text !! k with Some d => Ascii.eqb d c | None => false end.

(** [text.charCodeAt(N - 1) === c], false for [N = 0] ([charCodeAt(-1)]
    is NaN). *)
Definition code_before (text : list ascii) (N : nat) (c : ascii) : bool :=
  match N with O => false | S n => code_is text n c end.

(** [text.slice(a, b)] for [0 <= a], [0 <= b]. *)
Definition slice (text : list ascii) (a b : nat) : list ascii := take (b - a) (drop a text).

(** [s.replace(/QQ/g, Q)], where [Q] is the quote character: each pair
    of quotes, read from the left, becomes one. *)
Fixpoint unescape (s : list ascii) : list ascii :=
  match s with
  | [] => []
  | c :: tl =>
      match tl with
      | d :: r =>
          if Ascii.eqb c QUOTE && Ascii.eqb d QUOTE then QUOTE :: unescape r
          else c :: unescape tl
      | [] => [c]
      end
  end.

(** The tokens: [EOF], [EOL] (two distinct objects in d3) or a field. *)
Inductive token : Type :=
| EOF
| EOL
| Field (s : list ascii).

(** The closure state of [parseRows]: [I], [eof] and [eol]. *)
Record scanner : Type := Scanner { idx : nat; eof : bool; eol : bool }.

(** [N]: the length, less a trailing newline, less a carriage return
    before it. *)
Definition strip_end (text : list ascii) : nat :=
  let N := length text in
  let N := if code_before text N NEWLINE then N - 1 else N in
  if code_before text N RETURN then N - 1 else N.

(** The state before the first token: [I = 0] and [eof = N <= 0], with
    [N] the full length (the declaration comes before the stripping). *)
Definition scanner_init (text : list ascii) : scanner :=
  Scanner 0 (length text =? 0) false.

Lemma code_is_lt text k c : code_is text k c = true -> k < length text.
Proof.
  unfold code_is. destruct (text !! k) eqn:E; [|done]. intros _.
  by apply lookup_lt_Some in E.
Qed.

(** The quoted branch's loop, from [I = j]: it stops at the index after
    the closing quote (or past [N] on an unterminated quote). *)
Equations quote_scan (text : list ascii) (N pos : nat) : nat
  by wf (N + length text - pos) lt :=
quote_scan text N pos with inspect ((pos <? N) && negb (code_is text (S pos) QUOTE)) := {
  | exist _ true H => quote_scan text N (S pos);
  | exist _ false _ with inspect (code_is text (S (S pos)) QUOTE) := {
    | exist _ true H2 => quote_scan text N (S (S pos));
    | exist _ false _ => S (S pos) } }.
Next Obligation.
  apply andb_prop in H as [H _]. apply Nat.ltb_lt in H. lia.
Qed.
Next Obligation.
  apply code_is_lt in H2. lia.
Qed.

(** The unquoted branch's loop [while (I < N)], run on [k = N - I]: the
    index [i] of the delimiter or line end, the next [I], and whether a
    line ends; [None] when it reaches [N]. *)
Fixpoint field_scan (text : list ascii) (k I : nat) : option (nat * nat * bool) :=
  match k with
  | O => None
  | S k =>
      if code_is text I NEWLINE then Some (I, S I, true)
      else if code_is text I RETURN then
        Some (I, if code_is text (S I) NEWLINE then S (S I) else S I, true)
      else if code_is text I DELIMITER then Some (I, S I, false)
      else field_scan text k (S I)
  end.

(** [token()]. *)
Definition token_next (text : list ascii) (N : nat) (st : scanner) : scanner * token :=
  if eof st then (st, EOF)
  else if eol st then (Scanner (idx st) false false, EOL)
  else
    let j := idx st in
    if code_is text j QUOTE then
      let i := quote_scan text N j in
      let t := Field (unescape (slice text (S j) (i - 1))) in
      if N <=? i then (Scanner i true false, t)
      else if code_is text i NEWLINE then (Scanner (S i) false true, t)
      else if code_is text i RETURN then
        (Scanner (if code_is text (S i) NEWLINE then S (S i) else S i) false true, t)
      else (Scanner (S i) false false, t)
    else
      match field_scan text (N - j) j with
      | Some (i, I', e) => (Scanner I' false e, Field (slice text j i))
      | None => (Scanner (Nat.max j N) true false, Field (slice text j N))
      end.

(** The inner loop [while (t !== EOL && t !== EOF) row.push(t), t = token();]:
    the row and the state after its last token. *)
Fixpoint row_loop (text : list ascii) (N fuel : nat) (st : scanner) (t : token)
    (row : list (list ascii)) : option (scanner * list (list ascii)) :=
  match t with
  | Field s =>
      match fuel with
      | O => None
      | S fuel => let '(st', t') := token_next text N st in row_loop text N fuel st' t' (row ++ [s])
      end
  | _ => Some (st, row)
  end.

(** The outer loop [while ((t = token()) !== EOF) { ... rows.push(row); }]. *)
Fixpoint rows_loop (text : list ascii) (N fuel : nat) (st : scanner) :
    option (list (list (list ascii))) :=
  match fuel with
  | O => None
  | S fuel =>
      let '(st1, t) := token_next text N st in
      match t with
      | EOF => Some []
      | _ =>
          '(st2, row) ← row_loop text N fuel st1 t [];
          rows ← rows_loop text N fuel st2;
          Some (row :: rows)
      end
  end.

(** The fuel: each token either moves [I] forward or clears [eol], so
    [2 * length + 4] rounds are enough ([parse_rows_total]). *)
Definition parse_fuel (text : list ascii) : nat := 2 * length text + 4.

(** [csvParseRows(text)]. *)
Definition parse_rows (text : list ascii) : option (list (list (list ascii))) :=
  rows_loop text (strip_end text) (parse_fuel text) (scanner_init text).

(** [csvParse(text)]: the first row names the columns and is dropped
    (the row function returns [undefined] for it); every later row becomes
    an object ([objectConverter], [JsValue.csv_row]).  The result is the
    columns (an empty list for an empty text) and the objects. *)
Definition csv_parse (text : string) : option (list string * list (gmap string jsval)) :=
  rows ← parse_rows (list_ascii_of_string text);
  match map (map string_of_list_ascii) rows with
  | [] => Some ([], [])
  | columns :: data => Some (columns, map (csv_row columns) data)
  end.

(** ** d3-dsv's [csvFormatRows], which the parser inverts *)

(** [reFormat]: the character class of the quote, the delimiter, the
    newline and the carriage return. *)
Definition special (c : ascii) : bool :=
  Ascii.eqb c QUOTE || Ascii.eqb c DELIMITER || Ascii.eqb c NEWLINE || Ascii.eqb c RETURN.

(** [value.replace(/Q/g, QQ)]: each quote doubled. *)
Definition escape_quotes (v : list ascii) : list ascii :=
  concat (map (fun c => if Ascii.eqb c QUOTE then [QUOTE; QUOTE] else [c]) v).

(** [formatValue]: quoted when it holds a quote, a comma or a line end. *)
Definition format_value (v : list ascii) : list ascii :=
  if existsb special v then QUOTE :: escape_quotes v ++ [QUOTE] else v.

(** [Array.prototype.join(sep)]. *)
Fixpoint array_join (sep : list ascii) (l : list (list ascii)) : list ascii :=
  match l with
  | [] => []
  | [x] => x
  | x :: r => x ++ sep ++ array_join sep r
  end.

(** [formatRow] and [formatRows]: fields joined by commas, rows by
    newlines. *)
Definition format_row (row : list (list ascii)) : list ascii := array_join [DELIMITER] (map format_value row).
Definition format_rows (rows : list (list (list ascii))) : list ascii := array_join [NEWLINE] (map format_row rows).

End Dsv.

Export Dsv.

(** ** The loops stop *)

Lemma quote_scan_eq text N pos :
  quote_scan text N pos =
    if (pos <? N) && negb (code_is text (S pos) QUOTE) then quote_scan text N (S pos)
    else if code_is text (S (S pos)) QUOTE then quote_scan text N (S (S pos)) else S (S pos).
Proof.
  destruct ((pos <? N) && _) eqn:E, (code_is text (S (S pos)) QUOTE) eqn:E2;
    rewrite quote_scan_equation_1; destruct (inspect _) as [[] H]; try congruence; cbn; try done;
    by rewrite E2.
Qed.

(** The quoted loop moves past the opening quote and one more character. *)
Lemma quote_scan_ge text N pos : S (S pos) <= quote_scan text N pos.
Proof. funelim (quote_scan text N pos); lia. Qed.

Lemma field_scan_spec text k p i I' e :
  field_scan text k p = Some (i, I', e) -> p <= i < p + k /\ (I' = S i \/ I' = S (S i)).
Proof.
  revert p. induction k as [|k IH]; intros p; cbn; [done|].
  repeat case_match; intros Hs; try (injection Hs as <- <- <-; lia).
  apply IH in Hs. lia.
Qed.

(** The variant of the two loops: twice the characters left before [N],
    plus a pending [EOL], plus one until [eof] is set. *)
Definition measure (N : nat) (st : scanner) : nat :=
  if eof st then 0 else 2 * (N + 1 - idx st) + (if eol st then 1 else 0) + 1.

Lemma token_next_eof text N st : eof st = true -> token_next text N st = (st, EOF).
Proof. unfold token_next. by intros ->. Qed.

(** Before [eof], a token is a field or [EOL], and the variant drops. *)
Lemma token_next_progress text N st :
  eof st = false ->
  snd (token_next text N st) <> EOF /\ measure N (fst (token_next text N st)) < measure N st.
Proof.
  intros Heof. destruct st as [j f e]. cbn in Heof. subst f. unfold token_next, measure. cbn.
  destruct e; cbn; [split; [done | lia]|].
  destruct (code_is text j QUOTE).
  - pose proof (quote_scan_ge text N j).
    destruct (N <=? quote_scan text N j) eqn:HN; cbn; [split; [done|lia]|].
    apply Nat.leb_gt in HN. repeat case_match; cbn; split; try done; lia.
  - destruct (field_scan text (N - j) j) as [[[i I'] e']|] eqn:Hf; cbn; [|split; [done|lia]].
    apply field_scan_spec in Hf. destruct e'; split; try done; lia.
Qed.

Lemma row_loop_some text N fuel st t row :
  (forall s, t = Field s -> measure N st < fuel) ->
  exists st' row', row_loop text N fuel st t row = Some (st', row') /\ measure N st' <= measure N st.
Proof.
  revert st t row. induction fuel as [|f IH]; intros st t row Hf.
  - destruct t as [| |s]; cbn; eauto. specialize (Hf s eq_refl). lia.
  - destruct t as [| |s]; cbn; eauto. specialize (Hf s eq_refl).
    destruct (eof st) eqn:He.
    + rewrite token_next_eof by done. cbn. destruct f; cbn; eauto.
    + destruct (token_next_progress text N st He) as [_ Hm].
      destruct (token_next text N st) as [st' t'] eqn:Ht. cbn in Hm.
      destruct (IH st' t' (row ++ [s])) as (st'' & r & -> & Hle); [intros; lia|]. eauto with lia.
Qed.

Lemma rows_loop_some text N fuel st :
  measure N st < fuel -> exists rows, rows_loop text N fuel st = Some rows.
Proof.
  revert st. induction fuel as [|f IH]; intros st Hf; [lia|]. cbn.
  destruct (eof st) eqn:He.
  - rewrite token_next_eof by done. eauto.
  - destruct (token_next_progress text N st He) as [Ht Hm].
    destruct (token_next text N st) as [st1 t] eqn:Htok. cbn in Ht, Hm.
    destruct (row_loop_some text N f st1 t []) as (st2 & r & Hr & Hle); [intros; lia|].
    destruct (IH st2) as [rows Hrows]; [lia|].
    destruct t; [done| |]; rewrite Hr; cbn; rewrite Hrows; eauto.
Qed.

Lemma strip_end_le text : strip_end text <= length text.
Proof. unfold strip_end. repeat case_match; lia. Qed.

(** C11: d3's CSV parser returns on every text: its loops stop within
    [parse_fuel] rounds, so no file makes [csvParseRows] fail or hang. *)
Theorem parse_rows_total (text : list ascii) : exists rows, parse_rows text = Some rows.
Proof.
  apply rows_loop_some. unfold measure, scanner_init, parse_fuel. cbn.
  pose proof (strip_end_le text). case_match; lia.
Qed.

(** ** Reading what d3-dsv writes *)

Lemma code_is_app pre l k c : code_is (pre ++ l) (length pre + k) c = code_is l k c.
Proof. unfold code_is. rewrite lookup_app_r by lia. by replace (length pre + k - length pre) with k by lia. Qed.

Lemma code_is_at pre l i k c : i = length pre + k -> code_is (pre ++ l) i c = code_is l k c.
Proof. intros ->. apply code_is_app. Qed.

Lemma code_is_app_len pre l c : code_is (pre ++ l) (length pre) c = code_is l 0 c.
Proof. pose proof (code_is_app pre l 0 c) as H. by rewrite Nat.add_0_r in H. Qed.

Lemma code_is_cons d l k c : code_is (d :: l) (S k) c = code_is l k c.
Proof. done. Qed.

Lemma code_is_head d l c : code_is (d :: l) 0 c = Ascii.eqb d c.
Proof. done. Qed.

Lemma unescape_cons_ne c tl : Ascii.eqb c QUOTE = false -> unescape (c :: tl) = c :: unescape tl.
Proof. intros Hc. destruct tl; cbn; [done|]. by rewrite Hc. Qed.

Lemma unescape_escape v : unescape (escape_quotes v) = v.
Proof.
  induction v as [|c v IH]; [done|]. unfold escape_quotes in *. cbn [map concat].
  destruct (Ascii.eqb c QUOTE) eqn:Hc.
  - apply Ascii.eqb_eq in Hc as ->. cbn. by rewrite IH.
  - cbn [app]. by rewrite unescape_cons_ne, IH.
Qed.

Lemma length_escape_quotes v : length v <= length (escape_quotes v).
Proof.
  induction v as [|c v IH]; [done|]. unfold escape_quotes in *. cbn [map concat].
  rewrite length_app. destruct (Ascii.eqb c QUOTE); cbn; lia.
Qed.

(** The quoted loop crosses an escaped value and stops after its closing
    quote. *)
Lemma quote_scan_escaped w : forall pre post pos,
  S pos = length pre -> code_is post 0 QUOTE = false ->
  let text := pre ++ escape_quotes w ++ QUOTE :: post in
  quote_scan text (length text) pos = S (S (pos + length (escape_quotes w))).
Proof.
  induction w as [|c w IH]; intros pre post pos Hpos Hpost text; subst text;
    rewrite quote_scan_eq; unfold escape_quotes in *; cbn [map concat app].
  - rewrite (code_is_at _ _ _ 0) by lia. cbn. rewrite Ascii.eqb_refl, andb_false_r.
    rewrite (code_is_at _ _ _ 1), code_is_cons, Hpost by lia. lia.
  - destruct (Ascii.eqb c QUOTE) eqn:Hc.
    + apply Ascii.eqb_eq in Hc as ->. cbn [app].
      rewrite (code_is_at _ _ _ 0) by lia. cbn. rewrite Ascii.eqb_refl, andb_false_r.
      rewrite (code_is_at _ _ _ 1) by lia. cbn. rewrite Ascii.eqb_refl.
      specialize (IH (pre ++ [QUOTE; QUOTE]) post (S (S pos))).
      rewrite <- !app_assoc in IH. cbn [app] in IH. rewrite IH by (rewrite ?length_app; cbn; lia || done).
      lia.
    + cbn [app]. rewrite (code_is_at _ _ _ 0), code_is_head, Hc by lia.
      rewrite (proj2 (Nat.ltb_lt _ _)) by (rewrite length_app; cbn; lia). cbn.
      specialize (IH (pre ++ [c]) post (S pos)).
      rewrite <- !app_assoc in IH. cbn [app] in IH. rewrite IH by (rewrite ?length_app; cbn; lia || done).
      lia.
Qed.

Definition sep_ok (tail : list ascii) : Prop :=
  match tail with [] => True | d :: _ => d = DELIMITER \/ d = NEWLINE end.

Definition sep_state (p : nat) (tail : list ascii) : scanner :=
  match tail with
  | [] => Scanner p true false
  | d :: _ => Scanner (S p) false (Ascii.eqb d NEWLINE)
  end.

Lemma sep_ok_not_quote tail : sep_ok tail -> code_is tail 0 QUOTE = false.
Proof. destruct tail as [|d r]; [done|]. by intros [-> | ->]. Qed.

Lemma special_false c :
  special c = false ->
  Ascii.eqb c QUOTE = false /\ Ascii.eqb c DELIMITER = false /\
  Ascii.eqb c NEWLINE = false /\ Ascii.eqb c RETURN = false.
Proof. unfold special. intros H. repeat (apply orb_false_iff in H as [H ?]). done. Qed.

Lemma plain_of_existsb v : existsb special v = false -> Forall (fun c => special c = false) v.
Proof.
  intros Hq. apply Forall_forall. intros c Hc. destruct (special c) eqn:Hs; [|done].
  assert (existsb special v = true) by (apply existsb_exists; exists c; by rewrite <- list_elem_of_In).
  congruence.
Qed.

Lemma slice_mid pre mid post a b :
  a = length pre -> b = length pre + length mid -> slice (pre ++ mid ++ post) a b = mid.
Proof.
  intros -> ->. unfold slice. rewrite drop_app_length.
  replace (length pre + length mid - length pre) with (length mid) by lia.
  apply take_app_length.
Qed.

Lemma field_scan_plain v : forall pre tail,
  Forall (fun c => special c = false) v -> sep_ok tail ->
  let text := pre ++ v ++ tail in
  field_scan text (length text - length pre) (length pre) =
    match tail with
    | [] => None
    | d :: _ => Some (length pre + length v, S (length pre + length v), Ascii.eqb d NEWLINE)
    end.
Proof.
  induction v as [|c v IH]; intros pre tail Hv Ht text; subst text.
  - cbn [app]. rewrite length_app. replace (length pre + length tail - length pre) with (length tail) by lia.
    destruct tail as [|d r]; cbn [length field_scan]; [done|].
    rewrite !code_is_app_len, Nat.add_0_r. destruct Ht as [-> | ->]; reflexivity.
  - inversion Hv as [|? ? Hc Hv']; subst. destruct (special_false c Hc) as (_ & Hd & Hn & Hr).
    rewrite length_app. cbn [app length].
    replace (length pre + S (length (v ++ tail)) - length pre) with (S (length (v ++ tail))) by lia.
    cbn [field_scan]. rewrite !code_is_app_len, !code_is_head, Hn, Hr, Hd.
    specialize (IH (pre ++ [c]) tail Hv' Ht). rewrite <- app_assoc in IH. cbn [app] in IH.
    rewrite !length_app in IH. cbn [length] in IH.
    replace (length pre + S (length (v ++ tail)) - (length pre + 1)) with (length (v ++ tail)) in IH by lia.
    replace (S (length pre)) with (length pre + 1) by lia. rewrite IH.
    replace (length pre + 1 + length v) with (length pre + S (length v)) by lia. done.
Qed.

Lemma code_is_middle l1 l2 x n c : n = length l1 -> code_is (l1 ++ x :: l2) n c = Ascii.eqb x c.
Proof. intros ->. unfold code_is. by rewrite list_lookup_middle. Qed.

Lemma token_value pre v tail : sep_ok tail ->
  let text := pre ++ format_value v ++ tail in
  token_next text (length text) (Scanner (length pre) false false) =
    (sep_state (length pre + length (format_value v)) tail, Field v).
Proof.
  intros Ht text. subst text. unfold token_next. cbn [eof eol idx].
  unfold format_value. destruct (existsb special v) eqn:Hq.
  - cbn [app]. rewrite code_is_app_len. cbn [app]. rewrite code_is_head, Ascii.eqb_refl.
    assert (E : pre ++ QUOTE :: (escape_quotes v ++ [QUOTE]) ++ tail =
                (pre ++ [QUOTE]) ++ escape_quotes v ++ QUOTE :: tail)
      by (by rewrite <- !app_assoc).
    rewrite E, quote_scan_escaped by (rewrite ?length_app; cbn; lia || by apply sep_ok_not_quote).
    rewrite (slice_mid (pre ++ [QUOTE]) (escape_quotes v)) by (rewrite ?length_app; cbn; lia).
    rewrite unescape_escape. rewrite !length_app. cbn [length].
    destruct tail as [|d r].
    + rewrite (proj2 (Nat.leb_le _ _)) by (cbn; lia). cbn. f_equal. f_equal. length_lia.
    + rewrite (proj2 (Nat.leb_gt _ _)) by (cbn; lia).
      assert (E2 : (pre ++ [QUOTE]) ++ escape_quotes v ++ QUOTE :: d :: r =
                   ((pre ++ [QUOTE]) ++ escape_quotes v ++ [QUOTE]) ++ d :: r)
        by (by rewrite <- !app_assoc).
      rewrite E2, !(code_is_middle _ _ d) by (rewrite !length_app; cbn; lia).
      destruct Ht as [-> | ->]; cbn; f_equal; f_equal; length_lia.
  - apply plain_of_existsb in Hq as Hv. rewrite code_is_app_len.
    replace (code_is (v ++ tail) 0 QUOTE) with false
      by (destruct v as [|c v]; [by rewrite sep_ok_not_quote|];
          inversion Hv as [|? ? Hc]; symmetry; apply (special_false c Hc)).
    rewrite field_scan_plain by done.
    destruct tail as [|d r].
    + rewrite (slice_mid pre v []) by length_lia. cbn. f_equal. f_equal. length_lia.
    + rewrite (slice_mid pre v) by length_lia. done.
Qed.

(** ** Rows *)

Lemma array_join_cons sep x l : array_join sep (x :: l) = x ++ concat (map (fun y => sep ++ y) l).
Proof.
  revert x. induction l as [|y l IH]; intros x; [by rewrite app_nil_r|].
  change (array_join sep (x :: y :: l)) with (x ++ sep ++ array_join sep (y :: l)).
  rewrite IH. cbn [map concat]. by rewrite <- !app_assoc.
Qed.

Lemma format_row_cons v vs :
  format_row (v :: vs) = format_value v ++ concat (map (fun w => DELIMITER :: format_value w) vs).
Proof. unfold format_row. cbn [map]. rewrite array_join_cons, map_map. done. Qed.

Lemma row_loop_mono text N f f' st t row r :
  row_loop text N f st t row = Some r -> f <= f' -> row_loop text N f' st t row = Some r.
Proof.
  revert f' st t row. induction f as [|f IH]; intros f' st t row H Hf.
  - destruct t, f'; cbn in *; congruence.
  - destruct t as [| |s], f' as [|f']; cbn in *; try congruence; [lia|].
    destruct (token_next text N st). apply (IH f'); [done | lia].
Qed.

Lemma rows_loop_mono text N f f' st r :
  rows_loop text N f st = Some r -> f <= f' -> rows_loop text N f' st = Some r.
Proof.
  revert f' st r. induction f as [|f IH]; intros f' st r H Hf; [done|].
  destruct f' as [|f']; [lia|]. cbn in *. destruct (token_next text N st) as [st1 t].
  destruct t as [| |s]; [done| |];
    (destruct (row_loop text N f st1 _ []) as [[st2 row]|] eqn:Hr; [|done]);
    rewrite (row_loop_mono _ _ _ f' _ _ _ _ Hr) by lia; cbn in *;
    (destruct (rows_loop text N f st2) eqn:Hs; [|done]);
    by rewrite (IH f' _ _ Hs) by lia.
Qed.

(** The state after the last field of a row: [eof], or after its [EOL]. *)
Definition end_state (p : nat) (tail : list ascii) : scanner :=
  match tail with [] => Scanner p true false | _ => Scanner (S p) false false end.

Definition row_end_ok (tail : list ascii) : Prop :=
  match tail with [] => True | d :: _ => d = NEWLINE end.

Lemma sep_ok_fields ws tail :
  row_end_ok tail -> sep_ok (concat (map (fun w => DELIMITER :: format_value w) ws) ++ tail).
Proof. destruct ws; cbn; [destruct tail; cbn; auto | auto]. Qed.

Lemma row_loop_step text N f st s acc :
  row_loop text N (S f) st (Field s) acc =
    let '(st', t') := token_next text N st in row_loop text N f st' t' (acc ++ [s]).
Proof. done. Qed.

Lemma row_loop_fields text tail vs : forall pre s acc,
  row_end_ok tail ->
  text = pre ++ concat (map (fun w => DELIMITER :: format_value w) vs) ++ tail ->
  row_loop text (length text) (S (length vs))
    (sep_state (length pre) (concat (map (fun w => DELIMITER :: format_value w) vs) ++ tail))
    (Field s) acc =
  Some (end_state (length pre + length (concat (map (fun w => DELIMITER :: format_value w) vs))) tail,
        acc ++ s :: vs).
Proof.
  induction vs as [|w ws IH]; intros pre s acc Ht Htext.
  - cbn [map concat app length]. rewrite Nat.add_0_r.
    destruct tail as [|d r]; cbn; [done|]. cbn in Ht. subst d. cbn. done.
  - set (fields := concat (map (fun w => DELIMITER :: format_value w) ws)).
    assert (Htext' : text = (pre ++ [DELIMITER]) ++ format_value w ++ (fields ++ tail))
      by (rewrite Htext; unfold fields; cbn [map concat]; rewrite <- !app_assoc; cbn [app];
          by rewrite <- ?app_assoc).
    assert (Hsep : sep_state (length pre) (concat (map (fun w => DELIMITER :: format_value w) (w :: ws)) ++ tail) =
                   Scanner (length (pre ++ [DELIMITER])) false false)
      by (cbn; f_equal; length_lia).
    assert (Htok : token_next text (length text) (Scanner (length (pre ++ [DELIMITER])) false false) =
                   (sep_state (length (pre ++ [DELIMITER]) + length (format_value w)) (fields ++ tail),
                    Field w))
      by (rewrite Htext'; apply token_value; by apply sep_ok_fields).
    cbn [length]. rewrite Hsep, row_loop_step, Htok. cbv beta iota zeta.
    rewrite <- length_app. unfold fields.
    rewrite (IH ((pre ++ [DELIMITER]) ++ format_value w) w (acc ++ [s]) Ht)
      by (rewrite Htext'; by rewrite <- !app_assoc).
    f_equal. f_equal; [f_equal; cbn [map concat]; length_lia | by rewrite <- app_assoc].
Qed.

Lemma rows_loop_step text N f st :
  rows_loop text N (S f) st =
    let '(st1, t) := token_next text N st in
    match t with
    | EOF => Some []
    | _ => '(st2, row) ← row_loop text N f st1 t []; rows ← rows_loop text N f st2; Some (row :: rows)
    end.
Proof. done. Qed.

Lemma format_rows_cons r r' rs :
  format_rows (r :: r' :: rs) = format_row r ++ NEWLINE :: format_rows (r' :: rs).
Proof. done. Qed.

Lemma rows_loop_rows rows : forall pre text,
  Forall (fun r => r <> []) rows -> rows <> [] -> text = pre ++ format_rows rows ->
  exists f, rows_loop text (length text) f (Scanner (length pre) false false) = Some rows.
Proof.
  induction rows as [|r rs IH]; intros pre text Hne Hrows Htext; [done|].
  inversion Hne as [|? ? Hr Hrs]; subst. destruct r as [|v vs]; [done|].
  set (tail := match rs with [] => [] | _ => NEWLINE :: format_rows rs end).
  set (fields := concat (map (fun w => DELIMITER :: format_value w) vs)).
  assert (Ht : row_end_ok tail) by (unfold tail; destruct rs; done).
  assert (Htext' : pre ++ format_rows ((v :: vs) :: rs) = pre ++ format_value v ++ fields ++ tail).
  { unfold tail, fields. destruct rs as [|r' rs]; [cbn [format_rows map array_join]|rewrite format_rows_cons];
      rewrite format_row_cons; by rewrite ?app_nil_r, <- ?app_assoc. }
  assert (Htok : token_next (pre ++ format_rows ((v :: vs) :: rs)) (length (pre ++ format_rows ((v :: vs) :: rs)))
                   (Scanner (length pre) false false) =
                 (sep_state (length pre + length (format_value v)) (fields ++ tail), Field v))
    by (rewrite Htext'; apply token_value; by apply sep_ok_fields).
  assert (Hrow := row_loop_fields (pre ++ format_rows ((v :: vs) :: rs)) tail vs
                    (pre ++ format_value v) v [] Ht ltac:(rewrite Htext'; by rewrite <- app_assoc)).
  rewrite (length_app pre (format_value v)) in Hrow. fold fields in Hrow.
  assert (Hend : exists f1, rows_loop (pre ++ format_rows ((v :: vs) :: rs))
                   (length (pre ++ format_rows ((v :: vs) :: rs))) f1
                   (end_state (length pre + length (format_value v) + length fields) tail) = Some rs).
  { unfold tail. destruct rs as [|r' rs].
    - exists 1. done.
    - destruct (IH (pre ++ format_row (v :: vs) ++ [NEWLINE]) (pre ++ format_rows ((v :: vs) :: r' :: rs))
                 Hrs ltac:(done)) as [f1 Hf1].
      { rewrite format_rows_cons. by rewrite <- !app_assoc. }
      exists f1. rewrite <- Hf1. cbn [end_state]. do 3 f_equal.
      rewrite format_row_cons. fold fields. length_lia. }
  destruct Hend as [f1 Hf1]. exists (S (S (length vs) + f1)).
  rewrite Htext' in Htok, Hrow, Hf1 |- *. rewrite rows_loop_step, Htok. cbv beta iota zeta.
  rewrite (row_loop_mono _ _ _ _ _ _ _ _ Hrow) by lia. cbn -[rows_loop].
  rewrite (rows_loop_mono _ _ _ _ _ _ Hf1) by lia. done.
Qed.

(** ** The formatted text keeps its length: it ends in no line break *)

Definition last_ok (l : list ascii) : Prop :=
  exists c, last l = Some c /\ Ascii.eqb c NEWLINE = false /\ Ascii.eqb c RETURN = false.

Lemma last_ok_app l1 l2 : last_ok l2 -> last_ok (l1 ++ l2).
Proof. intros (c & Hc & ?). exists c. rewrite last_app, Hc. done. Qed.

Lemma format_value_last_ok v : v <> [] -> last_ok (format_value v).
Proof.
  intros Hv. unfold format_value. destruct (existsb special v) eqn:Hq.
  - exists QUOTE. rewrite app_comm_cons, last_snoc. done.
  - destruct (last v) as [c|] eqn:Hc; [|by apply last_None in Hc].
    exists c. split; [done|]. apply plain_of_existsb in Hq. apply last_Some_elem_of in Hc.
    rewrite Forall_forall in Hq. by destruct (special_false c (Hq c Hc)) as (_ & _ & -> & ->).
Qed.

Lemma delim_value_last_ok w : last_ok (DELIMITER :: format_value w).
Proof.
  destruct w as [|c w].
  - exists DELIMITER. done.
  - apply (last_ok_app [DELIMITER]). by apply format_value_last_ok.
Qed.

Lemma format_row_last_ok v vs : (v :: vs) <> [[]] -> last_ok (format_row (v :: vs)).
Proof.
  intros Hr. rewrite format_row_cons. destruct vs as [|w vs _] using rev_ind.
  - rewrite app_nil_r. apply format_value_last_ok. by intros ->.
  - rewrite map_app, concat_app. cbn [map concat]. rewrite app_nil_r, app_assoc.
    apply last_ok_app, delim_value_last_ok.
Qed.

Lemma array_join_snoc sep l x : l <> [] -> array_join sep (l ++ [x]) = array_join sep l ++ sep ++ x.
Proof.
  intros Hl. induction l as [|a l IH]; [done|]. destruct l as [|b l]; [done|].
  cbn [app]. change (array_join sep (a :: b :: l ++ [x])) with (a ++ sep ++ array_join sep (b :: l ++ [x])).
  specialize (IH ltac:(done)). cbn [app] in IH. rewrite IH. change (array_join sep (a :: b :: l)) with (a ++ sep ++ array_join sep (b :: l)).
  by rewrite <- !app_assoc.
Qed.

Lemma format_rows_last_ok rows :
  rows <> [] -> Forall (fun r => r <> []) rows -> last rows <> Some [[]] -> last_ok (format_rows rows).
Proof.
  intros Hne Hall Hlast. destruct rows as [|r rs _] using rev_ind; [done|].
  rewrite last_snoc in Hlast. apply Forall_app in Hall as [_ Hr]. inversion Hr as [|? ? Hr0]; subst.
  destruct r as [|v vs]; [done|].
  assert (Hrow : last_ok (format_row (v :: vs))) by (apply format_row_last_ok; congruence).
  unfold format_rows. rewrite map_app. cbn [map]. destruct rs as [|r' rs]; [done|].
  rewrite array_join_snoc by (destruct rs; done). rewrite app_assoc. by apply last_ok_app.
Qed.

Lemma strip_end_last_ok text : last_ok text -> strip_end text = length text.
Proof.
  intros (c & Hc & Hn & Hr). rewrite last_lookup in Hc. unfold strip_end, code_before.
  destruct (length text) as [|n] eqn:Hl; [done|]. cbn in Hc. unfold code_is. rewrite Hc, Hn.
  cbv iota. rewrite Hc, Hr. done.
Qed.

(** C12: round trip: a list of rows, each with a field, the last not the
    single empty field, written by d3-dsv's [csvFormatRows] and read back
    by [csvParseRows], gives the same rows. *)
Theorem parse_format_rows rows :
  Forall (fun r => r <> []) rows -> last rows <> Some [[]] ->
  parse_rows (format_rows rows) = Some rows.
Proof.
  intros Hall Hlast. destruct rows as [|r rs]; [done|].
  assert (Hok := format_rows_last_ok (r :: rs) ltac:(done) Hall Hlast).
  destruct (rows_loop_rows (r :: rs) [] (format_rows (r :: rs)) Hall ltac:(done) eq_refl) as [f Hf].
  destruct (parse_rows_total (format_rows (r :: rs))) as [R HR].
  unfold parse_rows in *. rewrite strip_end_last_ok in HR |- * by done.
  assert (Hinit : scanner_init (format_rows (r :: rs)) = Scanner (length (@nil ascii)) false false).
  { unfold scanner_init. destruct Hok as (c & Hc & _). destruct (format_rows (r :: rs)); done. }
  rewrite Hinit in HR |- *.
  pose proof (rows_loop_mono _ _ _ (Nat.max f (parse_fuel (format_rows (r :: rs)))) _ _ HR ltac:(lia)) as H1.
  pose proof (rows_loop_mono _ _ _ (Nat.max f (parse_fuel (format_rows (r :: rs)))) _ _ Hf ltac:(lia)) as H2.
  rewrite H1 in H2. by injection H2 as ->.
Qed.
Lemma last_ok_plain l : l <> [] -> Forall (fun c => special c = false) l -> last_ok l.
Proof.
  intros Hl Hp. destruct (last l) as [c|] eqn:Hc; [|by apply last_None in Hc].
  exists c. split; [done|]. apply last_Some_elem_of in Hc. rewrite Forall_forall in Hp.
  by destruct (special_false c (Hp c Hc)) as (_ & _ & -> & ->).
Qed.

Lemma slice_end pre mid a b : a = length pre -> b = length (pre ++ mid) -> slice (pre ++ mid) a b = mid.
Proof. intros -> ->. rewrite <- (app_nil_r (pre ++ mid)), <- app_assoc. apply slice_mid; length_lia. Qed.

(** C14: a quoted field followed by other text before the comma is not
    rejected: the character right after the closing quote is dropped and
    the rest of the cell becomes a field of its own, so the row gains a
    column. *)
Theorem parse_rows_text_after_quote v x w :
  special x = false -> Forall (fun c => special c = false) w ->
  parse_rows (QUOTE :: escape_quotes v ++ QUOTE :: x :: w) = Some [[v; w]].
Proof.
  intros Hx Hw. destruct (special_false x Hx) as (Hxq & _ & Hxn & Hxr).
  set (text := QUOTE :: escape_quotes v ++ QUOTE :: x :: w).
  assert (Etext : text = ([QUOTE] ++ escape_quotes v ++ [QUOTE; x]) ++ w) by (unfold text; app_solve).
  assert (HN : strip_end text = length text).
  { apply strip_end_last_ok.
    assert (E : text = (QUOTE :: escape_quotes v ++ [QUOTE]) ++ x :: w) by (unfold text; app_solve).
    rewrite E. apply last_ok_app, last_ok_plain; [done | by constructor]. }
  set (i := S (S (length (escape_quotes v)))).
  assert (Htok1 : token_next text (length text) (Scanner 0 false false) =
                  (Scanner (S i) false false, Field v)).
  { unfold token_next. cbn [eof eol idx]. replace (code_is text 0 QUOTE) with true by done.
    unfold text. change (QUOTE :: escape_quotes v ++ QUOTE :: x :: w)
      with ([QUOTE] ++ escape_quotes v ++ QUOTE :: x :: w).
    rewrite (quote_scan_escaped v [QUOTE] (x :: w) 0) by (done || by rewrite code_is_head).
    rewrite (slice_mid [QUOTE] (escape_quotes v)) by (cbn; lia). rewrite unescape_escape.
    rewrite (proj2 (Nat.leb_gt _ _)) by length_lia.
    assert (E : [QUOTE] ++ escape_quotes v ++ QUOTE :: x :: w = ([QUOTE] ++ escape_quotes v ++ [QUOTE]) ++ x :: w)
      by app_solve.
    rewrite E, !(code_is_middle _ _ x) by length_lia. rewrite Hxn, Hxr. done. }
  assert (Htok2 : token_next text (length text) (Scanner (S i) false false) =
                  (Scanner (length text) true false, Field w)).
  { unfold token_next. cbn [eof eol idx].
    assert (Hi : S i = length ([QUOTE] ++ escape_quotes v ++ [QUOTE; x])) by length_lia.
    rewrite Etext, Hi, code_is_app_len.
    replace (code_is w 0 QUOTE) with false
      by (destruct w as [|c w]; [done|]; inversion Hw as [|? ? Hc]; symmetry; apply (special_false c Hc)).
    pose proof (field_scan_plain w ([QUOTE] ++ escape_quotes v ++ [QUOTE; x]) [] Hw I) as Hf.
    rewrite app_nil_r in Hf. rewrite Hf, slice_end by length_lia. f_equal. f_equal. length_lia. }
  unfold parse_rows. rewrite HN.
  replace (scanner_init text) with (Scanner 0 false false) by (unfold scanner_init, text; done).
  replace (parse_fuel text) with (S (S (S (S (2 * length text))))) by (unfold parse_fuel; lia).
  rewrite rows_loop_step, Htok1. cbv beta iota zeta.
  rewrite row_loop_step, Htok2. cbv beta iota zeta. rewrite row_loop_step, token_next_eof by done.
  done.
Qed.

Lemma parse_format_rows_witness :
  parse_rows (format_rows [[list_ascii_of_string "reason"; list_ascii_of_string "Count"];
                           [list_ascii_of_string "Noise, loud"; list_ascii_of_string "120"]]) =
    Some [[list_ascii_of_string "reason"; list_ascii_of_string "Count"];
          [list_ascii_of_string "Noise, loud"; list_ascii_of_string "120"]].
Proof.
  apply parse_format_rows; apply (bool_decide_unpack _); vm_compute; reflexivity.
Defined.

Lemma parse_rows_text_after_quote_witness :
  parse_rows (QUOTE :: escape_quotes (list_ascii_of_string "Street Light") ++
              QUOTE :: " "%char :: list_ascii_of_string "Outage") =
    Some [[list_ascii_of_string "Street Light"; list_ascii_of_string "Outage"]].
Proof.
  apply parse_rows_text_after_quote; [vm_compute; reflexivity |].
  apply (bool_decide_unpack _); vm_compute; reflexivity.
Defined.

Lemma map_string_of_list_ascii_inv (rows : list (list string)) :
  map (map string_of_list_ascii) (map (map list_ascii_of_string) rows) = rows.
Proof.
  induction rows as [|r rows IH]; [done|]. cbn. rewrite IH. f_equal.
  induction r as [|s r IHr]; [done|]. cbn. by rewrite string_of_list_ascii_of_string, IHr.
Qed.

(** C13: [csvParse] reads back what d3-dsv's [csvFormatRows] writes: a
    header and rows of strings, none of them empty and the last not the
    single empty field, give the header as the columns and one object per
    row, keyed by the header. *)
Theorem csv_parse_format (header : list string) (data : list (list string)) :
  header <> [] -> Forall (fun r => r <> []) data -> last (header :: data) <> Some [""] ->
  csv_parse (string_of_list_ascii (format_rows (map (map list_ascii_of_string) (header :: data)))) =
    Some (header, map (csv_row header) data).
Proof.
  intros Hh Hd Hl. unfold csv_parse. rewrite list_ascii_of_string_of_list_ascii.
  rewrite parse_format_rows.
  - cbn [mbind option_bind]. rewrite map_string_of_list_ascii_inv. done.
  - rewrite Forall_map. constructor; [by destruct header|]. eapply Forall_impl; [exact Hd|].
    intros r Hr. by destruct r.
  - change (map (map list_ascii_of_string) (header :: data))
      with (map list_ascii_of_string <$> (header :: data)).
    rewrite fmap_last. destruct (last (header :: data)) as [r|]; [|done]. cbn.
    intros [= Hr]. apply Hl. f_equal. destruct r as [|s [|]]; try done.
    cbn in Hr. injection Hr as Hs. by destruct s.
Qed.

Lemma csv_parse_format_witness :
  csv_parse (string_of_list_ascii (format_rows (map (map list_ascii_of_string)
    [["reason"; "Count"]; ["Pothole"; "50"]; ["Noise, loud"; "120"]]))) =
    Some (["reason"; "Count"], map (csv_row ["reason"; "Count"]) [["Pothole"; "50"]; ["Noise, loud"; "120"]]).
Proof.
  apply csv_parse_format; [apply (bool_decide_unpack _); vm_compute; reflexivity | apply (bool_decide_unpack _); vm_compute; reflexivity |].
  apply (bool_decide_unpack _); vm_compute; reflexivity.
Defined.
