(* ===== verification/NumberFormat.v ===== *)
(** * Number::toString for the label texts

    Line 95, [.text(function(d) { return d.Count; })], sets each label's text
    to the count, converted by Number::toString.  This file follows
    ECMAScript's Number::toString on the exact value: step 5 picks the
    integers [s], [k], [n] with [s * 10^(n-k)] the value and [k] least
    ([shortest_decimal]); steps 6 to 10 write the digits plainly, with a
    point, after [0.] and zeros, or in exponent form ([format_decimal]).
    The script prints the double nearest the value; that double prints as
    the value's shortest decimal when the value has at most 15 significant
    digits and a normal magnitude, or is an integer up to 2^53.  Other
    finite values give [None].

    The theorems: [shortest_decimal] refines step 5, [number_to_string]
    prints the steps 6 to 10 text of step 5's digits on every decimal of
    at most 15 digits, and every text it prints reads back by
    [StringToNumber] as the same value. *)

From S2P Require Import Prelude JsNumber StringToNumber.
From Stdlib Require Import Ascii String Qpower.
From stdpp Require Import strings.

Module NumberFormat.

(** The decimal digits of [n], most significant first, prepended to
    [acc]; [fuel] bounds the number of digits. *)
Fixpoint n_digits (fuel : nat) (n : N) (acc : list nat) : list nat :=
  match fuel with
  | O => acc
  | S f =>
      let acc' := N.to_nat (n mod 10)%N :: acc in
      if (n <? 10)%N then acc' else n_digits f (n / 10)%N acc'
  end.

(** The digits of [n]: one more than [N.size n] (its number of bits) is
    enough fuel, as every digit but a lone [0] takes at least one bit
    ([decimal_digits_spec]). *)
Definition decimal_digits (n : N) : list nat := n_digits (S (N.to_nat (N.size n))) n [].

Definition decimal_string (z : Z) : string :=
  let digits := string_of_list_ascii (map digit_char (decimal_digits (Z.to_N (Z.abs z)))) in
  if (z <? 0)%Z then ("-" ++ digits)%string else digits.

(** The number of factors 2 of [d], and what is left. *)
Fixpoint twos (d : positive) : nat * positive :=
  match d with
  | xO d' => let '(a, r) := twos d' in (S a, r)
  | _ => (O, d)
  end.

(** The number of factors 5 of [d], and what is left; [fuel] bounds the
    count, and the number of bits of [d] is enough ([fives_spec]). *)
Fixpoint fives (fuel : nat) (d : positive) : nat * positive :=
  match fuel with
  | O => (O, d)
  | S f =>
      if (Zpos d mod 5 =? 0)%Z then
        let '(b, r) := fives f (Z.to_pos (Zpos d / 5)) in (S b, r)
      else (O, d)
  end.

(** An [e] with [d] dividing [10^e] when [d] has no prime factor but 2 and
    5: the denominators of the values with a finite decimal expansion. *)
Definition decimal_scale (d : positive) : option nat :=
  let '(a, r) := twos d in
  let '(b, r') := fives (Pos.size_nat r) r in
  if (r' =? 1)%positive then Some (Nat.max a b) else None.

(** [m * 10^t = s * 10^t'] with [s] not a multiple of 10 (when [m > 0]);
    the number of bits of [m] is enough fuel ([strip_zeros_last]). *)
Fixpoint strip_zeros (fuel : nat) (m : N) (t : nat) : N * nat :=
  match fuel with
  | O => (m, t)
  | S f => if (0 <? m)%N && (m mod 10 =? 0)%N then strip_zeros f (m / 10) (S t) else (m, t)
  end.

(** Number::toString, step 5, for the positive value [p/d]: the integers
    [s], [k] and [n] with [k] as small as possible, [10^(k-1) <= s < 10^k]
    and [s * 10^(n-k)] the value, returned as the [k] digits of [s] and
    [n].  [None] when the value has no finite decimal expansion. *)
Definition shortest_decimal (p d : positive) : option (list nat * Z) :=
  match decimal_scale d with
  | None => None
  | Some e =>
      let m := (Npos p * (10 ^ N.of_nat e / Npos d))%N in
      let '(s, t) := strip_zeros (N.to_nat (N.size m)) m 0 in
      let ds := decimal_digits s in
      Some (ds, (Z.of_nat (length ds) + Z.of_nat t - Z.of_nat e)%Z)
  end.

(** The exponent part of steps 9 and 10: [e], a sign, the digits of the
    exponent. *)
Definition exponent_text (e : Z) : list ascii :=
  "e"%char :: (if (0 <? e)%Z then "+"%char else "-"%char) ::
    map digit_char (decimal_digits (Z.to_N (Z.abs e))).

(** Steps 6 to 10 of Number::toString on the digits [ds] of [s] and on
    [n]: the digits and [n - k] zeros; a point after [n] digits; [0.], [-n]
    zeros and the digits; or the exponent form. *)
Definition format_decimal (ds : list nat) (n : Z) : list ascii :=
  let k := Z.of_nat (length ds) in
  if (k <=? n)%Z && (n <=? 21)%Z then map digit_char (ds ++ repeat 0%nat (Z.to_nat (n - k)))
  else if (0 <? n)%Z && (n <=? 21)%Z then
    map digit_char (take (Z.to_nat n) ds) ++ "."%char :: map digit_char (drop (Z.to_nat n) ds)
  else if (-6 <? n)%Z && (n <=? 0)%Z then
    "0"%char :: "."%char :: map digit_char (repeat 0%nat (Z.to_nat (- n)) ++ ds)
  else
    match ds with
    | [d] => digit_char d :: exponent_text (n - 1)
    | d :: rest => digit_char d :: "."%char :: map digit_char rest ++ exponent_text (n - 1)
    | [] => []
    end.

(** Number::toString.  The script prints the IEEE double nearest to the
    exact value; that double prints as the value's own shortest decimal
    when the value has at most 15 significant digits (DBL_DIG) and a
    normal magnitude ([-306 <= n <= 308]), or is an integer up to 2^53
    (an exact double).  Other finite values give [None]. *)
Definition number_to_string (x : number) : option string :=
  match x with
  | NaN => Some "NaN"
  | PosInf => Some "Infinity"
  | NegInf => Some "-Infinity"
  | Fin q =>
      let r := Qred q in
      let exact_int := (Qden r =? 1)%positive && (Z.abs (Qnum r) <=? 2 ^ 53)%Z in
      let print (p : positive) :=
        match shortest_decimal p (Qden r) with
        | Some (ds, n) =>
            if exact_int || ((length ds <=? 15)%nat && (-306 <=? n)%Z && (n <=? 308)%Z)
            then Some (string_of_list_ascii (format_decimal ds n)) else None
        | None => None
        end in
      match Qnum r with
      | Z0 => Some "0"
      | Zpos p => print p
      | Zneg p => (fun t => ("-" ++ t)%string) <$> print p
      end
  end.

End NumberFormat.

Export NumberFormat.

(** ** The digits of an integer and the round trip *)

Lemma fold_digits r (l : list nat) (a : Z) :
  fold_left (fun acc d => acc * Z.of_nat r + Z.of_nat d)%Z l a =
    (a * Z.of_nat r ^ Z.of_nat (length l) + digits_value r l)%Z.
Proof.
  unfold digits_value. revert a. induction l as [|d l IH]; intros a; cbn [fold_left length].
  - lia.
  - rewrite IH, (IH (0 * Z.of_nat r + Z.of_nat d)%Z), Nat2Z.inj_succ, Z.pow_succ_r by lia. lia.
Qed.

Lemma digits_value_cons r d l :
  digits_value r (d :: l) = (Z.of_nat d * Z.of_nat r ^ Z.of_nat (length l) + digits_value r l)%Z.
Proof. unfold digits_value at 1. cbn [fold_left]. rewrite fold_digits. lia. Qed.

Lemma n_digits_spec fuel n acc :
  (n < 10 ^ N.of_nat fuel)%N -> Forall (fun d => d < 10)%nat acc ->
  digits_value 10 (n_digits fuel n acc) =
    (Z.of_N n * 10 ^ Z.of_nat (length acc) + digits_value 10 acc)%Z /\
  Forall (fun d => d < 10)%nat (n_digits fuel n acc) /\
  (fuel <> 0%nat -> n_digits fuel n acc <> []).
Proof.
  revert n acc. induction fuel as [|f IH]; intros n acc Hn Hacc; cbn [n_digits].
  { assert (n = 0%N) as -> by (cbn in Hn; lia). split; [lia|]. split; [done|done]. }
  assert (Hd : (N.to_nat (n mod 10) < 10)%nat) by (pose proof (N.mod_lt n 10); lia).
  destruct (N.ltb_spec n 10) as [Hlt|Hge].
  - split; [|split; [by constructor | done]].
    rewrite digits_value_cons, N.mod_small by done. rewrite N_nat_Z. lia.
  - assert (Hq : (n / 10 < 10 ^ N.of_nat f)%N).
    { apply N.Div0.div_lt_upper_bound. rewrite Nat2N.inj_succ, N.pow_succ_r' in Hn. lia. }
    destruct (IH (n / 10)%N (N.to_nat (n mod 10) :: acc) Hq) as (Hv & Hf & _); [by constructor|].
    split; [|split; [done|]].
    + rewrite Hv, digits_value_cons. cbn [length]. rewrite N_nat_Z, Nat2Z.inj_succ, Z.pow_succ_r by lia.
      pose proof (N.div_mod n 10 ltac:(lia)) as Hdm.
      apply (f_equal Z.of_N) in Hdm. rewrite N2Z.inj_add, N2Z.inj_mul in Hdm. lia.
    + intros _. destruct f as [|f'].
      * exfalso. cbn in Hq. assert (1 <= n / 10)%N by (apply N.div_le_lower_bound; lia). lia.
      * apply (IH (n / 10)%N _ Hq); [by constructor | done].
Qed.

Lemma decimal_digits_spec n :
  digits_value 10 (decimal_digits n) = Z.of_N n /\
  Forall (fun d => d < 10)%nat (decimal_digits n) /\ decimal_digits n <> [].
Proof.
  unfold decimal_digits.
  destruct (n_digits_spec (S (N.to_nat (N.size n))) n []) as (Hv & Hf & Hne); [|constructor|].
  - rewrite Nat2N.inj_succ, N2Nat.id, N.pow_succ_r'.
    pose proof (N.size_gt n) as Hsz.
    assert (2 ^ N.size n <= 10 ^ N.size n)%N by (apply N.pow_le_mono_l; lia). lia.
  - split; [rewrite Hv; unfold digits_value; cbn [length Z.of_nat fold_left]; lia|].
    split; [done|]. by apply Hne.
Qed.

Lemma n_digits_acc f n acc : n_digits f n acc = n_digits f n [] ++ acc.
Proof.
  revert n acc. induction f as [|f IH]; intros n acc; cbn [n_digits]; [done|].
  destruct (n <? 10)%N; [done|]. rewrite IH, (IH _ [_]). by rewrite <- app_assoc.
Qed.

(** Any fuel above what a number needs gives the same digits. *)
Lemma n_digits_fuel f0 f n acc :
  (n < 10 ^ N.of_nat f0)%N -> (1 <= f0 <= f)%nat -> n_digits f n acc = n_digits f0 n acc.
Proof.
  revert f n acc. induction f0 as [|f0 IH]; intros f n acc Hn Hf; [lia|].
  destruct f as [|f]; [lia|]. cbn [n_digits]. destruct (N.ltb_spec n 10); [done|].
  apply IH; [|split; [|lia]].
  - apply N.Div0.div_lt_upper_bound. rewrite Nat2N.inj_succ, N.pow_succ_r' in Hn. lia.
  - destruct f0; [cbn in Hn; lia | lia].
Qed.

Lemma decimal_digits_fuel_enough n : (n < 10 ^ N.of_nat (S (N.to_nat (N.size n))))%N.
Proof.
  rewrite Nat2N.inj_succ, N2Nat.id, N.pow_succ_r'.
  pose proof (N.size_gt n) as Hsz.
  assert (2 ^ N.size n <= 10 ^ N.size n)%N by (apply N.pow_le_mono_l; lia). lia.
Qed.

Lemma decimal_digits_fuel f n :
  (n < 10 ^ N.of_nat f)%N -> (1 <= f)%nat -> decimal_digits n = n_digits f n [].
Proof.
  intros Hn Hf. unfold decimal_digits.
  assert (Hmin : (n < 10 ^ N.of_nat (Nat.min f (S (N.to_nat (N.size n)))))%N).
  { destruct (Nat.min_spec f (S (N.to_nat (N.size n)))) as [[_ ->]|[_ ->]];
      [done | apply decimal_digits_fuel_enough]. }
  rewrite (n_digits_fuel _ (S _) n [] Hmin), (n_digits_fuel _ f n [] Hmin) by lia. done.
Qed.

Lemma length_n_digits f n acc : (length (n_digits f n acc) <= f + length acc)%nat.
Proof.
  revert n acc. induction f as [|f IH]; intros n acc; cbn [n_digits]; [lia|].
  destruct (n <? 10)%N; cbn [length]; [lia|]. specialize (IH (n / 10)%N (N.to_nat (n mod 10) :: acc)).
  cbn [length] in IH. lia.
Qed.

Lemma decimal_digits_length n j :
  (n < 10 ^ N.of_nat j)%N -> (1 <= j)%nat -> (length (decimal_digits n) <= j)%nat.
Proof.
  intros Hn Hj. rewrite (decimal_digits_fuel j) by done.
  pose proof (length_n_digits j n []) as H. cbn [length] in H. lia.
Qed.

(** Appending a zero digit multiplies by ten. *)
Lemma decimal_digits_mul10 s : (0 < s)%N -> decimal_digits (s * 10) = decimal_digits s ++ [0%nat].
Proof.
  intros Hs. unfold decimal_digits at 1. cbn [n_digits].
  replace ((s * 10) mod 10)%N with 0%N by (symmetry; apply N.Div0.mod_mul).
  replace (s * 10 <? 10)%N with false by (symmetry; apply N.ltb_ge; lia).
  rewrite N.div_mul by lia. rewrite n_digits_acc.
  rewrite <- (decimal_digits_fuel (N.to_nat (N.size (s * 10)))); [done| |].
  - rewrite N2Nat.id. pose proof (N.size_gt (s * 10)) as Hsz.
    assert (2 ^ N.size (s * 10) <= 10 ^ N.size (s * 10))%N by (apply N.pow_le_mono_l; lia). lia.
  - pose proof (N.size_gt (s * 10)). assert (N.size (s * 10) <> 0%N); [|lia].
    intros Hz. rewrite Hz in *. cbn in *. lia.
Qed.

Lemma decimal_digits_zeros s t :
  (0 < s)%N -> decimal_digits (s * 10 ^ N.of_nat t) = decimal_digits s ++ repeat 0%nat t.
Proof.
  intros Hs. induction t as [|t IH]; [by rewrite N.mul_1_r, app_nil_r|].
  rewrite Nat2N.inj_succ, N.pow_succ_r', N.mul_comm, <- N.mul_assoc, N.mul_comm.
  rewrite decimal_digits_mul10, (N.mul_comm _ s), IH; [|lia].
  rewrite <- app_assoc. f_equal. clear. induction t as [|t IHt]; [done|]. cbn. by rewrite IHt.
Qed.

Lemma digits_value_app l1 l2 :
  digits_value 10 (l1 ++ l2) = (digits_value 10 l1 * 10 ^ Z.of_nat (length l2) + digits_value 10 l2)%Z.
Proof. unfold digits_value at 1. rewrite fold_left_app. apply fold_digits. Qed.

Lemma digits_value_repeat0 j : digits_value 10 (repeat 0%nat j) = 0%Z.
Proof. induction j as [|j IH]; [done|]. cbn [repeat]. rewrite digits_value_cons, IH. lia. Qed.

Lemma digits_value_bounds ds :
  Forall (fun d => d < 10)%nat ds ->
  (0 <= digits_value 10 ds < 10 ^ Z.of_nat (length ds))%Z.
Proof.
  induction 1 as [|d ds Hd _ IH]; [cbn; lia|]. rewrite digits_value_cons.
  cbn [length]. rewrite (Nat2Z.inj_succ (length ds)), Z.pow_succ_r by lia.
  change (Z.of_nat 10) with 10%Z.
  assert (0 < 10 ^ Z.of_nat (length ds))%Z by (apply Z.pow_pos_nonneg; lia). nia.
Qed.

(** The first digit is not a zero: [10^(k-1) <= n] for [k] digits. *)
Lemma decimal_digits_lower n :
  (0 < n)%N -> (10 ^ (Z.of_nat (length (decimal_digits n)) - 1) <= Z.of_N n)%Z.
Proof.
  intros Hn. destruct (decimal_digits_spec n) as (_ & _ & Hne).
  destruct (decimal_digits n) as [|d ds] eqn:E; [done|]. cbn [length].
  destruct (Z.le_gt_cases (10 ^ (Z.of_nat (S (length ds)) - 1)) (Z.of_N n)) as [|Hlt]; [done|].
  exfalso. destruct ds as [|d' ds]; [cbn in Hlt; lia|].
  assert (Hl : (length (decimal_digits n) <= S (length ds))%nat).
  { apply decimal_digits_length; [|lia]. apply N2Z.inj_lt. rewrite N2Z.inj_pow, nat_N_Z.
    replace (Z.of_nat (S (length ds))) with (Z.of_nat (S (length (d' :: ds))) - 1)%Z
      by (cbn [length]; lia). done. }
  rewrite E in Hl. cbn [length] in Hl. lia.
Qed.

(** ** Trailing zeros and the decimal scale of a denominator *)

Lemma strip_zeros_spec f m t0 :
  let '(s, t) := strip_zeros f m t0 in
  (m * 10 ^ N.of_nat t0 = s * 10 ^ N.of_nat t)%N /\ (t0 <= t)%nat.
Proof.
  revert m t0. induction f as [|f IH]; intros m t0; cbn [strip_zeros]; [lia|].
  destruct ((0 <? m)%N && (m mod 10 =? 0)%N) eqn:E; [|lia].
  specialize (IH (m / 10)%N (S t0)). destruct (strip_zeros f (m / 10) (S t0)) as [s t].
  destruct IH as [IH Ht]. split; [|lia]. rewrite <- IH.
  apply andb_true_iff in E as [_ E%N.eqb_eq].
  rewrite Nat2N.inj_succ, N.pow_succ_r'. pose proof (N.div_mod m 10 ltac:(lia)). lia.
Qed.

(** Enough fuel strips every trailing zero. *)
Lemma strip_zeros_last f m t0 :
  (0 < m)%N -> (m < 2 ^ N.of_nat f)%N ->
  (0 < fst (strip_zeros f m t0))%N /\ (fst (strip_zeros f m t0) mod 10 <> 0)%N.
Proof.
  revert m t0. induction f as [|f IH]; intros m t0 Hm Hf; [cbn in Hf; lia|]. cbn [strip_zeros].
  destruct (N.ltb_spec 0 m) as [_|]; [|lia]. destruct (N.eqb_spec (m mod 10) 0) as [E|E]; [|done].
  cbn [andb]. apply IH.
  - pose proof (N.div_mod m 10 ltac:(lia)). lia.
  - rewrite Nat2N.inj_succ, N.pow_succ_r' in Hf. apply N.Div0.div_lt_upper_bound. lia.
Qed.

Lemma twos_spec d : Zpos d = (2 ^ Z.of_nat (fst (twos d)) * Zpos (snd (twos d)))%Z /\ Z.odd (Zpos (snd (twos d))) = true.
Proof.
  induction d as [d _|d IH|]; cbn [twos fst snd]; [split; [lia | done] | | split; [lia | done]].
  destruct (twos d) as [a r]. cbn [fst snd] in *. destruct IH as [IH Ho]. split; [|done].
  rewrite Nat2Z.inj_succ, Z.pow_succ_r by lia. lia.
Qed.

Lemma fives_spec f d :
  Zpos d = (5 ^ Z.of_nat (fst (fives f d)) * Zpos (snd (fives f d)))%Z /\
  ((Zpos d < 5 ^ Z.of_nat f)%Z -> (Zpos (snd (fives f d)) mod 5 <> 0)%Z).
Proof.
  revert d. induction f as [|f IH]; intros d; cbn [fives fst snd].
  { split; [lia|]. cbn. lia. }
  destruct (Z.eqb_spec (Zpos d mod 5) 0) as [E|E]; [|split; [cbn; lia | done]].
  pose proof (Z.div_mod (Zpos d) 5 ltac:(lia)) as Hdm.
  assert (Hq : (0 < Zpos d / 5)%Z) by lia.
  specialize (IH (Z.to_pos (Zpos d / 5))). rewrite Z2Pos.id in IH by done.
  destruct (fives f (Z.to_pos (Zpos d / 5))) as [b r]. cbn [fst snd] in *.
  destruct IH as [IH Hr]. split.
  - rewrite Nat2Z.inj_succ, Z.pow_succ_r by lia. lia.
  - intros Hd. apply Hr. rewrite Nat2Z.inj_succ, Z.pow_succ_r in Hd by lia. lia.
Qed.

Lemma pos_lt_2_size d : (Zpos d < 2 ^ Z.of_nat (Pos.size_nat d))%Z.
Proof.
  induction d as [d IH|d IH|]; cbn [Pos.size_nat]; [..|cbn; lia];
    rewrite Nat2Z.inj_succ, Z.pow_succ_r by lia; lia.
Qed.

Lemma pos_lt_5_size d : (Zpos d < 5 ^ Z.of_nat (Pos.size_nat d))%Z.
Proof.
  pose proof (pos_lt_2_size d).
  assert (2 ^ Z.of_nat (Pos.size_nat d) <= 5 ^ Z.of_nat (Pos.size_nat d))%Z
    by (apply Z.pow_le_mono_l; lia). lia.
Qed.

(** A number prime to 2 and 5 that divides a power of ten is 1. *)
Lemma divide_pow10_coprime x j :
  (0 < x)%Z -> Z.odd x = true -> (x mod 5 <> 0)%Z -> (x | 10 ^ Z.of_nat j)%Z -> x = 1%Z.
Proof.
  intros Hx Ho H5 Hd. assert (Hg : Z.gcd x 10 = 1%Z).
  { rewrite Z.gcd_comm, <- Z.gcd_mod by lia. rewrite Z.gcd_comm.
    pose proof (Z.mod_pos_bound x 10 ltac:(lia)) as Hb.
    rewrite Zodd_mod, Z.eqb_eq in Ho.
    pose proof (Z.div_mod x 10 ltac:(lia)). pose proof (Z.div_mod x 5 ltac:(lia)).
    pose proof (Z.div_mod x 2 ltac:(lia)). pose proof (Z.mod_pos_bound x 5 ltac:(lia)).
    assert (x mod 10 = 1 \/ x mod 10 = 3 \/ x mod 10 = 7 \/ x mod 10 = 9)%Z as Hc by lia.
    destruct Hc as [-> | [-> | [-> | ->]]]; reflexivity. }
  induction j as [|j IH].
  - apply Z.divide_1_r_nonneg; [lia | done].
  - apply IH. rewrite Nat2Z.inj_succ, Z.pow_succ_r in Hd by lia.
    apply (Z.gauss _ 10); [done | done].
Qed.

Lemma decimal_scale_divide d e : decimal_scale d = Some e -> (Zpos d | 10 ^ Z.of_nat e)%Z.
Proof.
  unfold decimal_scale. pose proof (twos_spec d) as [Hd _].
  destruct (twos d) as [a r]. pose proof (fives_spec (Pos.size_nat r) r) as [Hr _].
  destruct (fives (Pos.size_nat r) r) as [b r']. cbn [fst snd] in *.
  destruct (Pos.eqb_spec r' 1) as [->|]; [|done]. intros [= <-].
  exists (2 ^ Z.of_nat (Nat.max a b - a) * 5 ^ Z.of_nat (Nat.max a b - b))%Z.
  rewrite Hd, Hr. change 10%Z with (2 * 5)%Z. rewrite Z.pow_mul_l.
  rewrite <- (Nat.sub_add a (Nat.max a b)) at 1 by lia.
  rewrite <- (Nat.sub_add b (Nat.max a b)) at 2 by lia.
  rewrite !Nat2Z.inj_add, !Z.pow_add_r by lia. ring.
Qed.

Lemma decimal_scale_complete d j : (Zpos d | 10 ^ Z.of_nat j)%Z -> is_Some (decimal_scale d).
Proof.
  intros Hdiv. unfold decimal_scale. pose proof (twos_spec d) as [Hd Ho].
  destruct (twos d) as [a r]. cbn [fst snd] in *.
  pose proof (fives_spec (Pos.size_nat r) r) as [Hr H5].
  specialize (H5 (pos_lt_5_size r)).
  destruct (fives (Pos.size_nat r) r) as [b r']. cbn [fst snd] in *.
  assert (Zpos r' = 1%Z) as [= ->]; [|by eexists].
  apply (divide_pow10_coprime _ j); [lia | | done |].
  - rewrite Hr, Z.odd_mul in Ho. by apply andb_true_iff in Ho as [_ Ho].
  - eapply Z.divide_trans; [|exact Hdiv]. rewrite Hd, Hr. exists (2 ^ Z.of_nat a * 5 ^ Z.of_nat b)%Z. ring.
Qed.

(** ** Step 5: the digits and the exponent *)

Lemma Qpow10_shift (a b t e : Z) (d : positive) :
  (0 <= t)%Z -> (0 <= e)%Z -> (a * 10 ^ t * Zpos d = b * 10 ^ e)%Z ->
  inject_Z a * 10 ^ (t - e) == b # d.
Proof.
  intros Ht He H. rewrite Qpower_minus by discriminate.
  rewrite <- !(Zpower_Qpower 10) by done. rewrite Qmake_Qdiv.
  assert (Hq : inject_Z a * inject_Z (10 ^ t) * inject_Z (Zpos d) == inject_Z b * inject_Z (10 ^ e))
    by (rewrite <- !inject_Z_mult, H; reflexivity).
  assert (~ inject_Z (10 ^ e) == 0)
    by (rewrite Zpower_Qpower by done; by apply Qpower_not_0).
  field_simplify_eq; [|done]. rewrite Hq. ring.
Qed.

(** What [shortest_decimal] computes: the digits of an [s > 0] that is
    not a multiple of 10, and [n] with [s * 10^(n-k)] the value. *)
Lemma shortest_decimal_spec p d ds n :
  shortest_decimal p d = Some (ds, n) ->
  exists s, ds = decimal_digits s /\ (0 < s)%N /\ (s mod 10 <> 0)%N /\
    inject_Z (Z.of_N s) * 10 ^ (n - Z.of_nat (length ds)) == Zpos p # d.
Proof.
  unfold shortest_decimal. destruct (decimal_scale d) as [e|] eqn:He; [|done].
  apply decimal_scale_divide in He as [c Hc].
  assert (Hc0 : (0 < c)%Z).
  { assert (0 < 10 ^ Z.of_nat e)%Z by (apply Z.pow_pos_nonneg; lia). nia. }
  assert (Hdiv : Z.of_N (10 ^ N.of_nat e / Npos d) = c).
  { rewrite N2Z.inj_div, N2Z.inj_pow, nat_N_Z. cbn [Z.of_N]. rewrite Hc. by apply Z.div_mul. }
  set (m := (Npos p * (10 ^ N.of_nat e / Npos d))%N).
  assert (Hm : (0 < m)%N) by (subst m; lia).
  pose proof (strip_zeros_spec (N.to_nat (N.size m)) m 0) as Hsp.
  pose proof (strip_zeros_last (N.to_nat (N.size m)) m 0 Hm) as Hl.
  destruct (strip_zeros (N.to_nat (N.size m)) m 0) as [s t]. cbn [fst] in Hl.
  rewrite N2Nat.id in Hl. destruct (Hl (N.size_gt m)) as [Hs0 Hs10].
  intros [= <- <-]. exists s. do 3 (split; [done|]). destruct Hsp as [Hsp _].
  replace (_ - _)%Z with (Z.of_nat t - Z.of_nat e)%Z by lia.
  apply Qpow10_shift; [lia | lia |].
  apply (f_equal Z.of_N) in Hsp. rewrite !N2Z.inj_mul, !N2Z.inj_pow, !nat_N_Z in Hsp.
  subst m. rewrite N2Z.inj_mul, Hdiv in Hsp. cbn [Z.of_N] in Hsp.
  rewrite Hc, <- Hsp. cbn. lia.
Qed.

(** Two decimal forms of one value: the one with the larger exponent is
    the other with trailing zeros dropped. *)
Lemma decimal_cancel (s s' a a' : Z) :
  inject_Z s * 10 ^ a == inject_Z s' * 10 ^ a' -> (a' <= a)%Z -> (s * 10 ^ (a - a'))%Z = s'.
Proof.
  intros H Ha. apply inject_Z_injective. rewrite inject_Z_mult, Zpower_Qpower by lia.
  apply (Qmult_inj_r _ _ (10 ^ a')); [by apply Qpower_not_0|].
  rewrite <- Qmult_assoc, <- Qpower_plus by discriminate.
  by replace (a - a' + a')%Z with a by lia.
Qed.

Lemma mul_pow10_mod (s j : Z) : (1 <= j)%Z -> ((s * 10 ^ j) mod 10 = 0)%Z.
Proof.
  intros Hj. replace j with (Z.succ (j - 1)) by lia. rewrite Z.pow_succ_r by lia.
  replace (s * (10 * 10 ^ (j - 1)))%Z with (s * 10 ^ (j - 1) * 10)%Z by ring.
  apply Z.mod_mul. lia.
Qed.

(** Number::toString, step 5, as the standard states it for a value
    [x > 0]: [k >= 1], [10^(k-1) <= s < 10^k] and [s * 10^(n-k)] is [x];
    the standard then takes [k] as small as possible. *)
Definition step5 (x : Q) (s k n : Z) : Prop :=
  (1 <= k)%Z /\ (10 ^ (k - 1) <= s < 10 ^ k)%Z /\ inject_Z s * 10 ^ (n - k) == x.

(** A form whose [s] is not a multiple of 10 has the least [k], and is
    the only form with that [k]. *)
Lemma step5_least x s k n :
  step5 x s k n -> (s mod 10 <> 0)%Z ->
  forall s' k' n', step5 x s' k' n' -> (k <= k')%Z /\ (k' = k -> s' = s /\ n' = n).
Proof.
  intros (Hk & Hs & Hx) H10 s' k' n' (Hk' & Hs' & Hx').
  rewrite <- Hx' in Hx.
  destruct (Z.le_gt_cases (n' - k') (n - k)) as [Hle|Hgt].
  - pose proof (decimal_cancel _ _ _ _ Hx Hle) as Hc.
    assert (0 < 10 ^ (n - k - (n' - k')))%Z by (apply Z.pow_pos_nonneg; lia).
    assert (Hlt : (10 ^ (k - 1) < 10 ^ k')%Z) by nia.
    apply Z.pow_lt_mono_r_iff in Hlt; [|lia|lia]. split; [lia|]. intros ->.
    destruct (Z.eq_dec (n - k - (n' - k))%Z 0%Z) as [E|E].
    + rewrite E, Z.mul_1_r in Hc. split; [done | lia].
    + exfalso. assert (10 <= 10 ^ (n - k - (n' - k)))%Z.
      { rewrite <- (Z.pow_1_r 10) at 1. apply Z.pow_le_mono_r; lia. }
      replace k with (Z.succ (k - 1)) in Hs' by lia. rewrite Z.pow_succ_r in Hs' by lia. nia.
  - symmetry in Hx. pose proof (decimal_cancel _ _ _ _ Hx ltac:(lia)) as Hc.
    exfalso. apply H10. rewrite <- Hc. apply mul_pow10_mod. lia.
Qed.

(** C34: [shortest_decimal] refines Number::toString's step 5: its
    digits and exponent meet the conditions of the standard with the least
    [k], and they are the only ones with that [k]. *)
Theorem shortest_decimal_step5 p d ds n :
  shortest_decimal p d = Some (ds, n) ->
  step5 (Zpos p # d) (digits_value 10 ds) (Z.of_nat (length ds)) n /\
  forall s' k' n', step5 (Zpos p # d) s' k' n' ->
    (Z.of_nat (length ds) <= k')%Z /\ (k' = Z.of_nat (length ds) -> s' = digits_value 10 ds /\ n' = n).
Proof.
  intros (s & -> & Hs0 & Hs10 & Hv)%shortest_decimal_spec.
  destruct (decimal_digits_spec s) as (Hds & Hf & Hne). rewrite Hds.
  assert (H5 : step5 (Zpos p # d) (Z.of_N s) (Z.of_nat (length (decimal_digits s))) n).
  { split; [destruct (decimal_digits s); [done | cbn; lia]|]. split; [|done].
    split; [by apply decimal_digits_lower|]. rewrite <- Hds. by apply digits_value_bounds. }
  split; [done|]. apply step5_least; [done|]. intros Hm. apply Hs10, N2Z.inj. rewrite N2Z.inj_mod. exact Hm.
Qed.

(** ** The text of Number::toString reads back as the value *)

Lemma parse_digits_chars ds :
  ds <> [] -> Forall (fun d => d < 10)%nat ds -> parse_digits 10 (map digit_char ds) = Some ds.
Proof.
  intros Hne Hds. unfold parse_digits.
  rewrite <- (app_nil_r (map digit_char ds)), span_digits_chars by done. by destruct ds.
Qed.

Lemma digit_chars_nows ds :
  Forall (fun d => d < 10)%nat ds -> Forall (fun c => is_str_whitespace c = false) (map digit_char ds).
Proof. intros Hds. apply Forall_map. eapply Forall_impl; [done|]. apply digit_char_not_ws. Qed.

Lemma parse_exponent_text e : parse_exponent (exponent_text e) = Some e.
Proof.
  destruct (decimal_digits_spec (Z.to_N (Z.abs e))) as (Hv & Hf & Hne).
  unfold exponent_text. cbn [parse_exponent Ascii.eqb Bool.eqb orb].
  destruct (Z.ltb_spec 0 e); cbn [parse_signed_integer]; rewrite parse_digits_chars by done;
    cbn [option_map]; rewrite Hv; f_equal; lia.
Qed.

Lemma exponent_text_nows e : Forall (fun c => is_str_whitespace c = false) (exponent_text e).
Proof.
  destruct (decimal_digits_spec (Z.to_N (Z.abs e))) as (_ & Hf & _).
  unfold exponent_text. repeat constructor; [by destruct (0 <? e)%Z|]. by apply digit_chars_nows.
Qed.

(** The two forms of [m * 10^j] in [Q]. *)
Lemma inject_Z_pow10 m j : (0 <= j)%Z -> inject_Z (m * 10 ^ j) == inject_Z m * 10 ^ j.
Proof. intros Hj. rewrite inject_Z_mult, Zpower_Qpower by done. reflexivity. Qed.

Lemma Qmake_pow10 m j : (j < 0)%Z -> m # Z.to_pos (10 ^ (- j)) == inject_Z m * 10 ^ j.
Proof.
  intros Hj. rewrite Qmake_Qdiv, Z2Pos.id by (apply Z.pow_pos_nonneg; lia).
  rewrite Zpower_Qpower by lia. change (inject_Z 10) with 10%Q.
  rewrite Qpower_opp. unfold Qdiv. by rewrite Qinv_involutive.
Qed.

Lemma decimal_value_Q int frac e :
  decimal_value int frac e ==
    inject_Z (digits_value 10 (int ++ frac)) * 10 ^ (e - Z.of_nat (length frac)).
Proof.
  unfold decimal_value. destruct (Z.leb_spec 0 (e - Z.of_nat (length frac))).
  - by apply inject_Z_pow10.
  - apply Qmake_pow10. lia.
Qed.

Lemma decimal_shift x j a :
  (0 <= j)%Z -> inject_Z (x * 10 ^ j) * 10 ^ a == inject_Z x * 10 ^ (a + j).
Proof.
  intros Hj. rewrite inject_Z_mult, Zpower_Qpower by done. change (inject_Z 10) with 10%Q.
  rewrite <- Qmult_assoc, <- Qpower_plus by discriminate. by rewrite Z.add_comm.
Qed.

(** A text that reads as [v]: a literal [int.frac] with an optional
    exponent part. *)
Definition decimal_literal (t : list ascii) (v : Q) : Prop :=
  exists int frac ex e, t = decimal_text int frac ex /\ int <> [] /\
    Forall (fun d => d < 10)%nat int /\ Forall (fun d => d < 10)%nat frac /\
    Forall (fun c => is_str_whitespace c = false) ex /\
    (ex = [] \/ exists r, ex = "e"%char :: r) /\ parse_exponent ex = Some e /\
    decimal_value int frac e == v.

Lemma decimal_literal_reads t v :
  decimal_literal t v ->
  string_to_number (string_of_list_ascii t) ≡ Fin v /\
  string_to_number (string_of_list_ascii ("-"%char :: t)) ≡ Fin (- v).
Proof.
  intros (int & frac & ex & e & -> & Hne & Hi & Hf & Hws & Hex & He & Hv).
  destruct (string_to_number_decimal_text int frac ex e) as [-> ->]; [done..|].
  cbn. by rewrite Hv.
Qed.

(** Closes [x * 10^a == x * 10^b] when [a = b] by arithmetic. *)
Ltac pow10_eq :=
  match goal with
  | |- ?x * 10 ^ ?a == ?x * 10 ^ ?b =>
      replace a with b by (rewrite ?length_app, ?repeat_length; cbn [length]; lia); reflexivity
  end.

Lemma Forall_repeat0 j : Forall (fun d => d < 10)%nat (repeat 0%nat j).
Proof. induction j; constructor; [lia | done]. Qed.

Section Steps.
Context (ds : list nat) (n : Z).
Hypothesis Hne : ds <> [].
Hypothesis Hds : Forall (fun d => d < 10)%nat ds.
Let v : Q := inject_Z (digits_value 10 ds) * 10 ^ (n - Z.of_nat (length ds)).

(** Step 6: the digits and [n - k] zeros. *)
Lemma literal_step6 :
  (Z.of_nat (length ds) <= n)%Z ->
  decimal_literal (map digit_char (ds ++ repeat 0%nat (Z.to_nat (n - Z.of_nat (length ds))))) v.
Proof.
  intros Hk. exists (ds ++ repeat 0%nat (Z.to_nat (n - Z.of_nat (length ds)))), [], [], 0%Z.
  split; [by unfold decimal_text; rewrite !app_nil_r|].
  split; [by destruct ds|]. split; [apply Forall_app; split; [done | apply Forall_repeat0]|].
  do 3 (split; [by auto|]). split; [done|].
  unfold v. rewrite decimal_value_Q, app_nil_r, digits_value_app, digits_value_repeat0, Z.add_0_r.
  rewrite decimal_shift by lia. pow10_eq.
Qed.

(** Step 7: a point after the first [n] digits. *)
Lemma literal_step7 :
  (0 < n < Z.of_nat (length ds))%Z ->
  decimal_literal (map digit_char (take (Z.to_nat n) ds) ++ "."%char ::
    map digit_char (drop (Z.to_nat n) ds)) v.
Proof.
  intros Hn. exists (take (Z.to_nat n) ds), (drop (Z.to_nat n) ds), [], 0%Z.
  destruct (drop (Z.to_nat n) ds) as [|f fr] eqn:Hdrop.
  { apply (f_equal length) in Hdrop. rewrite length_drop in Hdrop. cbn in Hdrop. lia. }
  split; [by unfold decimal_text; rewrite app_nil_r|].
  split; [intros Ht; apply (f_equal length) in Ht; rewrite length_take in Ht; cbn in Ht; lia|].
  rewrite <- Hdrop. split; [by apply Forall_take|]. split; [by apply Forall_drop|].
  do 2 (split; [by auto|]). split; [done|].
  unfold v. rewrite decimal_value_Q, take_drop, length_drop. pow10_eq.
Qed.

(** Step 8: [0.], [-n] zeros and the digits. *)
Lemma literal_step8 :
  (n <= 0)%Z ->
  decimal_literal ("0"%char :: "."%char :: map digit_char (repeat 0%nat (Z.to_nat (- n)) ++ ds)) v.
Proof.
  intros Hn. exists [0%nat], (repeat 0%nat (Z.to_nat (- n)) ++ ds), [], 0%Z.
  destruct (repeat 0%nat (Z.to_nat (- n)) ++ ds) as [|f fr] eqn:Hfr.
  { apply (f_equal length) in Hfr. rewrite length_app in Hfr. destruct ds; [done | cbn in Hfr; lia]. }
  split; [by unfold decimal_text; rewrite app_nil_r|]. split; [done|].
  split; [repeat constructor; lia|]. rewrite <- Hfr.
  split; [apply Forall_app; split; [apply Forall_repeat0 | done]|].
  do 2 (split; [by auto|]). split; [done|].
  unfold v. rewrite decimal_value_Q, !digits_value_app, digits_value_repeat0.
  change (digits_value 10 [0%nat]) with 0%Z. rewrite !Z.mul_0_l, !Z.add_0_l. pow10_eq.
Qed.

(** Steps 9 and 10: the first digit, the others after a point, and the
    exponent [n - 1]. *)
Lemma literal_step9 d rest :
  ds = d :: rest ->
  decimal_literal
    (match rest with
     | [] => digit_char d :: exponent_text (n - 1)
     | _ => digit_char d :: "."%char :: map digit_char rest ++ exponent_text (n - 1)
     end) v.
Proof.
  intros ->. inversion Hds as [|? ? Hd Hrest]; subst.
  exists [d], rest, (exponent_text (n - 1)), (n - 1)%Z.
  split; [by destruct rest|]. do 3 (split; [by auto|]).
  split; [apply exponent_text_nows|]. split; [by right; eexists|].
  split; [apply parse_exponent_text|].
  unfold v. rewrite decimal_value_Q. cbn [app]. pow10_eq.
Qed.

End Steps.

(** Each of steps 6 to 10 writes a literal of the value [s * 10^(n-k)]. *)
Lemma format_decimal_literal ds n :
  ds <> [] -> Forall (fun d => d < 10)%nat ds ->
  decimal_literal (format_decimal ds n)
    (inject_Z (digits_value 10 ds) * 10 ^ (n - Z.of_nat (length ds))).
Proof.
  intros Hne Hds. unfold format_decimal.
  destruct ((_ <=? n)%Z && (n <=? 21)%Z) eqn:E6;
    [apply literal_step6; [done..| apply andb_true_iff in E6 as [?%Z.leb_le _]; lia]|].
  destruct ((0 <? n)%Z && (n <=? 21)%Z) eqn:E7.
  { apply literal_step7; [done..|]. apply andb_true_iff in E7 as [?%Z.ltb_lt ?%Z.leb_le].
    apply andb_false_iff in E6 as [?%Z.leb_gt|?%Z.leb_gt]; lia. }
  destruct ((-6 <? n)%Z && (n <=? 0)%Z) eqn:E8.
  { apply literal_step8; [done..|]. apply andb_true_iff in E8 as [_ ?%Z.leb_le]. lia. }
  destruct ds as [|d rest]; [done|]. destruct rest as [|r rest];
    [exact (literal_step9 _ _ Hne Hds d [] eq_refl) | exact (literal_step9 _ _ Hne Hds d (r :: rest) eq_refl)].
Qed.

#[export] Instance decimal_literal_proper : Proper (eq ==> Qeq ==> iff) decimal_literal.
Proof.
  intros t ? <- v w Hvw. unfold decimal_literal.
  by setoid_rewrite Hvw.
Qed.

(** The text printed for the positive value [p/d] is a literal of it. *)
Lemma shortest_decimal_literal p d ds n :
  shortest_decimal p d = Some (ds, n) -> decimal_literal (format_decimal ds n) (Zpos p # d).
Proof.
  intros (s & -> & _ & _ & Hv)%shortest_decimal_spec.
  destruct (decimal_digits_spec s) as (Hds & Hf & Hne).
  rewrite <- Hv, <- Hds. by apply format_decimal_literal.
Qed.

Lemma Qred_inject_Z (z : Z) : Qred (inject_Z z) = inject_Z z.
Proof.
  unfold Qred, inject_Z.
  pose proof (Z.ggcd_gcd z 1) as Hg. pose proof (Z.ggcd_correct_divisors z 1) as Hd.
  destruct (Z.ggcd z 1) as [g [aa bb]]. cbn in Hg, Hd. rewrite Z.gcd_1_r in Hg. subst g.
  destruct Hd as [Ha Hb]. replace aa with z by lia. replace bb with 1%Z by lia. reflexivity.
Qed.

(** Number::toString depends on the value only. *)
#[export] Instance number_to_string_proper : Proper ((≡) ==> eq) number_to_string.
Proof.
  intros [| | |a] [| | |b]; cbn; try done; [|by intros ->..].
  intros H. unfold number_to_string. by rewrite (Qred_complete a b H).
Qed.

(** An integer below 10^21 is step 6's case: its digits. *)
Lemma shortest_decimal_int p :
  (Zpos p < 10 ^ 21)%Z ->
  exists ds n, shortest_decimal p 1 = Some (ds, n) /\
    format_decimal ds n = map digit_char (decimal_digits (Npos p)).
Proof.
  intros Hp. unfold shortest_decimal.
  replace (decimal_scale 1) with (Some 0%nat) by reflexivity.
  replace (Npos p * (10 ^ N.of_nat 0 / 1))%N with (Npos p) by (by rewrite N.pow_0_r, N.div_1_r, N.mul_1_r).
  pose proof (strip_zeros_spec (N.to_nat (N.size (Npos p))) (Npos p) 0) as Hsp.
  pose proof (strip_zeros_last (N.to_nat (N.size (Npos p))) (Npos p) 0) as Hl.
  destruct (strip_zeros _ (Npos p) 0) as [s t]. cbn [fst] in Hl. destruct Hsp as [Hsp _].
  rewrite N2Nat.id in Hl. destruct (Hl ltac:(lia) (N.size_gt _)) as [Hs0 _].
  do 2 eexists. split; [reflexivity|]. cbn in Hsp. rewrite N.mul_1_r in Hsp.
  rewrite Hsp, decimal_digits_zeros by done. unfold format_decimal.
  assert (Hlen : (length (decimal_digits s ++ repeat 0%nat t) <= 21)%nat).
  { rewrite <- decimal_digits_zeros, <- Hsp by done. apply decimal_digits_length; [|lia].
    apply N2Z.inj_lt. rewrite N2Z.inj_pow. cbn. lia. }
  rewrite length_app, repeat_length in Hlen.
  replace ((_ <=? _)%Z && (_ <=? 21)%Z) with true by (symmetry; apply andb_true_iff; split; apply Z.leb_le; lia).
  do 3 f_equal. lia.
Qed.

(** An integer up to 2^53 prints as its decimal digits, with a minus sign
    when negative. *)
Lemma number_to_string_int (z : Z) :
  (Z.abs z <= 2 ^ 53)%Z -> number_to_string (Fin (inject_Z z)) = Some (decimal_string z).
Proof.
  intros Hz. unfold number_to_string. rewrite Qred_inject_Z. cbn [Qnum Qden inject_Z].
  replace (Z.abs z <=? 2 ^ 53)%Z with true by (symmetry; by apply Z.leb_le).
  destruct z as [|p|p]; [reflexivity| |];
    (destruct (shortest_decimal_int p) as (ds & n & -> & Hf); [lia|]); cbn -[format_decimal];
    rewrite Hf; reflexivity.
Qed.

(** ** The values Number::toString is modelled on *)

Lemma Qred_den_divide q : (Zpos (Qden (Qred q)) | Zpos (Qden q))%Z.
Proof.
  destruct q as [a b]. unfold Qred. cbn [Qnum Qden].
  pose proof (Z.ggcd_gcd a (Zpos b)) as Hg. pose proof (Z.ggcd_correct_divisors a (Zpos b)) as Hd.
  destruct (Z.ggcd a (Zpos b)) as [g [r1 r2]]. cbn [fst snd] in *. destruct Hd as [_ Hb].
  pose proof (Z.gcd_nonneg a (Zpos b)). cbn [Qden].
  assert (0 < r2)%Z by nia. rewrite Z2Pos.id by done. exists g. lia.
Qed.

(** [m * 10^e] as a fraction whose denominator is a power of ten. *)
Lemma decimal_fraction m e :
  exists M D, M # D == inject_Z m * 10 ^ e /\ (Zpos D | 10 ^ Z.of_nat (Z.to_nat (Z.abs e)))%Z /\
    Z.sgn M = Z.sgn m.
Proof.
  assert (Hp : forall j, (0 < 10 ^ j)%Z \/ (j < 0)%Z).
  { intros j. destruct (Z.leb_spec 0 j); [left; by apply Z.pow_pos_nonneg | by right]. }
  destruct (Z.leb_spec 0 e).
  - exists (m * 10 ^ e)%Z, 1%positive. split; [by apply inject_Z_pow10|].
    split; [apply Z.divide_1_l|]. rewrite Z.sgn_mul, (Z.sgn_pos (10 ^ e)) by (apply Z.pow_pos_nonneg; lia). lia.
  - exists m, (Z.to_pos (10 ^ (- e))). split; [by apply Qmake_pow10|]. split; [|done].
    rewrite Z2Pos.id by (apply Z.pow_pos_nonneg; lia). rewrite Z2Nat.id by lia.
    by rewrite Z.abs_neq by lia.
Qed.

(** A value [a * 10^e] with [0 < a < 10^15] and [|e| <= 290] has at most
    15 significant digits and a normal magnitude. *)
Lemma shortest_decimal_bounds p d ds n (a e : Z) :
  shortest_decimal p d = Some (ds, n) -> Zpos p # d == inject_Z a * 10 ^ e ->
  (0 < a < 10 ^ 15)%Z -> (-290 <= e <= 290)%Z ->
  (length ds <= 15)%nat /\ (-306 <= n <= 308)%Z.
Proof.
  intros (s & -> & Hs0 & Hs10 & Hv)%shortest_decimal_spec Hq Ha He.
  rewrite Hq in Hv. pose proof (decimal_digits_lower s Hs0) as Hlow.
  assert (Hk1 : (1 <= Z.of_nat (length (decimal_digits s)))%Z).
  { destruct (decimal_digits_spec s) as (_ & _ & Hne). destruct (decimal_digits s); [done | cbn; lia]. }
  set (k := Z.of_nat (length (decimal_digits s))) in *.
  destruct (Z.le_gt_cases e (n - k)) as [Hle|Hgt].
  - pose proof (decimal_cancel _ _ _ _ Hv Hle) as Hc.
    assert (Hlt : (10 ^ (k - 1 + (n - k - e)) < 10 ^ 15)%Z).
    { rewrite Z.pow_add_r by lia. assert (0 < 10 ^ (n - k - e))%Z by (apply Z.pow_pos_nonneg; lia). nia. }
    apply Z.pow_lt_mono_r_iff in Hlt; [|lia|lia]. lia.
  - symmetry in Hv. pose proof (decimal_cancel _ _ _ _ Hv ltac:(lia)) as Hc.
    exfalso. apply Hs10, N2Z.inj. rewrite N2Z.inj_mod, <- Hc. apply mul_pow10_mod. lia.
Qed.

Lemma shortest_decimal_some p d :
  is_Some (decimal_scale d) -> exists ds n, shortest_decimal p d = Some (ds, n).
Proof.
  intros [e He]. unfold shortest_decimal. rewrite He.
  destruct (strip_zeros _ _ _). by do 2 eexists.
Qed.

#[export] Instance step5_proper : Proper (Qeq ==> eq ==> eq ==> eq ==> iff) step5.
Proof. intros x y Hxy s ? <- k ? <- n ? <-. unfold step5. by rewrite Hxy. Qed.

(** For [a * 10^e] with [0 < a < 10^15] and [|e| <= 290], the digits
    [shortest_decimal] finds are printed, and they are step 5's. *)
Lemma shortest_decimal_printed p d ds n (a e : Z) :
  shortest_decimal p d = Some (ds, n) -> Zpos p # d == inject_Z a * 10 ^ e ->
  (0 < a < 10 ^ 15)%Z -> (-290 <= e <= 290)%Z ->
  (length ds <=? 15)%nat && (-306 <=? n)%Z && (n <=? 308)%Z = true /\
  step5 (inject_Z a * 10 ^ e) (digits_value 10 ds) (Z.of_nat (length ds)) n /\
  forall s' k' n', step5 (inject_Z a * 10 ^ e) s' k' n' -> (Z.of_nat (length ds) <= k')%Z.
Proof.
  intros Hs Hq Ha He. destruct (shortest_decimal_bounds p d ds n a e Hs Hq Ha He) as [Hk Hn].
  destruct (shortest_decimal_step5 p d ds n Hs) as [H5 Hleast]. rewrite Hq in H5.
  split; [apply andb_true_iff; split; [apply andb_true_iff; split|]; [by apply Nat.leb_le | by apply Z.leb_le; lia ..]|].
  split; [done|]. intros s' k' n' H. apply (Hleast s' k' n'). by rewrite Hq.
Qed.

(** C33: Number::toString on every nonzero value [m * 10^e] with [|m| <
    10^15] and [|e| <= 290] (every count such a CSV file can hold) is the
    text of steps 6 to 10, after a minus sign when [m < 0], on the digits
    and exponent of step 5: [k] digits [s] with [10^(k-1) <= s < 10^k],
    [s * 10^(n-k) = |m| * 10^e] and [k] the least possible. *)
Theorem number_to_string_decimal (m e : Z) :
  m <> 0%Z -> (Z.abs m < 10 ^ 15)%Z -> (-290 <= e <= 290)%Z ->
  exists ds n,
    number_to_string (Fin (inject_Z m * 10 ^ e)) =
      Some (string_of_list_ascii ((if (m <? 0)%Z then ["-"%char] else []) ++ format_decimal ds n)) /\
    step5 (inject_Z (Z.abs m) * 10 ^ e) (digits_value 10 ds) (Z.of_nat (length ds)) n /\
    forall s' k' n', step5 (inject_Z (Z.abs m) * 10 ^ e) s' k' n' -> (Z.of_nat (length ds) <= k')%Z.
Proof.
  intros Hm0 Hm He. destruct (decimal_fraction m e) as (M & D & HMD & Hdiv & Hsgn).
  rewrite (number_to_string_proper _ (Fin (M # D))) by (symmetry; exact HMD).
  unfold number_to_string. pose proof (Qred_correct (M # D)) as Hq.
  pose proof (Qred_den_divide (M # D)) as Hden.
  destruct (Qred (M # D)) as [num den]. cbn [Qnum Qden] in *.
  pose proof (decimal_scale_complete den _ (Z.divide_trans _ _ _ Hden Hdiv)) as Hsc.
  assert (Hcross := Hq). unfold Qeq in Hcross. cbn [Qnum Qden] in Hcross.
  destruct num as [|p|p].
  { exfalso. assert (M = 0%Z) as -> by nia. destruct m; cbn in Hsgn; congruence. }
  all: destruct (shortest_decimal_some p den Hsc) as (ds & n & Hs); rewrite Hs; exists ds, n.
  - assert (0 < m)%Z by (destruct m; cbn in Hsgn; destruct M; cbn in Hsgn; lia).
    replace (Z.abs m) with m by lia. replace (m <? 0)%Z with false by (symmetry; apply Z.ltb_ge; lia).
    destruct (shortest_decimal_printed p den ds n m e Hs) as (Hb & H5 & Hl); [by rewrite Hq | lia | done |].
    rewrite Hb, orb_true_r. by split.
  - assert (m < 0)%Z by (destruct m; cbn in Hsgn; destruct M; cbn in Hsgn; lia).
    replace (Z.abs m) with (- m)%Z by lia. replace (m <? 0)%Z with true by (symmetry; by apply Z.ltb_lt).
    destruct (shortest_decimal_printed p den ds n (- m) e Hs) as (Hb & H5 & Hl); [|lia|done|].
    { change (Zpos p # den) with (- (Zneg p # den)). rewrite Hq, HMD, inject_Z_opp. ring. }
    rewrite Hb, orb_true_r. by split.
Qed.


(** C32: round trip: every text Number::toString prints (for NaN, the
    infinities, zero and the finite values it is modelled on) reads back,
    by StringToNumber, as the same value; so a bar's label reads back as
    the bar's count. *)
Theorem number_to_string_roundtrip (x : number) (t : string) :
  number_to_string x = Some t -> string_to_number t ≡ x.
Proof.
  destruct x as [| | |q]; cbn [number_to_string]; [by intros [= <-]..|].
  pose proof (Qred_correct q) as Hq. destruct (Qred q) as [num den]. cbn [Qnum Qden].
  destruct num as [|p|p].
  - intros [= <-]. rewrite <- Hq. vm_compute. reflexivity.
  - destruct (shortest_decimal p den) as [[ds n]|] eqn:Hs; [|done].
    case_match; [|done]. intros [= <-]. rewrite <- Hq.
    exact (proj1 (decimal_literal_reads _ _ (shortest_decimal_literal _ _ _ _ Hs))).
  - destruct (shortest_decimal p den) as [[ds n]|] eqn:Hs; [|done].
    case_match; [|done]. intros [= <-]. rewrite <- Hq.
    exact (proj2 (decimal_literal_reads _ _ (shortest_decimal_literal _ _ _ _ Hs))).
Qed.

Lemma number_to_string_roundtrip_witness :
  string_to_number "12.5" ≡ Fin (25 # 2).
Proof. apply number_to_string_roundtrip. vm_compute. reflexivity. Defined.

Lemma number_to_string_decimal_witness :
  exists ds n,
    number_to_string (Fin (inject_Z (-125) * 10 ^ (-1))) =
      Some (string_of_list_ascii ((if (-125 <? 0)%Z then ["-"%char] else []) ++ format_decimal ds n)) /\
    step5 (inject_Z (Z.abs (-125)) * 10 ^ (-1)) (digits_value 10 ds) (Z.of_nat (length ds)) n /\
    forall s' k' n', step5 (inject_Z (Z.abs (-125)) * 10 ^ (-1)) s' k' n' -> (Z.of_nat (length ds) <= k')%Z.
Proof. apply number_to_string_decimal; lia. Defined.

Lemma shortest_decimal_step5_witness :
  step5 (25 # 2) (digits_value 10 [1; 2; 5]%nat) (Z.of_nat (length [1; 2; 5]%nat)) 2 /\
  forall s' k' n', step5 (25 # 2) s' k' n' ->
    (Z.of_nat (length [1; 2; 5]%nat) <= k')%Z /\
    (k' = Z.of_nat (length [1; 2; 5]%nat) -> s' = digits_value 10 [1; 2; 5]%nat /\ n' = 2%Z).
Proof. apply shortest_decimal_step5. vm_compute. reflexivity. Defined.
