(* ===== verification/Svg.v ===== *)
(** * The SVG tree the script builds

    d3 selections append elements to the page's DOM (lines 22-122).  This
    file models that DOM as a tree of [node]s.  Each node has:
    - its tag;
    - its attributes, in the order they were first set;
    - its inline styles;
    - its text content;
    - its children, in document order.

    The operations d3 applies are modelled too:
    - [selection.attr(name, value)], which replaces an attribute in place
      or adds it, and removes it for [undefined] ([opt_attr]);
    - [selection.style];
    - [selection.selectAll(tag)] followed by [.attr] or [.style] on the
      selected descendants ([update_desc]).

    A numeric attribute keeps its Number; the browser writes it with
    Number::toString.  A [translate(x,y)] transform and a path's [d]
    attribute are kept as their numbers for the same reason.  Those
    strings are built by d3-axis from fractional positions, which
    [NumberFormat] does not print. *)

From S2P Require Import Prelude JsNumber.
From stdpp Require Import strings.

Module Svg.

(** A segment of a path's [d] attribute: [M x,y], [H x] or [V y]. *)
Inductive path_seg : Type :=
| PM (x y : number)
| PH (x : number)
| PV (y : number).

(** An attribute value. *)
Inductive attr : Type :=
| ANum (n : number)
| AStr (s : string)
| ATranslate (x y : number)
| APath (segs : list path_seg).

Inductive node : Type :=
| Node (tag : string) (attrs : list (string * attr)) (styles : list (string * string))
       (text : option string) (children : list node).

Definition el_tag (e : node) : string := let '(Node t _ _ _ _) := e in t.
Definition el_attrs (e : node) : list (string * attr) := let '(Node _ a _ _ _) := e in a.
Definition el_styles (e : node) : list (string * string) := let '(Node _ _ s _ _) := e in s.
Definition el_text (e : node) : option string := let '(Node _ _ _ x _) := e in x.
Definition el_children (e : node) : list node := let '(Node _ _ _ _ cs) := e in cs.

(** A leaf element, as [selection.append(tag)] followed by its [.attr],
    [.style] and [.text] calls. *)
Definition leaf (tag : string) (attrs : list (string * attr)) (styles : list (string * string))
    (text : option string) : node :=
  Node tag attrs styles text [].

(** [selection.attr(name, f)] where [f] may return [undefined]: the
    attribute is set, or absent. *)
Definition opt_attr (name : string) (v : option number) : list (string * attr) :=
  match v with Some n => [(name, ANum n)] | None => [] end.

(** [element.setAttribute(name, v)]: an attribute already present keeps
    its place and takes the new value; a new one goes last. *)
Fixpoint set_attr (name : string) (v : attr) (attrs : list (string * attr)) :
    list (string * attr) :=
  match attrs with
  | [] => [(name, v)]
  | (k, w) :: r => if bool_decide (k = name) then (k, v) :: r else (k, w) :: set_attr name v r
  end.

(** [element.style.setProperty(name, v)], the same way. *)
Fixpoint set_style (name v : string) (styles : list (string * string)) : list (string * string) :=
  match styles with
  | [] => [(name, v)]
  | (k, w) :: r => if bool_decide (k = name) then (k, v) :: r else (k, w) :: set_style name v r
  end.

Definition node_set_attr (name : string) (v : attr) (e : node) : node :=
  let '(Node t a s x cs) := e in Node t (set_attr name v a) s x cs.

Definition node_set_style (name v : string) (e : node) : node :=
  let '(Node t a s x cs) := e in Node t a (set_style name v s) x cs.

(** [selection.selectAll(tag)] then an update [f] on what it selects: the
    descendants of the node with that tag (not the node itself). *)
Fixpoint update_desc (tag : string) (f : node -> node) (e : node) : node :=
  let '(Node t a s x cs) := e in
  Node t a s x
    (map (fun c => let c' := update_desc tag f c in
                   if bool_decide (el_tag c = tag) then f c' else c') cs).

(** Every node of a tree, the root first, in document order. *)
Fixpoint all_nodes (e : node) : list node :=
  let '(Node _ _ _ _ cs) := e in
  e :: (fix go (l : list node) : list node :=
          match l with [] => [] | c :: r => all_nodes c ++ go r end) cs.

(** [element.getAttribute(name)] on the modelled attributes. *)
Definition attr_value (name : string) (e : node) : option attr :=
  snd <$> List.find (fun p => bool_decide (p.1 = name)) (el_attrs e).

Definition has_tag (tag : string) (e : node) : bool := bool_decide (el_tag e = tag).

End Svg.

Export Svg.

(** The tags of a tree's nodes, in document order. *)
Definition tags (e : node) : list string := map el_tag (all_nodes e).

(** ** Induction on trees, and what updates keep *)

Lemma node_ind' (P : node -> Prop) :
  (forall t a s x cs, Forall P cs -> P (Node t a s x cs)) -> forall n, P n.
Proof.
  intros H. fix IH 1. intros [t a s x cs]. apply H.
  induction cs as [|c cs IHcs]; constructor; [apply IH | apply IHcs].
Qed.

Lemma all_nodes_eq t a s x cs :
  all_nodes (Node t a s x cs) = Node t a s x cs :: concat (map all_nodes cs).
Proof. cbn [all_nodes]. f_equal. induction cs as [|c cs IH]; [done|]. cbn. by rewrite IH. Qed.

Lemma tags_eq t a s x cs : tags (Node t a s x cs) = t :: concat (map tags cs).
Proof.
  unfold tags. rewrite all_nodes_eq. cbn [map]. f_equal.
  rewrite concat_map, map_map. done.
Qed.

Lemma tags_set_attr name v e : tags (node_set_attr name v e) = tags e.
Proof. destruct e. cbn [node_set_attr node_set_style]. by rewrite !tags_eq. Qed.

Lemma tags_set_style name v e : tags (node_set_style name v e) = tags e.
Proof. destruct e. cbn [node_set_attr node_set_style]. by rewrite !tags_eq. Qed.

(** [selectAll(tag)] with an update that keeps the tags of a subtree
    keeps the tags of the whole tree. *)
Lemma tags_update_desc tag f e :
  (forall n, tags (f n) = tags n) -> tags (update_desc tag f e) = tags e.
Proof.
  intros Hf. induction e as [t a s x cs IH] using node_ind'. cbn [update_desc].
  rewrite !tags_eq. f_equal. f_equal. rewrite map_map. apply map_ext_Forall.
  eapply Forall_impl; [exact IH|]. intros c Hc. cbv beta zeta.
  by destruct (bool_decide _); rewrite ?Hf, Hc.
Qed.

Lemma filter_has_tag r e :
  length (List.filter (has_tag r) (all_nodes e)) =
    length (List.filter (fun t => bool_decide (t = r)) (tags e)).
Proof.
  unfold tags. generalize (all_nodes e). induction l as [|n l IH]; [done|].
  cbn [List.filter map]. change (has_tag r n) with (bool_decide (el_tag n = r)).
  destruct (bool_decide _); cbn [length]; by rewrite IH.
Qed.

#[export] Hint Rewrite tags_set_attr tags_set_style : viz_rw.
