(* ===== verification/StableSort.v ===== *)
(** * [Array.prototype.sort] with a comparator

    Line 9 of the script calls [data.sort(function(a, b) { return b.Count -
    a.Count; })].  ECMAScript (SortIndexedProperties and SortCompare) fixes
    what the call must produce when the comparator is *consistent* on the
    array's elements: a permutation of the input that is sorted (for [i < j]
    the comparison of the [i]-th and [j]-th elements is not positive) and
    stable (elements the comparator calls equal keep their input order).
    When the comparator is not consistent, the order is implementation
    defined.

    This file holds, for an arbitrary comparator returning a Number:
    - SortCompare ([sort_compare]) and the consistency conditions;
    - the abstract specification [stable_sort_of] and the theorem that it
      determines the result ([stable_sort_unique]);
    - two model engines, a linear [insertion_sort] and a top-down
      [merge_sort], both proved to meet the specification.  They are not
      the code of a browser (V8 runs TimSort): they show that the interface
      can be met, and on an inconsistent comparator they, like real
      engines, may order differently;
    - the interface [SortEngine] that the script's model uses, with both
      engines as instances. *)

From S2P Require Import Prelude JsNumber.
From Equations Require Import Equations.

Section Sort.
Context {A : Type} (comparefn : A -> A -> number).

(** SortCompare for a user comparator: its result with NaN read as +0. *)
Definition sort_compare (x y : A) : comparison := sort_sign (comparefn x y).

(** [x] may precede [y] in a sorted result. *)
Definition sc_le (x y : A) : Prop := sort_compare x y <> Gt.

(** [x] and [y] are equal for the comparator. *)
Definition sc_eqv (x y : A) : bool :=
  match sort_compare x y with Eq => true | _ => false end.

(** The element [x] goes in front of the first element it is strictly
    below, that is after every element it is not below. *)
Fixpoint insert (x : A) (l : list A) : list A :=
  match l with
  | [] => [x]
  | y :: ys =>
      match sort_compare x y with
      | Lt => x :: y :: ys
      | _ => y :: insert x ys
      end
  end.

Definition insertion_sort (l : list A) : list A :=
  fold_left (fun acc x => insert x acc) l [].

(** Merging takes from the right run only when the left head compares
    greater, which keeps the merge stable. *)
Fixpoint merge (l1 : list A) : list A -> list A :=
  fix merge_aux (l2 : list A) : list A :=
  match l1, l2 with
  | [], _ => l2
  | _, [] => l1
  | x :: xs, y :: ys =>
      match sort_compare x y with
      | Gt => y :: merge_aux ys
      | _ => x :: merge xs l2
      end
  end.

Lemma merge_cons_cons x xs y ys :
  merge (x :: xs) (y :: ys) =
    match sort_compare x y with
    | Gt => y :: merge (x :: xs) ys
    | _ => x :: merge xs (y :: ys)
    end.
Proof. reflexivity. Qed.

(** The split point of a run of length [n]. *)
Definition half (n : nat) : nat := n / 2.
#[local] Arguments half : simpl never.

Equations? merge_sort (l : list A) : list A by wf (length l) lt :=
  merge_sort [] := [];
  merge_sort [x] := [x];
  merge_sort (x :: y :: l) :=
    merge (merge_sort (take (half (length (x :: y :: l))) (x :: y :: l)))
          (merge_sort (drop (half (length (x :: y :: l))) (x :: y :: l))).
Proof.
  all: rewrite ?length_take, ?length_drop; unfold half; cbn [length].
  all: pose proof (Nat.div_lt (S (S (length l))) 2);
    pose proof (Nat.div_str_pos (S (S (length l))) 2); lia.
Qed.

(** A comparator is consistent on the values satisfying [P] (ECMAScript's
    "consistent comparator"): antisymmetric and transitive. *)
Record consistent (P : A -> Prop) : Prop := {
  consistent_antisym : forall a b, P a -> P b ->
    sort_compare b a = CompOpp (sort_compare a b);
  consistent_trans : forall a b c, P a -> P b -> P c ->
    sc_le a b -> sc_le b c -> sc_le a c
}.

(** The abstract specification: [l'] is sorted pairwise, a permutation of
    [l], and for every element [z] of [l] the elements equal to [z] come
    in the order they have in [l]. *)
Definition stable_sort_of (l l' : list A) : Prop :=
  StronglySorted sc_le l' /\ l' ≡ₚ l /\
  forall z, z ∈ l -> List.filter (sc_eqv z) l' = List.filter (sc_eqv z) l.

End Sort.

(** ** Consequences of consistency *)

Section Consistent.
Context {A : Type} (comparefn : A -> A -> number) (P : A -> Prop).
Hypothesis Hcons : consistent comparefn P.

#[local] Abbreviation sc := (sort_compare comparefn).
#[local] Abbreviation le := (sc_le comparefn).
#[local] Abbreviation eqv := (sc_eqv comparefn).

Lemma sc_opp a b : P a -> P b -> sc b a = CompOpp (sc a b).
Proof. apply Hcons. Qed.

Lemma sc_refl a : P a -> sc a a = Eq.
Proof.
  intros Ha. pose proof (sc_opp a a Ha Ha) as H.
  destruct (sc a a); simpl in H; congruence.
Qed.

Lemma le_trans a b c : P a -> P b -> P c -> le a b -> le b c -> le a c.
Proof. apply Hcons. Qed.

Lemma eqv_true a b : eqv a b = true <-> sc a b = Eq.
Proof. unfold sc_eqv. destruct (sc a b); intuition congruence. Qed.

Lemma le_of_not_lt a b : P a -> P b -> sc a b <> Lt -> le b a.
Proof.
  intros Ha Hb H. unfold sc_le. rewrite (sc_opp a b Ha Hb).
  destruct (sc a b); simpl; congruence.
Qed.

Lemma lt_le_trans a b c :
  P a -> P b -> P c -> sc a b = Lt -> le b c -> sc a c = Lt.
Proof.
  intros Ha Hb Hc Hab Hbc.
  assert (Hac : le a c) by (apply (le_trans a b c); auto; unfold sc_le; congruence).
  destruct (sc a c) eqn:E; [| done | done].
  assert (Hba : le b a).
  { apply (le_trans b c a); auto. apply le_of_not_lt; auto. congruence. }
  unfold sc_le in Hba. rewrite (sc_opp a b Ha Hb), Hab in Hba. done.
Qed.

Lemma eqv_lt_false z x w :
  P z -> P x -> P w -> eqv z x = true -> sc x w = Lt -> eqv z w = false.
Proof.
  rewrite eqv_true. intros Hz Hx Hw Hzx Hxw.
  destruct (eqv z w) eqn:E; [| done]. apply eqv_true in E.
  assert (Hwx : le w x).
  { apply (le_trans w z x); auto; [apply le_of_not_lt | unfold sc_le]; auto; congruence. }
  unfold sc_le in Hwx. rewrite (sc_opp x w Hx Hw), Hxw in Hwx. done.
Qed.

(** No element strictly above a member of [z]'s class is in the class. *)
Lemma filter_eqv_above z x L :
  P z -> P x -> Forall P L -> eqv z x = true ->
  Forall (fun w => sc x w = Lt) L -> List.filter (eqv z) L = [].
Proof.
  intros Hz Hx HL Hzx Hlt. apply filter_nil_Forall.
  apply Forall_forall. intros w Hw.
  rewrite Forall_forall in HL, Hlt.
  apply (eqv_lt_false z x w); auto.
Qed.

Lemma sorted_above x y ys :
  P x -> Forall P (y :: ys) -> sc x y = Lt -> StronglySorted le (y :: ys) ->
  Forall (fun w => sc x w = Lt) (y :: ys).
Proof.
  intros Hx HP Hxy [_ Hys]%StronglySorted_inv.
  inversion HP as [|? ? Hy HPys]; subst.
  constructor; [done|]. rewrite Forall_forall in Hys, HPys |- *.
  intros w Hw. apply (lt_le_trans x y w); auto.
Qed.

End Consistent.

#[export] Hint Resolve sc_refl sc_opp : viz.

(** The specification from its three parts, the class condition asked of
    the elements satisfying [P]. *)
Lemma stable_sort_of_intro {A} (comparefn : A -> A -> number) (P : A -> Prop) l l' :
  Forall P l -> StronglySorted (sc_le comparefn) l' -> l' ≡ₚ l ->
  (forall z, P z -> List.filter (sc_eqv comparefn z) l' = List.filter (sc_eqv comparefn z) l) ->
  stable_sort_of comparefn l l'.
Proof.
  intros HP Hs Hp Hf. split; [done|]. split; [done|].
  intros z Hz. apply Hf. rewrite Forall_forall in HP. by apply HP.
Qed.

(** ** The insertion-sort engine *)

Section Insertion.
Context {A : Type} (comparefn : A -> A -> number) (P : A -> Prop).
Hypothesis Hcons : consistent comparefn P.

#[local] Abbreviation sc := (sort_compare comparefn).
#[local] Abbreviation le := (sc_le comparefn).
#[local] Abbreviation eqv := (sc_eqv comparefn).
#[local] Abbreviation ins := (insert comparefn).

Lemma insert_perm x l : ins x l ≡ₚ x :: l.
Proof.
  induction l as [|y ys IH]; simpl; [done|].
  destruct (sc x y); [| done |]; rewrite IH; constructor.
Qed.

Lemma insert_sorted x l :
  P x -> Forall P l -> StronglySorted le l -> StronglySorted le (ins x l).
Proof.
  intros Hx. induction l as [|y ys IH]; intros HP Hs; simpl.
  { repeat constructor. }
  inversion HP as [|? ? Hy HPys]; subst.
  apply StronglySorted_inv in Hs as [Hsys Hys].
  destruct (sc x y) eqn:E.
  - constructor; [by apply IH|]. rewrite insert_perm.
    constructor; [apply (le_of_not_lt comparefn P Hcons); auto; congruence | done].
  - constructor; [by constructor|].
    eapply Forall_impl.
    + apply (sorted_above comparefn P Hcons x y ys); auto. by constructor.
    + intros w Hw. unfold sc_le. congruence.
  - constructor; [by apply IH|]. rewrite insert_perm.
    constructor; [apply (le_of_not_lt comparefn P Hcons); auto; congruence | done].
Qed.

Lemma insert_filter x l z :
  P z -> P x -> Forall P l -> StronglySorted le l ->
  List.filter (eqv z) (ins x l) =
    List.filter (eqv z) l ++ (if eqv z x then [x] else []).
Proof.
  intros Hz Hx. induction l as [|y ys IH]; intros HP Hs; [done|].
  inversion HP as [|? ? Hy HPys]; subst.
  pose proof Hs as [Hsys _]%StronglySorted_inv.
  cbn [insert]. destruct (sc x y) eqn:E.
  - cbn [List.filter]. destruct (eqv z y); rewrite IH; auto.
  - destruct (eqv z x) eqn:Ezx.
    + rewrite filter_cons_true by done.
      rewrite (filter_eqv_above comparefn P Hcons z x (y :: ys)); auto.
      apply (sorted_above comparefn P Hcons); auto.
    + rewrite filter_cons_false by done. by rewrite app_nil_r.
  - cbn [List.filter]. destruct (eqv z y); rewrite IH; auto.
Qed.

Lemma insertion_fold_spec l acc :
  Forall P l -> Forall P acc -> StronglySorted le acc ->
  let r := fold_left (fun acc x => ins x acc) l acc in
  StronglySorted le r /\ r ≡ₚ acc ++ l /\
  forall z, P z -> List.filter (eqv z) r = List.filter (eqv z) (acc ++ l).
Proof.
  revert acc. induction l as [|x l IH]; intros acc HP Hacc Hs; simpl.
  { rewrite app_nil_r. done. }
  inversion HP as [|? ? Hx HPl]; subst.
  destruct (IH (ins x acc)) as (Hs' & Hperm & Hfil); auto.
  { rewrite insert_perm. by constructor. }
  { by apply insert_sorted. }
  split; [done|]. split.
  - rewrite Hperm, insert_perm. by rewrite <- Permutation_middle.
  - intros z Hz. rewrite Hfil by done.
    rewrite List.filter_app, insert_filter by auto.
    replace (acc ++ x :: l) with ((acc ++ [x]) ++ l) by by rewrite <- app_assoc.
    rewrite !List.filter_app. cbn [List.filter]. by destruct (eqv z x).
Qed.

Lemma insertion_sort_spec l :
  Forall P l ->
  StronglySorted le (insertion_sort comparefn l) /\ insertion_sort comparefn l ≡ₚ l /\
  forall z, P z ->
    List.filter (eqv z) (insertion_sort comparefn l) = List.filter (eqv z) l.
Proof. intros HP. apply (insertion_fold_spec l []); [done | apply List.Forall_nil | constructor]. Qed.

(** the insertion-sort engine implements the specification: for a
    comparator consistent on the elements, its result is a strongly
    sorted, stable permutation of the input. *)
Theorem insertion_sort_stable l :
  Forall P l -> stable_sort_of comparefn l (insertion_sort comparefn l).
Proof.
  intros HP. destruct (insertion_sort_spec l HP) as (Hs & Hp & Hf).
  by apply (stable_sort_of_intro _ P).
Qed.

End Insertion.

(** ** The merge-sort engine *)

Section Merge.
Context {A : Type} (comparefn : A -> A -> number) (P : A -> Prop).
Hypothesis Hcons : consistent comparefn P.

#[local] Abbreviation sc := (sort_compare comparefn).
#[local] Abbreviation le := (sc_le comparefn).
#[local] Abbreviation eqv := (sc_eqv comparefn).
#[local] Abbreviation mrg := (merge comparefn).

Lemma merge_perm l1 l2 : mrg l1 l2 ≡ₚ l1 ++ l2.
Proof.
  revert l2. induction l1 as [|x xs IH1]; intros l2; [by destruct l2|].
  induction l2 as [|y ys IH2]; [simpl; by rewrite app_nil_r|].
  rewrite merge_cons_cons. destruct (sc x y); try (constructor; apply IH1).
  rewrite IH2. apply Permutation_middle.
Qed.

Lemma Forall_le_trans a b L :
  P a -> P b -> Forall P L -> le a b -> Forall (le b) L -> Forall (le a) L.
Proof.
  intros Ha Hb HL Hab Hb'. rewrite Forall_forall in HL, Hb' |- *.
  intros w Hw. apply (le_trans comparefn P Hcons a b w); auto.
Qed.

Lemma merge_sorted l1 l2 :
  Forall P l1 -> Forall P l2 -> StronglySorted le l1 -> StronglySorted le l2 ->
  StronglySorted le (mrg l1 l2).
Proof.
  revert l2. induction l1 as [|x xs IH1]; intros l2 HP1 HP2 S1 S2; [by destruct l2|].
  induction l2 as [|y ys IH2]; [done|].
  inversion HP1 as [|? ? Hx HPxs]; inversion HP2 as [|? ? Hy HPys]; subst.
  pose proof S1 as [S1' Hxs]%StronglySorted_inv.
  pose proof S2 as [S2' Hys]%StronglySorted_inv.
  rewrite merge_cons_cons. destruct (sc x y) eqn:E.
  1,2: constructor; [by apply IH1|]; rewrite merge_perm;
    apply Forall_app; split; [done|];
    constructor; [unfold sc_le; congruence|];
    apply (Forall_le_trans x y); auto; unfold sc_le; congruence.
  constructor; [by apply IH2|]. rewrite merge_perm.
  assert (Hyx : le y x) by (apply (le_of_not_lt comparefn P Hcons); auto; congruence).
  apply Forall_app; split; [|done].
  constructor; [done|]. by apply (Forall_le_trans y x).
Qed.

Lemma merge_filter z l1 l2 :
  P z -> Forall P l1 -> Forall P l2 -> StronglySorted le l1 -> StronglySorted le l2 ->
  List.filter (eqv z) (mrg l1 l2) = List.filter (eqv z) l1 ++ List.filter (eqv z) l2.
Proof.
  intros Hz. revert l2.
  induction l1 as [|x xs IH1]; intros l2 HP1 HP2 S1 S2; [by destruct l2|].
  induction l2 as [|y ys IH2]; [simpl; by rewrite app_nil_r|].
  inversion HP1 as [|? ? Hx HPxs]; inversion HP2 as [|? ? Hy HPys]; subst.
  pose proof S1 as [S1' _]%StronglySorted_inv.
  pose proof S2 as [S2' _]%StronglySorted_inv.
  rewrite merge_cons_cons. destruct (sc x y) eqn:E.
  1,2: cbn [List.filter]; destruct (eqv z x); rewrite IH1; auto.
  destruct (eqv z y) eqn:Ezy.
  - rewrite !(filter_cons_true _ y), IH2 by auto.
    assert (Hyx : sc y x = Lt) by (rewrite (sc_opp comparefn P Hcons x y), E; auto).
    rewrite (filter_eqv_above comparefn P Hcons z y (x :: xs)); auto.
    by apply (sorted_above comparefn P Hcons).
  - by rewrite !(filter_cons_false _ y), IH2 by auto.
Qed.

Lemma merge_sort_spec l :
  Forall P l ->
  StronglySorted le (merge_sort comparefn l) /\ merge_sort comparefn l ≡ₚ l /\
  forall z, P z ->
    List.filter (eqv z) (merge_sort comparefn l) = List.filter (eqv z) l.
Proof.
  funelim (merge_sort comparefn l); intros HP.
  - repeat split; constructor.
  - repeat split; repeat constructor.
  - set (L := x :: y :: l) in *. set (n := half (length L)) in *.
    destruct (H (Forall_take _ n L HP)) as (Sa & Pa & Fa).
    destruct (H0 (Forall_drop _ n L HP)) as (Sb & Pb & Fb).
    assert (HPa : Forall P (merge_sort comparefn (take n L))) by (rewrite Pa; by apply Forall_take).
    assert (HPb : Forall P (merge_sort comparefn (drop n L))) by (rewrite Pb; by apply Forall_drop).
    split; [by apply merge_sorted|]. split.
    + rewrite merge_perm, Pa, Pb. by rewrite take_drop.
    + intros z Hz. rewrite merge_filter, Fa, Fb by auto.
      by rewrite <- List.filter_app, take_drop.
Qed.

(** The merge-sort engine implements the specification: for a
    comparator consistent on the elements, its result is a strongly
    sorted, stable permutation of the input. *)
Theorem merge_sort_stable l :
  Forall P l -> stable_sort_of comparefn l (merge_sort comparefn l).
Proof.
  intros HP. destruct (merge_sort_spec l HP) as (Hs & Hp & Hf).
  by apply (stable_sort_of_intro _ P).
Qed.

End Merge.

(** ** The specification determines the result *)

Section Unique.
Context {A : Type} (comparefn : A -> A -> number) (P : A -> Prop).
Hypothesis Hcons : consistent comparefn P.

#[local] Abbreviation sc := (sort_compare comparefn).
#[local] Abbreviation le := (sc_le comparefn).
#[local] Abbreviation eqv := (sc_eqv comparefn).

Lemma sorted_head_le b t x :
  P b -> StronglySorted le (b :: t) -> x ∈ b :: t -> le b x.
Proof.
  intros Hb [_ Ht]%StronglySorted_inv [->|Hx]%elem_of_cons.
  - unfold sc_le. by rewrite (sc_refl comparefn P Hcons b Hb).
  - rewrite Forall_forall in Ht. by apply Ht.
Qed.

Lemma sorted_class_unique l1 l2 :
  Forall P l1 -> StronglySorted le l1 -> StronglySorted le l2 -> l1 ≡ₚ l2 ->
  (forall z, z ∈ l1 -> List.filter (eqv z) l1 = List.filter (eqv z) l2) ->
  l1 = l2.
Proof.
  revert l2. induction l1 as [|a t1 IH]; intros l2 HP S1 S2 Hp Hf.
  { by apply Permutation_nil_l in Hp. }
  destruct l2 as [|b t2]; [by apply Permutation_nil_r in Hp|].
  inversion HP as [|? ? Ha HPt]; subst.
  assert (Hb : P b).
  { rewrite Forall_forall in HP. apply HP. rewrite Hp. by left. }
  assert (Hba : le b a) by (apply (sorted_head_le b t2); auto; rewrite <- Hp; by left).
  assert (Hab : le a b) by (apply (sorted_head_le a t1); auto; rewrite Hp; by left).
  assert (Heq : eqv a b = true).
  { apply (eqv_true comparefn). unfold sc_le in *.
    rewrite (sc_opp comparefn P Hcons a b Ha Hb) in Hba.
    destruct (sc a b); simpl in *; congruence. }
  pose proof (Hf a ltac:(by left)) as Ha'.
  rewrite !filter_cons_true in Ha'
    by (done || apply (eqv_true comparefn), (sc_refl comparefn P Hcons a Ha)).
  injection Ha' as <- _.
  f_equal. apply IH; auto.
  - by apply StronglySorted_inv in S1 as [].
  - by apply StronglySorted_inv in S2 as [].
  - by apply Permutation_cons_inv in Hp.
  - intros z Hz. pose proof (Hf z ltac:(by right)) as Hz'. cbn in Hz'.
    destruct (eqv z a); [by injection Hz'|done].
Qed.

(** the specification determines the result: for a comparator
    consistent on the input, two lists that are both strongly sorted,
    stable permutations of it are equal. *)
Theorem stable_sort_unique l l1 l2 :
  Forall P l -> stable_sort_of comparefn l l1 -> stable_sort_of comparefn l l2 ->
  l1 = l2.
Proof.
  intros HP (S1 & P1 & F1) (S2 & P2 & F2).
  apply sorted_class_unique; auto.
  - by rewrite P1.
  - by rewrite P1, P2.
  - intros z Hz. rewrite P1 in Hz. by rewrite F1, F2.
Qed.

End Unique.

(** ** The engine interface

    What the script relies on from the JavaScript engine's sort: the result
    is always a permutation, and for a consistent comparator it meets the
    specification.  The model of the script is proved against this
    interface; the two engines above implement it. *)

Class SortEngine := {
  engine_sort : forall {A : Type}, (A -> A -> number) -> list A -> list A;
  engine_perm : forall {A} (cmp : A -> A -> number) l, engine_sort cmp l ≡ₚ l;
  engine_stable : forall {A} (cmp : A -> A -> number) (P : A -> Prop) l,
    consistent cmp P -> Forall P l -> stable_sort_of cmp l (engine_sort cmp l)
}.

Lemma insertion_sort_perm {A} (cmp : A -> A -> number) l : insertion_sort cmp l ≡ₚ l.
Proof.
  unfold insertion_sort. change l with ([] ++ l) at 2. generalize (@nil A).
  induction l as [|x l IH]; intros acc; simpl; [by rewrite app_nil_r|].
  rewrite IH, (insert_perm cmp). simpl. apply Permutation_middle.
Qed.

Lemma merge_sort_perm {A} (cmp : A -> A -> number) l : merge_sort cmp l ≡ₚ l.
Proof.
  funelim (merge_sort cmp l); [done|done|].
  rewrite merge_perm, H, H0. by rewrite take_drop.
Qed.

#[export] Instance insertion_engine : SortEngine := {|
  engine_sort := @insertion_sort;
  engine_perm := @insertion_sort_perm;
  engine_stable A cmp P l Hc HP :=
    let '(conj Hs (conj Hp Hf)) := insertion_sort_spec cmp P Hc l HP in
    stable_sort_of_intro cmp P l _ HP Hs Hp Hf
|}.

#[export] Instance merge_engine : SortEngine := {|
  engine_sort := @merge_sort;
  engine_perm := @merge_sort_perm;
  engine_stable A cmp P l Hc HP :=
    let '(conj Hs (conj Hp Hf)) := merge_sort_spec cmp P Hc l HP in
    stable_sort_of_intro cmp P l _ HP Hs Hp Hf
|}.

(** Any two engines agree on a consistent comparator. *)
Theorem engines_agree (E1 E2 : SortEngine) {A} (cmp : A -> A -> number) (P : A -> Prop) l :
  consistent cmp P -> Forall P l ->
  @engine_sort E1 A cmp l = @engine_sort E2 A cmp l.
Proof.
  intros Hc HP.
  destruct (engine_stable (SortEngine := E1) cmp P l Hc HP) as (S1 & P1 & F1).
  destruct (engine_stable (SortEngine := E2) cmp P l Hc HP) as (S2 & P2 & F2).
  apply (sorted_class_unique cmp P Hc); auto.
  - by rewrite P1.
  - by rewrite P1, P2.
  - intros z Hz. rewrite P1 in Hz. by rewrite F1, F2.
Qed.

(** ** The descending numeric comparator [(a, b) => b - a] *)

Definition number_desc (a b : number) : number := sub b a.

Lemma number_desc_consistent : consistent number_desc (fun a => is_nan a = false).
Proof.
  split.
  - intros a b Ha Hb. unfold sort_compare, number_desc. rewrite !sort_sign_sub.
    apply num_ord_opp.
  - intros a b c Ha Hb Hc. unfold sc_le, sort_compare, number_desc.
    rewrite !sort_sign_sub. intros Hab Hbc. by apply (num_ord_trans_le c b a).
Qed.

(** ** Witnesses *)

Lemma insertion_sort_stable_witness :
  stable_sort_of number_desc [Fin 5; Fin 10; Fin 5]
    (insertion_sort number_desc [Fin 5; Fin 10; Fin 5]).
Proof.
  apply (insertion_sort_stable number_desc (fun a => is_nan a = false));
    [apply number_desc_consistent | repeat constructor].
Defined.

Lemma merge_sort_stable_witness :
  stable_sort_of number_desc [Fin 5; Fin 10; Fin 5]
    (merge_sort number_desc [Fin 5; Fin 10; Fin 5]).
Proof.
  apply (merge_sort_stable number_desc (fun a => is_nan a = false));
    [apply number_desc_consistent | repeat constructor].
Defined.

Lemma desc_5_10_spec : stable_sort_of number_desc [Fin 5; Fin 10] [Fin 10; Fin 5].
Proof.
  split; [|split].
  - repeat constructor; unfold sc_le; vm_compute; discriminate.
  - apply perm_swap.
  - intros z Hz. apply elem_of_cons in Hz as [->|Hz]; [vm_compute; reflexivity|].
    apply elem_of_cons in Hz as [->|Hz]; [vm_compute; reflexivity|].
    by apply elem_of_nil in Hz.
Qed.

Lemma stable_sort_unique_witness : [Fin 10; Fin 5] = [Fin 10; Fin 5].
Proof.
  apply (stable_sort_unique number_desc (fun a => is_nan a = false) number_desc_consistent
           [Fin 5; Fin 10]); [repeat constructor | apply desc_5_10_spec | apply desc_5_10_spec].
Defined.
