(* ===== verification/ArraySlice.v ===== *)
(** * [Array.prototype.slice]

    Line 14 of the script takes [data.slice(0, 10)].  ECMAScript's slice
    turns each argument into a position by counting from the end when it is
    negative and clamping it to [0, length]; the result holds the elements
    from the first position up to (not including) the second, and is empty
    when the second is not after the first.  Integer arguments are modelled
    (the script passes the literals 0 and 10). *)

From S2P Require Import Prelude.

Module ArraySlice.

(** The clamping of a relative index, as in steps 4-5 and 7-8 of the
    algorithm. *)
Definition relative_index (rel len : Z) : Z :=
  if (rel <? 0)%Z then Z.max (len + rel) 0 else Z.min rel len.

Definition js_slice {A} (start end_ : Z) (l : list A) : list A :=
  let len := Z.of_nat (length l) in
  let k := relative_index start len in
  let final := relative_index end_ len in
  take (Z.to_nat (final - k)) (drop (Z.to_nat k) l).

End ArraySlice.

Export ArraySlice.

(** Slicing from 0 to a non-negative [n] keeps the first [n] elements. *)
Lemma js_slice_0 {A} (n : Z) (l : list A) :
  (0 <= n)%Z -> js_slice 0 n l = take (Z.to_nat n) l.
Proof.
  intros Hn. unfold js_slice.
  replace (relative_index 0 _) with 0%Z by (unfold relative_index; simpl; lia).
  unfold relative_index. destruct (Z.ltb_spec n 0); [lia|].
  rewrite drop_0, Z.sub_0_r.
  destruct (Z.le_ge_cases n (Z.of_nat (length l))).
  - by rewrite Z.min_l.
  - rewrite Z.min_r by done. rewrite !take_ge by lia. done.
Qed.

(** The length of a slice is the distance between the clamped
    positions, and never negative. *)
Theorem js_slice_length {A} (start end_ : Z) (l : list A) :
  length (js_slice start end_ l) =
    Z.to_nat (relative_index end_ (Z.of_nat (length l)) -
              relative_index start (Z.of_nat (length l))).
Proof.
  unfold js_slice, relative_index. rewrite length_take, length_drop.
  destruct (Z.ltb_spec start 0), (Z.ltb_spec end_ 0); lia.
Qed.
