(* ===== verification/TopReasons.v ===== *)
(** * Lines 2-14: from the CSV rows to the ten most frequent reasons

    The callback of [d3.csv] coerces every row's [Count] to a Number
    (lines 4-6), sorts the array in place by count, largest first (lines
    9-11), and keeps its first ten elements (line 14).  The model threads the
    array through these three steps; the sort is the engine's, taken from
    the [SortEngine] interface, so every theorem holds for any engine that
    implements ECMAScript's sort.

    Theorems: the length of the selection, its order, that it holds the
    largest counts, that ties keep the file's order, that the result does
    not depend on the engine, the scenario of the specification, and, when
    a count is NaN, that engines may disagree. *)

From S2P Require Import Prelude JsNumber StringToNumber JsValue StableSort ArraySlice.
From stdpp Require Import gmap strings.

Module TopReasons.

(** Line 5: [d.Count = +d.Count]. *)
Definition coerce_row (d : gmap string jsval) : gmap string jsval :=
  <["Count" := JNumber (to_number (get d "Count"))]> d.

(** Lines 4-6: [data.forEach(...)] updates every row in place. *)
Definition coerce (data : list (gmap string jsval)) : list (gmap string jsval) :=
  map coerce_row data.

(** Lines 9-11: the comparator [b.Count - a.Count]. *)
Definition compare_count (a b : gmap string jsval) : number :=
  sub (to_number (get b "Count")) (to_number (get a "Count")).

(** The numeric value of a row's [Count]. *)
Definition count_of (d : gmap string jsval) : number := to_number (get d "Count").

Section WithEngine.
Context `{SortEngine}.

(** Lines 9-11: [data.sort(...)], after the coercion. *)
Definition sorted_rows (data : list (gmap string jsval)) : list (gmap string jsval) :=
  engine_sort compare_count (coerce data).

(** Line 14: [var topReasons = data.slice(0, 10)]. *)
Definition top_reasons (data : list (gmap string jsval)) : list (gmap string jsval) :=
  js_slice 0 10 (sorted_rows data).
End WithEngine.

End TopReasons.

Export TopReasons.

(** Inputs of the specification's scenarios, as [d3.csv] builds them from a
    file with header [reason,Count]. *)
Module Samples.
Definition row (reason count : string) : gmap string jsval :=
  csv_row ["reason"; "Count"] [reason; count].

(** Scenario 6 of the specification. *)
Definition scenario : list (gmap string jsval) :=
  [row "Pothole" "50"; row "Noise" "120"; row "Trash" "80"].

(** Counts below 10. *)
Definition small : list (gmap string jsval) := [row "A" "5"; row "B" "3"].

(** Scenario 8: a count that does not read as a number. *)
Definition with_nan : list (gmap string jsval) :=
  [row "A" "5"; row "B" "N/A"; row "C" "10"].
End Samples.

(** ** The comparator is consistent on rows whose count is not NaN *)

Definition count_ok (d : gmap string jsval) : Prop := is_nan (count_of d) = false.

Lemma count_of_coerce d : count_of (coerce_row d) = count_of d.
Proof. unfold count_of, coerce_row. by rewrite get_insert_eq. Qed.

Lemma coerce_count_ok data : Forall count_ok data -> Forall count_ok (coerce data).
Proof.
  intros HP. apply Forall_fmap. eapply Forall_impl; [done|].
  intros d. unfold count_ok. simpl. by rewrite count_of_coerce.
Qed.

Lemma compare_count_sign a b :
  sort_compare compare_count a b = ord (count_of b) (count_of a).
Proof. apply sort_sign_sub. Qed.

Lemma compare_count_consistent : consistent compare_count count_ok.
Proof.
  split.
  - intros a b Ha Hb. rewrite !compare_count_sign by done. apply num_ord_opp.
  - intros a b c Ha Hb Hc. unfold sc_le. rewrite !compare_count_sign by done.
    intros Hab Hbc. by apply (num_ord_trans_le _ (count_of b)).
Qed.

Lemma sc_le_greater_eq a b :
  count_ok a -> count_ok b ->
  sc_le compare_count a b <-> greater_eq (count_of a) (count_of b) = true.
Proof.
  intros Ha Hb. unfold sc_le. rewrite compare_count_sign, greater_eq_ord by done.
  rewrite (num_ord_opp (count_of a)). by destruct (ord (count_of a) (count_of b)).
Qed.

(** A computable check of [Forall count_ok], for concrete inputs. *)
Lemma count_ok_check data :
  forallb (fun d => negb (is_nan (count_of d))) data = true -> Forall count_ok data.
Proof.
  intros H. apply Forall_forall. intros d Hd. apply forallb_forall with (x := d) in H.
  - unfold count_ok. by destruct (is_nan (count_of d)).
  - by apply list_elem_of_In.
Qed.

Ltac count_ok_by_compute := apply count_ok_check; vm_compute; reflexivity.

Section Properties.
Context `{E : SortEngine}.

Lemma sorted_rows_spec data :
  Forall count_ok data ->
  stable_sort_of compare_count (coerce data) (sorted_rows data).
Proof.
  intros HP. apply (engine_stable _ count_ok); [apply compare_count_consistent|].
  by apply coerce_count_ok.
Qed.

Lemma top_reasons_take data : top_reasons data = take 10 (sorted_rows data).
Proof. unfold top_reasons. by rewrite js_slice_0 by lia. Qed.

(** C1: the selection has [min(10, m)] rows for [m] rows of input,
    whatever the counts are. *)
Theorem top_reasons_length data :
  length (top_reasons data) = Nat.min 10 (length data).
Proof.
  rewrite top_reasons_take, length_take. unfold sorted_rows, coerce.
  by rewrite (Permutation_length (engine_perm _ _)), length_map.
Qed.

(** C2: when every count reads as a number, the selection is in
    descending order of count: each row's count is [>=] the count of
    every row after it. *)
Theorem top_reasons_sorted data :
  Forall count_ok data ->
  StronglySorted (fun a b => greater_eq (count_of a) (count_of b) = true)
    (top_reasons data).
Proof.
  intros HP. destruct (sorted_rows_spec data HP) as (Hs & Hp & _).
  rewrite top_reasons_take. apply (StronglySorted_impl_Forall count_ok (sc_le compare_count)).
  - apply Forall_take. rewrite Hp. by apply coerce_count_ok.
  - intros a b Ha Hb. by apply sc_le_greater_eq.
  - by apply StronglySorted_take.
Qed.

(** C3: the selection holds the largest counts: together with the rows
    left out it is a permutation of the (coerced) input, and each selected
    count is [>=] each count left out. *)
Theorem top_reasons_dominates data :
  Forall count_ok data ->
  exists rest, top_reasons data ++ rest ≡ₚ coerce data /\
    forall x y, x ∈ top_reasons data -> y ∈ rest ->
      greater_eq (count_of x) (count_of y) = true.
Proof.
  intros HP. destruct (sorted_rows_spec data HP) as (Hs & Hp & _).
  pose proof (coerce_count_ok data HP) as HPc. rewrite <- Hp in HPc.
  exists (drop 10 (sorted_rows data)). rewrite top_reasons_take, take_drop.
  split; [done|]. intros x y Hx Hy.
  rewrite <- (take_drop 10 (sorted_rows data)) in Hs, HPc.
  apply Forall_app in HPc as [Hx' Hy'].
  rewrite Forall_forall in Hx', Hy'.
  apply sc_le_greater_eq; auto.
  by apply (stdpp.sorting.StronglySorted_app_1_elem_of _ _ _ _ _ Hs).
Qed.

(** C4: ties keep the order of the file: among the rows whose count
    equals that of a row [z], the selected ones are the first of them in
    input order. *)
Theorem top_reasons_stable data z :
  Forall count_ok data -> z ∈ coerce data ->
  List.filter (sc_eqv compare_count z) (top_reasons data) `prefix_of`
    List.filter (sc_eqv compare_count z) (coerce data).
Proof.
  intros HP Hz. destruct (sorted_rows_spec data HP) as (_ & _ & Hf).
  rewrite top_reasons_take, <- (Hf z Hz).
  apply filter_prefix, prefix_take.
Qed.

(** C7: type: whatever the file holds, every row the chart is drawn from
    has a Number in [Count] (line 5 ran on it) and agrees on every other
    property with a row of the file. *)
Theorem top_reasons_typed data :
  Forall (fun d => (exists n, get d "Count" = JNumber n) /\
                   exists d0, d0 ∈ data /\ forall k, k <> "Count" -> get d k = get d0 k)
    (top_reasons data).
Proof.
  rewrite top_reasons_take. apply Forall_take. unfold sorted_rows. rewrite (engine_perm _ _).
  unfold coerce. rewrite Forall_map. apply Forall_forall. intros d0 Hd0. unfold coerce_row. split.
  - eexists. apply get_insert_eq.
  - exists d0. split; [done|]. intros k Hk. by apply get_insert_ne.
Qed.

End Properties.

(** C5: two engines that implement ECMAScript's sort select the same rows
    when every count reads as a number. *)
Theorem top_reasons_engine_independent (E1 E2 : SortEngine) data :
  Forall count_ok data -> @top_reasons E1 data = @top_reasons E2 data.
Proof.
  intros HP. unfold top_reasons, sorted_rows. f_equal.
  apply (engines_agree E1 E2 compare_count count_ok);
    [apply compare_count_consistent | by apply coerce_count_ok].
Qed.

(** When every count reads as a number, every engine sorts as the
    insertion engine. *)
Lemma sorted_rows_insertion (E : SortEngine) data :
  Forall count_ok data -> sorted_rows data = @sorted_rows insertion_engine data.
Proof.
  intros HP. apply (engines_agree E insertion_engine compare_count count_ok);
    [apply compare_count_consistent | by apply coerce_count_ok].
Qed.

Lemma scenario_sorted_rows (E : SortEngine) :
  sorted_rows Samples.scenario = @sorted_rows insertion_engine Samples.scenario.
Proof. apply sorted_rows_insertion. count_ok_by_compute. Qed.

(** Scenario 6 of the specification: on the rows Pothole 50, Noise 120
    and Trash 80, every engine selects Noise, Trash, Pothole, with their
    counts coerced to numbers. *)
Theorem top_reasons_scenario (E : SortEngine) :
  top_reasons Samples.scenario =
    map coerce_row [Samples.row "Noise" "120"; Samples.row "Trash" "80";
                    Samples.row "Pothole" "50"].
Proof. unfold top_reasons. rewrite scenario_sorted_rows. vm_compute. reflexivity. Qed.

Lemma ord_nan_r x y : is_nan y = true -> ord x y = Eq.
Proof. destruct x, y; done. Qed.

Lemma ord_nan_l x y : is_nan x = true -> ord x y = Eq.
Proof. destruct x, y; done. Qed.

(** C6: with a NaN count the script's comparator [b.Count - a.Count] is
    not a consistent comparator: a row whose count is NaN compares equal
    to every row, so rows [a] and [c] with [a.Count < c.Count] may both be
    placed next to it in either order while [a] must follow [c].  Then
    ECMAScript leaves the sort order implementation defined, and the
    position of the NaN row (and which rows reach the top ten) depends on
    the browser. *)
Theorem compare_count_nan_inconsistent (P : gmap string jsval -> Prop) a b c :
  P a -> P b -> P c -> is_nan (count_of b) = true ->
  less_than (count_of a) (count_of c) = true ->
  ~ consistent compare_count P.
Proof.
  intros Ha Hb Hc Hnan Hlt [_ Htr]. apply less_than_ord in Hlt.
  specialize (Htr a b c Ha Hb Hc). unfold sc_le in Htr.
  rewrite !compare_count_sign, ord_nan_l, ord_nan_r, num_ord_opp, Hlt in Htr by done.
  by apply Htr.
Qed.


(** ** Witnesses *)

Lemma top_reasons_sorted_witness :
  StronglySorted (fun a b => greater_eq (count_of a) (count_of b) = true)
    (@top_reasons merge_engine Samples.scenario).
Proof. apply top_reasons_sorted. count_ok_by_compute. Defined.

Lemma top_reasons_dominates_witness :
  exists rest, @top_reasons merge_engine Samples.scenario ++ rest ≡ₚ coerce Samples.scenario /\
    forall x y, x ∈ @top_reasons merge_engine Samples.scenario -> y ∈ rest ->
      greater_eq (count_of x) (count_of y) = true.
Proof. apply top_reasons_dominates. count_ok_by_compute. Defined.

Lemma top_reasons_stable_witness :
  List.filter (sc_eqv compare_count (coerce_row (Samples.row "Noise" "120")))
    (@top_reasons insertion_engine Samples.scenario) `prefix_of`
  List.filter (sc_eqv compare_count (coerce_row (Samples.row "Noise" "120")))
    (coerce Samples.scenario).
Proof.
  apply top_reasons_stable; [count_ok_by_compute|].
  vm_compute. right. left.
Defined.

Lemma top_reasons_engine_independent_witness :
  @top_reasons insertion_engine Samples.scenario = @top_reasons merge_engine Samples.scenario.
Proof. apply top_reasons_engine_independent. count_ok_by_compute. Defined.

Lemma compare_count_nan_inconsistent_witness :
  ~ consistent compare_count (fun d => d ∈ coerce Samples.with_nan).
Proof.
  apply (compare_count_nan_inconsistent _ (coerce_row (Samples.row "A" "5"))
    (coerce_row (Samples.row "B" "N/A")) (coerce_row (Samples.row "C" "10")));
    [vm_compute; by repeat constructor..| vm_compute; reflexivity | vm_compute; reflexivity].
Defined.
