(* ===== verification/D3Scale.v ===== *)
(** * The d3 scales of lines 30-37

    Line 31 computes [d3.max(topReasons, d => d.Count)], lines 30-32 build
    [d3.scaleLinear().domain([0, max]).range([0, width])] and lines 34-37
    [d3.scaleBand().domain(reasons).range([0, height]).padding(0.1)].  The
    definitions follow d3-array's [max], d3-scale's [continuous.js]
    (normalize, bimap, interpolateNumber, the unknown value [undefined])
    and [band.js] (rescale with paddingInner, paddingOuter and align, and
    the ordinal domain that keeps the first occurrence of each value).

    [None] stands for the value [undefined].  The band scale's range is a
    pair of rationals (the script passes the constants [0] and [height]);
    the linear scale's domain and range are Numbers, since [d3.max] may give
    [undefined], read as NaN by the domain. *)

From S2P Require Import Prelude JsNumber StringToNumber JsValue.
From stdpp Require Import strings.
From Stdlib Require Import Qminmax.

Module D3Scale.
Local Open Scope Q_scope.

(** d3-array [max]: skips values that are NaN ([value >= value] fails)
    and keeps the first of equal maxima. *)
Definition max_step (acc : option number) (v : number) : option number :=
  match acc with
  | None => if greater_eq v v then Some v else None
  | Some m => if less_than m v then Some v else Some m
  end.

Definition d3_max (vs : list number) : option number := fold_left max_step vs None.

(** [Number(v)] for [d3.max]'s result when the domain is set. *)
Definition number_of (v : option number) : number := default NaN v.

(** d3-scale [normalize(a, b)]: the position of [x] between [a] and [b];
    a degenerate domain maps everything to 0.5 (NaN if [b - a] is NaN). *)
Definition normalize (a b x : number) : number :=
  let d := sub b a in
  if truthy d then div (sub x a) d
  else if is_nan d then NaN else Fin (1 # 2).

(** d3-interpolate [interpolateNumber(a, b)(t)]: [a * (1 - t) + b * t]. *)
Definition interpolate_number (a b t : number) : number :=
  add (mul a (sub (Fin 1) t)) (mul b t).

Record linear : Type := Linear {
  lin_d0 : number; lin_d1 : number;
  lin_r0 : number; lin_r1 : number
}.

(** The scale function of a two-point linear scale (bimap), with
    [undefined] for a NaN input. *)
Definition linear_apply (s : linear) (x : number) : option number :=
  if is_nan x then None
  else if less_than (lin_d1 s) (lin_d0 s)
  then Some (interpolate_number (lin_r1 s) (lin_r0 s) (normalize (lin_d1 s) (lin_d0 s) x))
  else Some (interpolate_number (lin_r0 s) (lin_r1 s) (normalize (lin_d0 s) (lin_d1 s) x)).

(** SameValueZero on the values a band domain can hold (InternMap keys). *)
Definition same_value_zero (v w : jsval) : bool :=
  match v, w with
  | JUndefined, JUndefined => true
  | JString a, JString b => bool_decide (a = b)
  | JNumber a, JNumber b =>
      match a, b with
      | NaN, NaN | PosInf, PosInf | NegInf, NegInf => true
      | Fin p, Fin q => Qeq_bool p q
      | _, _ => false
      end
  | _, _ => false
  end.

(** The ordinal domain: a value already present is skipped. *)
Definition intern_domain (vs : list jsval) : list jsval :=
  fold_left (fun acc v => if existsb (same_value_zero v) acc then acc else acc ++ [v]) vs [].

Fixpoint index_of (v : jsval) (dom : list jsval) : option nat :=
  match dom with
  | [] => None
  | w :: ws => if same_value_zero v w then Some 0%nat else S <$> index_of v ws
  end.

Record band : Type := Band {
  band_domain : list jsval;
  band_r0 : Q; band_r1 : Q;
  band_inner : Q; band_outer : Q; band_align : Q
}.

(** [scaleBand().domain(vs).range([r0, r1]).padding(p)]: padding sets
    paddingOuter to [p] and paddingInner to [min(1, p)]; align is 0.5. *)
Definition scale_band (vs : list jsval) (r0 r1 p : Q) : band :=
  Band (intern_domain vs) r0 r1 (Qmin 1 p) p (1 # 2).

Definition band_n (b : band) : Q := inject_Z (Z.of_nat (length (band_domain b))).
Definition band_lo (b : band) : Q := Qmin (band_r0 b) (band_r1 b).
Definition band_hi (b : band) : Q := Qmax (band_r0 b) (band_r1 b).

(** rescale(): the step between bands, the first band's start, the
    bandwidth, and the start of each band. *)
Definition band_step (b : band) : Q :=
  (band_hi b - band_lo b) / Qmax 1 (band_n b - band_inner b + band_outer b * 2).

Definition band_start (b : band) : Q :=
  band_lo b + (band_hi b - band_lo b - band_step b * (band_n b - band_inner b)) * band_align b.

Definition bandwidth (b : band) : Q := band_step b * (1 - band_inner b).

Definition band_values (b : band) : list Q :=
  let vs := (fun i => band_start b + band_step b * inject_Z (Z.of_nat i)) <$>
                seq 0 (length (band_domain b)) in
  if Qlt_le_dec (band_r1 b) (band_r0 b) then rev vs else vs.

(** The scale function: the start of the value's band, or [undefined]. *)
Definition band_apply (b : band) (v : jsval) : option Q :=
  i ← index_of v (band_domain b); band_values b !! i.

End D3Scale.

Export D3Scale.

(** ** [d3.max] *)

Lemma max_step_fold vs acc :
  match acc with None => True | Some a => is_nan a = false end ->
  match fold_left max_step vs acc with
  | None => acc = None /\ Forall (fun v => is_nan v = true) vs
  | Some m => is_nan m = false /\ (acc = Some m \/ m ∈ vs) /\
      Forall (fun v => is_nan v = false -> greater_eq m v = true) vs /\
      (forall a, acc = Some a -> greater_eq m a = true)
  end.
Proof.
  revert acc. induction vs as [|v vs IH]; intros acc Hacc; cbn [fold_left].
  { destruct acc as [a|]; [|done]. repeat split; auto.
    intros ? [= <-]. by rewrite greater_eq_self, Hacc. }
  assert (Hstep : match max_step acc v with None => True | Some a => is_nan a = false end).
  { destruct acc as [a|]; cbn.
    - destruct (less_than a v) eqn:E; [|done].
      destruct v; try reflexivity. by destruct a.
    - rewrite greater_eq_self. by destruct v. }
  specialize (IH _ Hstep). destruct (fold_left max_step vs (max_step acc v)) as [m|].
  - destruct IH as (Hm & Hin & Hall & Hacc').
    split; [done|]. split.
    { destruct Hin as [Hin|Hin]; [|right; set_solver].
      destruct acc as [a|]; cbn in Hin.
      - destruct (less_than a v); injection Hin as ->; [right; set_solver | by left].
      - destruct (greater_eq v v); [|done]. injection Hin as ->. right; set_solver. }
    split.
    + constructor; [|done]. intros Hv.
      destruct acc as [a|]; cbn in Hacc'.
      * destruct (less_than a v) eqn:E; [by apply Hacc'|].
        apply (greater_eq_trans _ a); [done | done | done | by apply Hacc' |].
        by apply not_less_than_greater_eq.
      * rewrite greater_eq_self, Hv in Hacc'. by apply Hacc'.
    + intros a ->. cbn in Hacc'. destruct (less_than a v) eqn:E.
      * assert (Hv : is_nan v = false) by (destruct v; try done; by destruct a).
        apply (greater_eq_trans _ v); [done | done | done | by apply Hacc' |].
        by apply less_than_greater_eq.
      * by apply Hacc'.
  - destruct IH as [Hn Hvs]. destruct acc as [a|]; cbn in Hn.
    { by destruct (less_than a v). }
    split; [done|]. constructor; [|done].
    rewrite greater_eq_self in Hn. by destruct v.
Qed.

(** [d3.max] gives [undefined] exactly when every value is NaN, and
    otherwise a value of the list that is [>=] every value that is not
    NaN. *)
Theorem d3_max_spec (vs : list number) :
  (d3_max vs = None <-> Forall (fun v => is_nan v = true) vs) /\
  (forall m, d3_max vs = Some m ->
     m ∈ vs /\ is_nan m = false /\
     forall v, v ∈ vs -> is_nan v = false -> greater_eq m v = true).
Proof.
  pose proof (max_step_fold vs None I) as H. unfold d3_max.
  destruct (fold_left max_step vs None) as [m|].
  - destruct H as (Hm & [?|Hin] & Hall & _); [done|].
    split; [split; [done|] | intros m' [= <-]].
    + intros Hn. rewrite Forall_forall in Hn. specialize (Hn m Hin). congruence.
    + rewrite Forall_forall in Hall. auto.
  - destruct H as [_ Hn]. split; [done|]. done.
Qed.

(** ** Band scales *)

Local Open Scope Q_scope.

Lemma Qmin_left x y : x <= y -> Qmin x y == x.
Proof. apply Q.min_l. Qed.
Lemma Qmax_right x y : x <= y -> Qmax x y == y.
Proof. apply Q.max_r. Qed.
Lemma Qmax_ge_left x y : x <= Qmax x y.
Proof. apply Q.le_max_l. Qed.

Lemma band_values_lookup b i :
  band_r0 b <= band_r1 b -> (i < length (band_domain b))%nat ->
  band_values b !! i = Some (band_start b + band_step b * inject_Z (Z.of_nat i)).
Proof.
  intros Hr Hi. unfold band_values.
  destruct (Qlt_le_dec (band_r1 b) (band_r0 b)); [lra|].
  by rewrite list_lookup_fmap, lookup_seq_lt.
Qed.

Section ScriptBand.
(** The band scale of lines 34-37: range [0, h], padding 0.1. *)
Variables (vs : list jsval) (h : Q).
Hypothesis Hh : 0 <= h.

#[local] Abbreviation b := (scale_band vs 0 h (1 # 10)).
#[local] Abbreviation N := (band_n b).

Lemma band_step_eq : (1 <= N)%Q -> band_step b * (N + (1 # 10)) == h.
Proof.
  intros HN. unfold band_step, band_lo, band_hi; cbn [band_r0 band_r1 band_inner band_outer scale_band].
  rewrite (Qmin_left 0 h), (Qmax_right 0 h) by lra.
  change (Qmin 1 (1 # 10)) with (1 # 10).
  rewrite (Qmax_right 1) by lra.
  field. lra.
Qed.

Lemma band_step_nonneg : 0 <= band_step b.
Proof.
  unfold band_step, band_lo, band_hi; cbn [band_r0 band_r1 band_inner band_outer scale_band].
  apply Qle_shift_div_l.
  - eapply Qlt_le_trans; [|apply Qmax_ge_left]. lra.
  - rewrite Qmult_0_l, (Qmin_left 0 h), (Qmax_right 0 h) by lra. lra.
Qed.

Lemma band_start_eq : (1 <= N)%Q -> band_start b == band_step b * (1 # 10).
Proof.
  intros HN. pose proof (band_step_eq HN) as Hs.
  unfold band_start, band_lo, band_hi; cbn [band_r0 band_r1 band_inner band_outer band_align scale_band].
  rewrite (Qmin_left 0 h), (Qmax_right 0 h) by lra.
  change (Qmin 1 (1 # 10)) with (1 # 10). lra.
Qed.

Lemma bandwidth_eq : bandwidth b == band_step b * (9 # 10).
Proof. unfold bandwidth. cbn [band_inner scale_band]. change (Qmin 1 (1 # 10)) with (1 # 10). ring. Qed.

Lemma band_values_length : length (band_values b) = length (band_domain b).
Proof.
  unfold band_values. destruct (Qlt_le_dec _ _); [rewrite length_rev|];
    by rewrite length_fmap, length_seq.
Qed.

Lemma inject_nat_le (i n : nat) : (i <= n)%nat -> inject_Z (Z.of_nat i) <= inject_Z (Z.of_nat n).
Proof. intros H. rewrite <- Zle_Qle. lia. Qed.

Lemma inject_succ (i : nat) : inject_Z (Z.of_nat (S i)) == inject_Z (Z.of_nat i) + 1.
Proof. rewrite Nat2Z.inj_succ, <- Z.add_1_r, inject_Z_plus. reflexivity. Qed.

(** Every band of the script's scale lies inside [0, h] and ends
    before the next one starts. *)
Theorem band_layout (i : nat) :
  (i < length (band_domain b))%nat ->
  exists v, band_values b !! i = Some v /\ 0 <= v /\ v + bandwidth b <= h /\
    forall v', band_values b !! S i = Some v' -> v + bandwidth b <= v'.
Proof.
  intros Hi.
  assert (HN : 1 <= N).
  { unfold band_n. change 1 with (inject_Z (Z.of_nat 1)). apply inject_nat_le. lia. }
  assert (HI : inject_Z (Z.of_nat i) + 1 <= N).
  { unfold band_n. rewrite <- inject_succ. apply inject_nat_le. lia. }
  assert (HI0 : 0 <= inject_Z (Z.of_nat i)) by (change 0 with (inject_Z (Z.of_nat 0)); apply inject_nat_le; lia).
  pose proof (band_step_eq HN) as Hs. pose proof (band_start_eq HN) as Hst.
  pose proof bandwidth_eq as Hbw. pose proof band_step_nonneg as Hs0.
  exists (band_start b + band_step b * inject_Z (Z.of_nat i)).
  rewrite band_values_lookup; [|cbn [band_r0 band_r1 scale_band]; lra | done].
  pose proof (Qmult_le_0_compat _ _ Hs0 HI0).
  assert (0 <= band_step b * (N + (1 # 10) - (inject_Z (Z.of_nat i) + 1))).
  { apply Qmult_le_0_compat; lra. }
  split; [done|]. split; [lra|]. split; [lra|].
  intros v' Hv'. pose proof (lookup_lt_Some _ _ _ Hv') as Hlt.
  rewrite band_values_length in Hlt.
  rewrite band_values_lookup in Hv'; [|cbn [band_r0 band_r1 scale_band]; lra | done].
  injection Hv' as <-.
  rewrite inject_succ. lra.
Qed.
End ScriptBand.

(** ** Linear scales *)

Lemma Qcompare_gt (q : Q) : 0 < q -> (q ?= 0) = Gt.
Proof. intros H. destruct (Qcompare_spec q 0); try done; lra. Qed.

(** A linear scale from [[0, m]] to [[0, w]] with [m > 0] maps a finite
    [v] to [v * w / m]. *)
Lemma linear_apply_proportional (m w v : Q) :
  0 < m ->
  exists q, linear_apply (Linear (Fin 0) (Fin m) (Fin 0) (Fin w)) (Fin v) = Some (Fin q) /\
    q == v * w / m.
Proof.
  intros Hm. unfold linear_apply, normalize, interpolate_number, less_than.
  cbn [is_nan lin_d0 lin_d1 lin_r0 lin_r1 compare]. rewrite (Qcompare_gt m) by done.
  cbn [sub add neg truthy].
  assert (Hd : Qeq_bool (m + - 0) 0 = false).
  { destruct (Qeq_bool _ _) eqn:E; [apply Qeq_bool_eq in E; lra | done]. }
  rewrite Hd. cbn [negb div]. rewrite (Qcompare_gt (m + - 0)) by lra.
  cbn [mul add sub neg]. eexists. split; [reflexivity|]. field. lra.
Qed.

(** A domain whose upper end is 0 (numerically) is degenerate: d3 maps
    every finite value to the middle of the range. *)
Lemma linear_apply_degenerate (z w v : Q) :
  z == 0 ->
  exists q, linear_apply (Linear (Fin 0) (Fin z) (Fin 0) (Fin w)) (Fin v) = Some (Fin q) /\
    q == w / 2.
Proof.
  intros Hz. unfold linear_apply, normalize, interpolate_number, less_than.
  cbn [is_nan lin_d0 lin_d1 lin_r0 lin_r1 compare].
  assert (Hc : (z ?= 0) = Eq) by (destruct (Qcompare_spec z 0); try done; lra).
  rewrite Hc. cbn [sub add neg truthy].
  assert (Hd : Qeq_bool (z + - 0) 0 = true) by (apply Qeq_bool_iff; lra).
  rewrite Hd. cbn [negb is_nan mul add sub neg]. eexists. split; [reflexivity|]. field.
Qed.

(** A NaN count has no position: the scale returns [undefined]. *)
Lemma linear_apply_nan (s : linear) : linear_apply s NaN = None.
Proof. reflexivity. Qed.

(** ** The ordinal domain *)

(** Values that are not numbers: strings and [undefined], the values
    [d.reason] can have. *)
Definition not_number (v : jsval) : Prop := match v with JNumber _ => False | _ => True end.

Lemma same_value_zero_eq v w :
  not_number v -> not_number w -> same_value_zero v w = true <-> v = w.
Proof.
  destruct v, w; cbn; intros Hv Hw; try done; try (split; congruence).
  rewrite bool_decide_eq_true. split; congruence.
Qed.

Lemma existsb_svz_absent v acc :
  not_number v -> Forall not_number acc -> v ∉ acc -> existsb (same_value_zero v) acc = false.
Proof.
  intros Hv Hacc Hnot. apply not_true_iff_false. rewrite existsb_exists.
  intros (w & Hw & Heq). rewrite Forall_forall in Hacc.
  apply same_value_zero_eq in Heq; [|done|by apply Hacc, list_elem_of_In].
  subst. by apply Hnot, list_elem_of_In.
Qed.

Lemma intern_fold_distinct vs acc :
  Forall not_number acc -> Forall not_number vs -> NoDup (acc ++ vs) ->
  fold_left (fun acc v => if existsb (same_value_zero v) acc then acc else acc ++ [v]) vs acc =
    acc ++ vs.
Proof.
  revert acc. induction vs as [|v vs IH]; intros acc Hacc Hvs Hnd; cbn [fold_left].
  { by rewrite app_nil_r. }
  inversion Hvs as [|? ? Hv Hvs']; subst.
  rewrite existsb_svz_absent; [|done|done|].
  - rewrite IH; [by rewrite <- app_assoc | by apply Forall_app; auto | done |].
    by rewrite <- app_assoc.
  - intros Hin. apply NoDup_app in Hnd as (_ & Hdis & _).
    apply (Hdis v Hin). by left.
Qed.

(** On distinct strings (or [undefined]) the ordinal domain is the
    list itself: one band per value, in order. *)
Theorem intern_domain_distinct (vs : list jsval) :
  Forall not_number vs -> NoDup vs -> intern_domain vs = vs.
Proof. intros Hvs Hnd. by apply (intern_fold_distinct vs []). Qed.

Lemma same_value_zero_refl v : not_number v -> same_value_zero v v = true.
Proof. intros Hv. by apply same_value_zero_eq. Qed.

(** When every value is the same, the domain has that one value. *)
Lemma intern_domain_const (v : jsval) (vs : list jsval) :
  not_number v -> vs <> [] -> Forall (fun w => w = v) vs -> intern_domain vs = [v].
Proof.
  intros Hv Hne Hall. destruct vs as [|w vs]; [done|].
  inversion Hall as [|? ? -> Hrest]; subst. clear Hne Hall.
  unfold intern_domain. cbn [fold_left existsb app].
  induction Hrest as [|w2 vs2 -> _ IH]; [done|]. cbn [fold_left existsb].
  rewrite same_value_zero_refl by done. exact IH.
Qed.
