(* ===== verification/D3Ticks.v ===== *)
(** * d3-array's [ticks]: the tick values of the linear axis

    The bottom axis of line 40 and the gridlines of line 63 ask the linear
    scale [x] for its ticks.  d3-axis calls [x.ticks()], and d3-scale turns
    that into [d3.ticks(d[0], d[d.length - 1], 10)] on the domain.  This
    file models [ticks] and its helper [tickSpec] as d3-array 3 (d3 v7)
    writes them, on exact rationals.

    - [Math.log10] and [Math.floor] combine into [floor_log10], which is
      exact.
    - The comparisons with [Math.sqrt(50)], [Math.sqrt(10)] and
      [Math.sqrt(2)] are made on squares, which is exact for the positive
      [error].
    - [Math.round] is [js_round].

    The theorems state what the ticks are:
    - they lie between the domain's ends;
    - they are consecutive multiples of a step of the form 1, 2 or 5 times
      a power of ten;
    - there are not many more of them than asked for;
    - the recursion of [tickSpec] stops after at most two calls. *)

From S2P Require Import Prelude JsNumber.
From Stdlib Require Import Qround Qminmax.

Module D3Ticks.
Local Open Scope Q_scope.

(** [floor(log10 n)] for a positive integer: the number of its decimal
    digits, less one.  The fuel, the number of bits of [n], is enough
    ([zlog10_spec]). *)
Fixpoint zlog10_fuel (fuel : nat) (n : Z) : Z :=
  match fuel with
  | O => 0
  | S f => if (n <? 10)%Z then 0 else Z.succ (zlog10_fuel f (n / 10))
  end.

Definition zlog10 (n : Z) : Z := zlog10_fuel (S (Z.to_nat (Z.log2 n))) n.

(** [Math.pow(10, e)] for an integer [e], exactly. *)
Definition pow10 (e : Z) : Q :=
  if (0 <=? e)%Z then inject_Z (10 ^ e) else / inject_Z (10 ^ (- e)).

(** [Math.floor(Math.log10(q))] for [q > 0]: at least 1, the integer part
    has [zlog10] more digits; below 1, the reciprocal's ceiling decides. *)
Definition floor_log10 (q : Q) : Z :=
  if Qle_bool 1 q then zlog10 (Qfloor q)
  else (- zlog10 (Qceiling (/ q) - 1) - 1)%Z.

(** [Math.round]: the nearest integer, halves rounded up. *)
Definition js_round (x : Q) : Z := Qfloor (x + (1 # 2)).

(** [x < y] on rationals, as a boolean. *)
Definition qlt (x y : Q) : bool := negb (Qle_bool y x).

(** The factor of [tickSpec]: [error >= Math.sqrt(50) ? 10 : error >=
    Math.sqrt(10) ? 5 : error >= Math.sqrt(2) ? 2 : 1], each comparison
    made on the square of the positive [error]. *)
Definition tick_factor (error : Q) : Q :=
  if Qle_bool 50 (error * error) then 10
  else if Qle_bool 10 (error * error) then 5
  else if Qle_bool 2 (error * error) then 2 else 1.

(** One call of [tickSpec(start, stop, count)], up to its recursive
    call.  A negative [inc] stands for the step [1 / -inc]. *)
Definition tick_spec_once (start stop count : Q) : Z * Z * Q :=
  let step := (stop - start) / Qmax 0 count in
  let power := floor_log10 step in
  let error := step / pow10 power in
  let factor := tick_factor error in
  if (power <? 0)%Z then
    let inc := pow10 (- power) / factor in
    let i1 := js_round (start * inc) in
    let i2 := js_round (stop * inc) in
    let i1 := if qlt (inject_Z i1 / inc) start then Z.succ i1 else i1 in
    let i2 := if qlt stop (inject_Z i2 / inc) then Z.pred i2 else i2 in
    (i1, i2, - inc)
  else
    let inc := pow10 power * factor in
    let i1 := js_round (start / inc) in
    let i2 := js_round (stop / inc) in
    let i1 := if qlt (inject_Z i1 * inc) start then Z.succ i1 else i1 in
    let i2 := if qlt stop (inject_Z i2 * inc) then Z.pred i2 else i2 in
    (i1, i2, inc).

(** [tickSpec]: when no tick fits and [0.5 <= count < 2], it starts again
    with twice the count.  Two levels of fuel are enough
    ([tick_spec_enough]). *)
Fixpoint tick_spec (fuel : nat) (start stop count : Q) : Z * Z * Q :=
  let '(i1, i2, inc) := tick_spec_once start stop count in
  match fuel with
  | S f =>
      if (i2 <? i1)%Z && Qle_bool (1 # 2) count && qlt count 2
      then tick_spec f start stop (count * 2) else (i1, i2, inc)
  | O => (i1, i2, inc)
  end.

(** The [i]-th tick, [(i1 + i) * inc] or [(i1 + i) / -inc], counted from
    [i2] downwards when the domain is reversed. *)
Definition tick_value (reverse : bool) (i1 i2 : Z) (inc : Q) (i : nat) : Q :=
  let k := if reverse then (i2 - Z.of_nat i)%Z else (i1 + Z.of_nat i)%Z in
  if qlt inc 0 then inject_Z k / - inc else inject_Z k * inc.

(** [d3.ticks(start, stop, count)] on finite values. *)
Definition ticks (start stop count : Q) : list Q :=
  if Qle_bool count 0 then [] else
  if Qeq_bool start stop then [start] else
  let reverse := qlt stop start in
  let '(i1, i2, inc) :=
    if reverse then tick_spec 2 stop start count else tick_spec 2 start stop count in
  if (i2 <? i1)%Z then []
  else tick_value reverse i1 i2 inc <$> seq 0 (Z.to_nat (i2 - i1 + 1)).

(** The step an [inc] of [tickSpec] stands for: [inc < 0 ? 1 / -inc : inc]. *)
Definition inc_step (inc : Q) : Q := if qlt inc 0 then / - inc else inc.

(** [d3.tickStep(start, stop, count)], the distance between two ticks,
    negative for a reversed domain; 0 for equal ends. *)
Definition tick_step (start stop count : Q) : Q :=
  if Qeq_bool start stop then 0 else
  let reverse := qlt stop start in
  let '(_, _, inc) :=
    if reverse then tick_spec 2 stop start count else tick_spec 2 start stop count in
  if reverse then - inc_step inc else inc_step inc.

(** [d3.ticks] on Numbers: equal ends give themselves; otherwise a NaN or
    an infinite end makes some index NaN and the result is empty. *)
Definition ticks_num (start stop : number) (count : Q) : list number :=
  if Qle_bool count 0 then [] else
  match start, stop with
  | Fin a, Fin b => Fin <$> ticks a b count
  | PosInf, PosInf | NegInf, NegInf => [start]
  | _, _ => []
  end.

End D3Ticks.

Export D3Ticks.

(** ** Powers of ten and decimal logarithms *)

Local Open Scope Q_scope.

Lemma zlog10_fuel_spec fuel n :
  (1 <= n < 10 ^ Z.of_nat fuel)%Z ->
  (0 <= zlog10_fuel fuel n /\ 10 ^ zlog10_fuel fuel n <= n < 10 ^ Z.succ (zlog10_fuel fuel n))%Z.
Proof.
  revert n. induction fuel as [|f IH]; intros n Hn; cbn [zlog10_fuel].
  { cbn in Hn. lia. }
  destruct (Z.ltb_spec n 10) as [Hlt|Hge]; [cbn; lia|].
  assert (Hq : (1 <= n / 10 < 10 ^ Z.of_nat f)%Z).
  { rewrite Nat2Z.inj_succ, Z.pow_succ_r in Hn by lia.
    split; [apply Z.div_le_lower_bound; lia | apply Z.div_lt_upper_bound; lia]. }
  destruct (IH (n / 10)%Z Hq) as (H0 & Hlo & Hhi).
  pose proof (Z.mul_div_le n 10 ltac:(lia)). pose proof (Z.mul_succ_div_gt n 10 ltac:(lia)).
  rewrite Z.pow_succ_r in Hhi by lia. rewrite !Z.pow_succ_r by lia. lia.
Qed.

Lemma zlog10_spec n :
  (1 <= n)%Z -> (0 <= zlog10 n /\ 10 ^ zlog10 n <= n < 10 ^ Z.succ (zlog10 n))%Z.
Proof.
  intros Hn. apply zlog10_fuel_spec. split; [done|].
  rewrite Nat2Z.inj_succ, Z2Nat.id by (apply Z.log2_nonneg).
  apply (Z.lt_le_trans _ (2 ^ Z.succ (Z.log2 n))); [apply Z.log2_spec; lia|].
  apply Z.pow_le_mono_l. pose proof (Z.log2_nonneg n). lia.
Qed.

Lemma pow10_nonneg e : (0 <= e)%Z -> pow10 e == inject_Z (10 ^ e).
Proof. intros He. unfold pow10. by rewrite (proj2 (Z.leb_le 0 e) He). Qed.

Lemma pow10_neg e : (e <= 0)%Z -> pow10 e == / inject_Z (10 ^ (- e)).
Proof.
  intros He. unfold pow10. destruct (Z.leb_spec 0 e); [|reflexivity].
  assert (e = 0%Z) as -> by lia. reflexivity.
Qed.

Lemma inject_Z_pow10_pos e : (0 <= e)%Z -> 0 < inject_Z (10 ^ e).
Proof.
  intros He. change 0 with (inject_Z 0). rewrite <- Zlt_Qlt. apply Z.pow_pos_nonneg; lia.
Qed.

Lemma pow10_pos e : 0 < pow10 e.
Proof.
  unfold pow10. destruct (Z.leb_spec 0 e).
  - by apply inject_Z_pow10_pos.
  - apply Qinv_lt_0_compat, inject_Z_pow10_pos. lia.
Qed.

#[export] Hint Resolve pow10_pos : viz.

Lemma inject_Z_pow10_le_lt e n :
  (10 ^ e <= n < 10 ^ Z.succ e)%Z -> inject_Z (10 ^ e) <= inject_Z n < inject_Z (10 ^ Z.succ e).
Proof. intros H. rewrite <- Zle_Qle, <- Zlt_Qlt. lia. Qed.

(** [floor_log10] is [Math.floor(Math.log10(q))]: the power of ten it
    gives is the largest one not above [q]. *)
Lemma floor_log10_spec q :
  0 < q -> pow10 (floor_log10 q) <= q < pow10 (Z.succ (floor_log10 q)).
Proof.
  intros Hq. unfold floor_log10. destruct (Qle_bool 1 q) eqn:E.
  - apply Qle_bool_iff in E.
    assert (Hn : (1 <= Qfloor q)%Z).
    { change 1%Z with (Qfloor 1). by apply Qfloor_resp_le. }
    destruct (zlog10_spec _ Hn) as (H0 & Hb).
    apply inject_Z_pow10_le_lt in Hb as [Hlo Hhi].
    rewrite !pow10_nonneg by lia. pose proof (Qfloor_le q). pose proof (Qlt_floor q).
    split; [lra|]. apply (Qlt_le_trans _ _ _ (Qlt_floor q)).
    rewrite <- Zle_Qle. rewrite <- Zlt_Qlt in Hhi. lia.
  - assert (Hlt : q < 1) by (apply Qnot_le_lt; intros H; apply Qle_bool_iff in H; congruence).
    assert (Hqr : q * / q == 1) by (apply Qmult_inv_r; lra).
    assert (Hr : 1 < / q).
    { apply (Qmult_lt_l _ _ q Hq). rewrite Hqr. lra. }
    pose proof (Qle_ceiling (/ q)) as Hc1. pose proof (Qceiling_lt (/ q)) as Hc2.
    assert (Hc : (1 <= Qceiling (/ q) - 1)%Z).
    { assert (Hc' : (1 < Qceiling (/ q))%Z) by (rewrite Zlt_Qlt; change (inject_Z 1) with 1; lra). lia. }
    destruct (zlog10_spec _ Hc) as (H0 & Hb).
    apply inject_Z_pow10_le_lt in Hb as [Hlo Hhi].
    rewrite !pow10_neg by lia.
    replace (- (- zlog10 (Qceiling (/ q) - 1) - 1))%Z with (Z.succ (zlog10 (Qceiling (/ q) - 1))) by lia.
    replace (- Z.succ (- zlog10 (Qceiling (/ q) - 1) - 1))%Z with (zlog10 (Qceiling (/ q) - 1)) by lia.
    split.
    + apply Qle_shift_inv_r; [apply inject_Z_pow10_pos; lia|].
      rewrite <- Hqr. apply Qmult_le_l; [done|].
      assert (Hz : (Qceiling (/ q) <= 10 ^ Z.succ (zlog10 (Qceiling (/ q) - 1)))%Z).
      { rewrite <- Zlt_Qlt in Hhi. lia. }
      rewrite Zle_Qle in Hz. lra.
    + apply Qlt_shift_inv_l; [apply inject_Z_pow10_pos; lia|].
      rewrite <- Hqr. apply Qmult_lt_l; [done|]. lra.
Qed.

Lemma pow10_opp e : pow10 (- e) == / pow10 e.
Proof.
  destruct (Z.leb_spec 0 e).
  - rewrite pow10_neg, pow10_nonneg by lia. by rewrite Z.opp_involutive.
  - rewrite pow10_nonneg, (pow10_neg e) by lia. by rewrite Qinv_involutive.
Qed.

Lemma Qle_bool_false a b : Qle_bool a b = false -> b < a.
Proof.
  intros H. apply Qnot_le_lt. intros H'. apply Qle_bool_iff in H'. congruence.
Qed.

(** ** Rounding and the adjustment of the first and last index *)

Lemma qlt_true a b : qlt a b = true <-> a < b.
Proof.
  unfold qlt. destruct (Qle_bool b a) eqn:E; simpl.
  - apply Qle_bool_iff in E. split; [done|]. intros H. lra.
  - split; [intros _|done]. apply Qnot_le_lt. intros H. apply Qle_bool_iff in H. congruence.
Qed.

Lemma qlt_false a b : qlt a b = false <-> b <= a.
Proof.
  unfold qlt. destruct (Qle_bool b a) eqn:E; simpl.
  - apply Qle_bool_iff in E. done.
  - split; [done|]. intros H. apply Qle_bool_iff in H. congruence.
Qed.

Lemma js_round_bounds x : x - (1 # 2) < inject_Z (js_round x) <= x + (1 # 2).
Proof.
  unfold js_round. pose proof (Qfloor_le (x + (1 # 2))). pose proof (Qlt_floor (x + (1 # 2))).
  rewrite inject_Z_plus in *. change (inject_Z 1) with 1 in *. lra.
Qed.

Lemma round_up_adjust x a d :
  0 < d -> a * d == x ->
  x <= inject_Z (if qlt (inject_Z (js_round a) * d) x then Z.succ (js_round a) else js_round a) * d.
Proof.
  intros Hd Ha. destruct (qlt _ x) eqn:E; [|by apply qlt_false in E].
  pose proof (js_round_bounds a) as [Hlo _].
  rewrite <- Ha, <- Z.add_1_r, inject_Z_plus. change (inject_Z 1) with 1.
  apply Qmult_le_compat_r; lra.
Qed.

Lemma round_down_adjust x a d :
  0 < d -> a * d == x ->
  inject_Z (if qlt x (inject_Z (js_round a) * d) then Z.pred (js_round a) else js_round a) * d <= x.
Proof.
  intros Hd Ha. destruct (qlt x _) eqn:E; [|by apply qlt_false in E].
  pose proof (js_round_bounds a) as [_ Hhi].
  rewrite <- Ha. replace (Z.pred (js_round a)) with (js_round a + -1)%Z by lia.
  rewrite inject_Z_plus. change (inject_Z (-1)) with (-1).
  apply Qmult_le_compat_r; lra.
Qed.

#[export] Hint Resolve js_round_bounds : viz.

(** ** One call of [tickSpec] *)

Lemma pow10_succ e : pow10 (Z.succ e) == 10 * pow10 e.
Proof.
  destruct (Z.leb_spec 0 e).
  - rewrite !pow10_nonneg by lia. rewrite Z.pow_succ_r by lia.
    rewrite inject_Z_mult. reflexivity.
  - rewrite !pow10_neg by lia. replace (- e)%Z with (Z.succ (- Z.succ e)) by lia.
    rewrite (Z.pow_succ_r 10) by lia. rewrite inject_Z_mult, Qinv_mult_distr.
    change (inject_Z 10) with 10. field.
    pose proof (inject_Z_pow10_pos (- Z.succ e) ltac:(lia)). lra.
Qed.

Lemma pow10_add_nat e k : pow10 (e + Z.of_nat k) == pow10 e * inject_Z (10 ^ Z.of_nat k).
Proof.
  induction k as [|k IH].
  - change (inject_Z (10 ^ Z.of_nat 0)) with 1. rewrite Z.add_0_r. ring.
  - rewrite Nat2Z.inj_succ, Z.add_succ_r, pow10_succ, IH, Z.pow_succ_r by lia.
    rewrite inject_Z_mult. change (inject_Z 10) with 10. ring.
Qed.

Lemma pow10_le_mono e1 e2 : (e1 <= e2)%Z -> pow10 e1 <= pow10 e2.
Proof.
  intros He. replace e2 with (e1 + Z.of_nat (Z.to_nat (e2 - e1)))%Z by lia.
  rewrite pow10_add_nat. pose proof (pow10_pos e1).
  assert (1 <= inject_Z (10 ^ Z.of_nat (Z.to_nat (e2 - e1)))).
  { change 1 with (inject_Z 1). rewrite <- Zle_Qle.
    pose proof (Z.pow_pos_nonneg 10 (Z.of_nat (Z.to_nat (e2 - e1))) ltac:(lia) ltac:(lia)). lia. }
  nra.
Qed.

(** The factor is 1, 2, 5 or 10, and at least three fifths of [error]. *)
Lemma tick_factor_spec e :
  1 <= e < 10 ->
  (tick_factor e == 1 \/ tick_factor e == 2 \/ tick_factor e == 5 \/ tick_factor e == 10) /\
  (3 # 5) * e <= tick_factor e.
Proof.
  intros He. unfold tick_factor.
  destruct (Qle_bool 50 (e * e)) eqn:E1; [split; [vm_compute; auto | lra]|].
  apply Qle_bool_false in E1.
  destruct (Qle_bool 10 (e * e)) eqn:E2; [split; [vm_compute; auto | nra]|].
  apply Qle_bool_false in E2.
  destruct (Qle_bool 2 (e * e)) eqn:E3; [split; [vm_compute; auto | nra]|].
  apply Qle_bool_false in E3. split; [vm_compute; auto | nra].
Qed.

(** One call of [tickSpec] on [start < stop]: its step is positive, 1, 2,
    5 or 10 times a power of ten, at least three fifths of the raw step
    [(stop - start) / count]; its first index is at or after [start] and
    its last at or before [stop]. *)
Lemma tick_spec_once_spec s t c i1 i2 inc :
  s < t -> 0 < c -> tick_spec_once s t c = (i1, i2, inc) ->
  0 < inc_step inc /\ s <= inject_Z i1 * inc_step inc /\ inject_Z i2 * inc_step inc <= t /\
  (3 # 5) * ((t - s) / c) <= inc_step inc /\
  (forall e, pow10 e <= (t - s) / c -> pow10 e <= inc_step inc) /\
  exists f p, (f == 1 \/ f == 2 \/ f == 5 \/ f == 10) /\ inc_step inc == f * pow10 p.
Proof.
  intros Hst Hc Heq. unfold tick_spec_once in Heq. cbv zeta in Heq.
  assert (Hstep : (t - s) / Qmax 0 c == (t - s) / c) by (by rewrite Q.max_r by lra).
  set (step := (t - s) / Qmax 0 c) in *.
  assert (Hpos : 0 < step) by (rewrite Hstep; apply Qlt_shift_div_l; [exact Hc | rewrite Qmult_0_l; lra]).
  set (p := floor_log10 step) in *.
  destruct (floor_log10_spec step Hpos) as [Hlo Hhi]. fold p in Hlo, Hhi.
  rewrite pow10_succ in Hhi. pose proof (pow10_pos p) as Hp.
  set (err := step / pow10 p) in *.
  assert (Herr : 1 <= err < 10).
  { unfold err. split; [apply Qle_shift_div_l | apply Qlt_shift_div_r]; lra. }
  destruct (tick_factor_spec err Herr) as [Hf Hf35].
  set (f := tick_factor err) in *.
  assert (Hfpos : 0 < f) by (destruct Hf as [H|[H|[H|H]]]; rewrite H; reflexivity).
  assert (H35 : (3 # 5) * ((t - s) / c) <= f * pow10 p).
  { rewrite <- Hstep. assert (Hse : step == err * pow10 p) by (unfold err; field; lra).
    rewrite Hse. nra. }
  assert (Hge : forall e, pow10 e <= (t - s) / c -> pow10 e <= f * pow10 p).
  { intros e He. rewrite <- Hstep in He.
    assert (He' : (e <= p)%Z).
    { destruct (Z.le_gt_cases e p) as [|Hgt]; [done|].
      pose proof (pow10_le_mono (Z.succ p) e ltac:(lia)). rewrite pow10_succ in *. lra. }
    pose proof (pow10_le_mono e p He').
    assert (1 <= f) by (destruct Hf as [Hf1|[Hf1|[Hf1|Hf1]]]; rewrite Hf1; discriminate). nra. }
  destruct (Z.ltb_spec p 0); injection Heq as <- <- <-.
  - set (inc := pow10 (- p) / f).
    assert (Hinc : / inc == f * pow10 p) by (unfold inc; rewrite pow10_opp; field; lra).
    assert (Hipos : 0 < inc).
    { unfold inc. apply Qlt_shift_div_l; [done|]. rewrite Qmult_0_l. apply pow10_pos. }
    assert (Hd : inc_step (- inc) == / inc).
    { unfold inc_step. rewrite (proj2 (qlt_true _ _)) by lra. by rewrite Qopp_opp. }
    rewrite !Hd. split; [by apply Qinv_lt_0_compat|]. split; [|split; [|split; [|split]]].
    + apply round_up_adjust; [by apply Qinv_lt_0_compat | field; lra].
    + apply round_down_adjust; [by apply Qinv_lt_0_compat | field; lra].
    + by rewrite Hinc.
    + intros e He. rewrite Hd, Hinc. by apply Hge.
    + exists f, p. split; [done|]. by rewrite Hd.
  - set (inc := pow10 p * f).
    assert (Hipos : 0 < inc) by (unfold inc; nra).
    assert (Hd : inc_step inc = inc).
    { unfold inc_step. by rewrite (proj2 (qlt_false _ _)) by lra. }
    rewrite !Hd. split; [done|]. split; [|split; [|split; [|split]]].
    + apply round_up_adjust; [done | field; lra].
    + apply round_down_adjust; [done | field; lra].
    + unfold inc. by rewrite (Qmult_comm (pow10 p) f).
    + intros e He. unfold inc. rewrite (Qmult_comm (pow10 p) f). by apply Hge.
    + exists f, p. split; [done|]. unfold inc. ring.
Qed.

(** ** The recursion of [tickSpec] *)

Lemma tick_spec_spec fuel s t c i1 i2 inc :
  s < t -> 0 < c -> tick_spec fuel s t c = (i1, i2, inc) ->
  0 < inc_step inc /\ s <= inject_Z i1 * inc_step inc /\ inject_Z i2 * inc_step inc <= t /\
  exists f p, (f == 1 \/ f == 2 \/ f == 5 \/ f == 10) /\ inc_step inc == f * pow10 p.
Proof.
  revert c. induction fuel as [|fuel IH]; intros c Hst Hc Heq; cbn [tick_spec] in Heq;
    destruct (tick_spec_once s t c) as [[a b] d] eqn:E.
  - injection Heq as <- <- <-.
    destruct (tick_spec_once_spec s t c a b d Hst Hc E) as (? & ? & ? & _ & _ & ?). auto.
  - destruct (_ && _ && _).
    + apply (IH (c * 2)); [done | lra | done].
    + injection Heq as <- <- <-.
      destruct (tick_spec_once_spec s t c a b d Hst Hc E) as (? & ? & ? & _ & _ & ?). auto.
Qed.

(** With a count of at least 2, [tickSpec] does not call itself again. *)
Lemma tick_spec_no_retry fuel s t c :
  2 <= c -> tick_spec fuel s t c = tick_spec_once s t c.
Proof.
  intros Hc. destruct fuel as [|fuel]; cbn [tick_spec];
    destruct (tick_spec_once s t c) as [[a b] d]; [done|].
  replace (qlt c 2) with false by (symmetry; by apply qlt_false).
  by rewrite !andb_false_r.
Qed.

(** [tickSpec] stops: its recursive call, made only when [0.5 <=
    count < 2], doubles the count, so a third call never retries; the
    model's two levels of fuel give the result of the unbounded recursion
    (any more fuel gives the same). *)
Theorem tick_spec_enough fuel s t c :
  (2 <= fuel)%nat -> tick_spec fuel s t c = tick_spec 2 s t c.
Proof.
  intros Hf. destruct fuel as [|[|fuel]]; [lia|lia|].
  cbn [tick_spec]. destruct (tick_spec_once s t c) as [[a b] d].
  destruct ((b <? a)%Z && Qle_bool (1 # 2) c && qlt c 2) eqn:Hcond; [|done].
  apply andb_prop in Hcond as [[_ Hc%Qle_bool_iff]%andb_prop _].
  destruct (tick_spec_once s t (c * 2)) as [[a' b'] d'].
  destruct (_ && _ && _); [|done].
  rewrite tick_spec_no_retry by lra. by destruct (tick_spec_once s t (c * 2 * 2)) as [[? ?] ?].
Qed.

Lemma tick_spec_enough_witness : tick_spec 5 0 1 (1 # 2) = tick_spec 2 0 1 (1 # 2).
Proof. apply tick_spec_enough. lia. Defined.

(** ** The ticks *)

Lemma tick_value_eq reverse i1 i2 inc i :
  tick_value reverse i1 i2 inc i ==
    inject_Z (if reverse then i2 - Z.of_nat i else i1 + Z.of_nat i)%Z * inc_step inc.
Proof. unfold tick_value, inc_step. by destruct (qlt inc 0). Qed.

Lemma tick_between lo hi i1 i2 st k :
  0 < st -> lo <= inject_Z i1 * st -> inject_Z i2 * st <= hi -> (i1 <= k <= i2)%Z ->
  lo <= inject_Z k * st <= hi.
Proof.
  intros Hst Hlo Hhi [H1 H2]. rewrite Zle_Qle in H1, H2.
  pose proof (Qmult_le_compat_r _ _ st H1 ltac:(lra)).
  pose proof (Qmult_le_compat_r _ _ st H2 ltac:(lra)). lra.
Qed.

(** [ticks] on distinct ends and a positive count: the ticks of the
    ascending [tickSpec], counted up or down. *)
Lemma ticks_distinct a b c :
  ~ a == b -> 0 < c ->
  ticks a b c =
    let '(i1, i2, inc) := if qlt b a then tick_spec 2 b a c else tick_spec 2 a b c in
    if (i2 <? i1)%Z then []
    else tick_value (qlt b a) i1 i2 inc <$> seq 0 (Z.to_nat (i2 - i1 + 1)).
Proof.
  intros Hab Hc. unfold ticks.
  replace (Qle_bool c 0) with false
    by (symmetry; apply not_true_iff_false; rewrite Qle_bool_iff; lra).
  replace (Qeq_bool a b) with false
    by (symmetry; apply not_true_iff_false; by rewrite Qeq_bool_iff).
  done.
Qed.

Lemma ticks_ordered_ends a b : ~ a == b -> qlt b a = false -> a < b.
Proof. intros Hab Hr%qlt_false. apply Qle_lt_or_eq in Hr as [|]; [done|]. by destruct Hab. Qed.

Lemma ticks_equal a b c : a == b -> 0 < c -> ticks a b c = [a].
Proof.
  intros Hab Hc. unfold ticks.
  replace (Qle_bool c 0) with false
    by (symmetry; apply not_true_iff_false; rewrite Qle_bool_iff; lra).
  by rewrite (proj2 (Qeq_bool_iff a b) Hab).
Qed.

Lemma ticks_nonpos a b c : c <= 0 -> ticks a b c = [].
Proof. intros Hc. unfold ticks. by rewrite (proj2 (Qle_bool_iff c 0) Hc). Qed.

(** Every tick lies between the two ends of the domain, whichever is
    the larger. *)
Lemma ticks_in_range a b c x :
  x ∈ ticks a b c -> Qmin a b <= x <= Qmax a b.
Proof.
  destruct (Qlt_le_dec 0 c) as [Hc|Hc]; [|rewrite ticks_nonpos by done; by intros ?%elem_of_nil].
  destruct (Qeq_dec a b) as [Hab|Hab].
  { rewrite ticks_equal by done. intros ->%list_elem_of_singleton.
    split; [apply Q.le_min_l | apply Q.le_max_l]. }
  rewrite ticks_distinct by done. destruct (qlt b a) eqn:Er; cbv iota.
  - apply qlt_true in Er. rewrite Q.min_r, Q.max_l by lra.
    destruct (tick_spec 2 b a c) as [[i1 i2] inc] eqn:E. cbv iota.
    destruct (Z.ltb_spec i2 i1); [by intros ?%elem_of_nil|].
    intros (i & -> & Hi%elem_of_seq)%list_elem_of_fmap.
    destruct (tick_spec_spec 2 b a c i1 i2 inc Er Hc E) as (Hst & Hlo & Hhi & _).
    rewrite tick_value_eq. apply (tick_between _ _ i1 i2 _ _ Hst Hlo Hhi). lia.
  - apply ticks_ordered_ends in Er; [|done]. rewrite Q.min_l, Q.max_r by lra.
    destruct (tick_spec 2 a b c) as [[i1 i2] inc] eqn:E. cbv iota.
    destruct (Z.ltb_spec i2 i1); [by intros ?%elem_of_nil|].
    intros (i & -> & Hi%elem_of_seq)%list_elem_of_fmap.
    destruct (tick_spec_spec 2 a b c i1 i2 inc Er Hc E) as (Hst & Hlo & Hhi & _).
    rewrite tick_value_eq. apply (tick_between _ _ i1 i2 _ _ Hst Hlo Hhi). lia.
Qed.

(** C38: on an ascending domain, the ticks are consecutive multiples of
    one step, and that step is 1, 2 or 5 times a power of ten (or ten
    times one): the [i]-th tick is [(i1 + i) * step]. *)
Theorem ticks_multiples a b c :
  a < b -> 0 < c ->
  exists (i1 : Z) (st f : Q) (p : Z),
    0 < st /\ (f == 1 \/ f == 2 \/ f == 5 \/ f == 10) /\ st == f * pow10 p /\
    forall i x, ticks a b c !! i = Some x -> x == inject_Z (i1 + Z.of_nat i) * st.
Proof.
  intros Hab Hc. rewrite ticks_distinct by (lra || done).
  replace (qlt b a) with false by (symmetry; apply qlt_false; lra). cbv iota.
  destruct (tick_spec 2 a b c) as [[i1 i2] inc] eqn:E. cbv iota.
  destruct (tick_spec_spec 2 a b c i1 i2 inc Hab Hc E) as (Hst & _ & _ & f & p & Hf & Hfp).
  exists i1, (inc_step inc), f, p. do 3 (split; [done|]).
  intros i x. destruct (i2 <? i1)%Z; [done|].
  rewrite list_lookup_fmap. intros (j & Hj & ->)%fmap_Some.
  apply lookup_seq in Hj as [-> _]. cbn [Nat.add]. apply tick_value_eq.
Qed.

Lemma ticks_multiples_witness :
  exists (i1 : Z) (st f : Q) (p : Z),
    0 < st /\ (f == 1 \/ f == 2 \/ f == 5 \/ f == 10) /\ st == f * pow10 p /\
    forall i x, ticks 0 120 10 !! i = Some x -> x == inject_Z (i1 + Z.of_nat i) * st.
Proof. apply ticks_multiples; reflexivity. Defined.

Lemma tick_values_reverse i1 i2 inc :
  tick_value true i1 i2 inc <$> seq 0 (Z.to_nat (i2 - i1 + 1)) =
    reverse (tick_value false i1 i2 inc <$> seq 0 (Z.to_nat (i2 - i1 + 1))).
Proof.
  set (n := Z.to_nat (i2 - i1 + 1)). apply list_eq. intros i.
  rewrite list_lookup_fmap. destruct (decide (i < n)%nat) as [Hi|Hi].
  - rewrite lookup_seq_lt by done. rewrite reverse_lookup by (by rewrite length_fmap, length_seq).
    rewrite length_fmap, length_seq, list_lookup_fmap, lookup_seq_lt by lia.
    cbn [fmap option_fmap option_map]. f_equal. unfold tick_value. cbv iota zeta.
    by replace (i1 + Z.of_nat (0 + (n - S i)))%Z with (i2 - Z.of_nat (0 + i))%Z by lia.
  - rewrite lookup_seq_ge by lia. symmetry. apply lookup_ge_None_2.
    rewrite length_reverse, length_fmap, length_seq. lia.
Qed.

(** Exchanging the domain's ends gives the same ticks in reverse
    order. *)
Theorem ticks_reverse a b c :
  ~ a == b -> ticks b a c = reverse (ticks a b c).
Proof.
  intros Hab. destruct (Qlt_le_dec 0 c) as [Hc|Hc]; [|by rewrite !ticks_nonpos].
  rewrite !ticks_distinct by (done || (intros H; apply Hab; by symmetry)).
  destruct (Qlt_le_dec a b) as [Hlt|Hle].
  - replace (qlt a b) with true by (symmetry; by apply qlt_true).
    replace (qlt b a) with false by (symmetry; apply qlt_false; lra). cbv iota.
    destruct (tick_spec 2 a b c) as [[i1 i2] inc]. cbv iota.
    destruct (i2 <? i1)%Z; [done|]. apply tick_values_reverse.
  - assert (Hba : b < a) by (apply Qle_lt_or_eq in Hle as [|]; [done|]; by destruct Hab).
    replace (qlt a b) with false by (symmetry; apply qlt_false; lra).
    replace (qlt b a) with true by (symmetry; by apply qlt_true). cbv iota.
    destruct (tick_spec 2 b a c) as [[i1 i2] inc]. cbv iota.
    destruct (i2 <? i1)%Z; [done|]. by rewrite tick_values_reverse, reverse_involutive.
Qed.

Lemma ticks_reverse_witness : ticks 120 0 10 = reverse (ticks 0 120 10).
Proof. apply ticks_reverse. vm_compute. discriminate. Defined.

(** Asked for [count >= 2] ticks on an ascending domain, [d3.ticks]
    returns at most [5/3 * count + 1] of them (at most 17 for the axis's
    default of 10). *)
Theorem ticks_count a b c :
  a < b -> 2 <= c -> inject_Z (Z.of_nat (length (ticks a b c))) <= (5 # 3) * c + 1.
Proof.
  intros Hab Hc. rewrite ticks_distinct by lra.
  replace (qlt b a) with false by (symmetry; apply qlt_false; lra). cbv iota.
  destruct (tick_spec 2 a b c) as [[i1 i2] inc] eqn:E. cbv iota.
  rewrite tick_spec_no_retry in E by done.
  destruct (tick_spec_once_spec a b c i1 i2 inc Hab ltac:(lra) E) as (Hst & Hlo & Hhi & H35 & _ & _).
  destruct (Z.ltb_spec i2 i1); cbv iota; [change (inject_Z (Z.of_nat (length []))) with 0; lra|].
  rewrite length_fmap, length_seq, Z2Nat.id by lia.
  assert (Hq : (b - a) / c * c == b - a) by (field; lra).
  set (st := inc_step inc) in *. set (q := (b - a) / c) in *.
  replace (i2 - i1 + 1)%Z with (i2 + - i1 + 1)%Z by lia.
  rewrite !inject_Z_plus, inject_Z_opp. change (inject_Z 1) with 1. nra.
Qed.

Lemma ticks_count_witness :
  inject_Z (Z.of_nat (length (ticks 0 120 10))) <= (5 # 3) * 10 + 1.
Proof. apply ticks_count; [reflexivity | vm_compute; discriminate]. Defined.

Lemma floor_log10_nonneg q : 1 <= q -> (0 <= floor_log10 q)%Z.
Proof.
  intros Hq. unfold floor_log10. rewrite (proj2 (Qle_bool_iff 1 q) Hq).
  apply zlog10_spec. change 1%Z with (Qfloor 1). by apply Qfloor_resp_le.
Qed.

(** When the raw step [(b - a) / count] is at least 1, so is the step of
    the ticks. *)
Lemma tick_step_ge_one a b c :
  a < b -> 2 <= c -> 1 <= (b - a) / c -> 1 <= tick_step a b c.
Proof.
  intros Hab Hc Hraw. unfold tick_step.
  replace (Qeq_bool a b) with false
    by (symmetry; apply not_true_iff_false; rewrite Qeq_bool_iff; lra).
  replace (qlt b a) with false by (symmetry; apply qlt_false; lra). cbv iota.
  rewrite tick_spec_no_retry by done.
  destruct (tick_spec_once a b c) as [[i1 i2] inc] eqn:E.
  destruct (tick_spec_once_spec a b c i1 i2 inc Hab ltac:(lra) E) as (_ & _ & _ & _ & Hge & _).
  apply (Hge 0%Z). done.
Qed.
