(* ===== verification/D3Format.v ===== *)
(** * d3-format's [",.Nf"]: the labels of the linear axis

    The bottom axis (line 40) prints each tick with the linear scale's
    [tickFormat()].  d3-scale's [tickFormat(start, stop, 10)] computes
    [precisionFixed(tickStep(start, stop, 10))] and formats with the
    specifier [",.<precision>f"] of d3-format's default locale.  That
    specifier means fixed notation with the digits grouped by three with
    commas and U+2212 as the minus sign.

    This file models:
    - [Number.prototype.toFixed] for finite values below 10^21;
    - the digit grouping ([formatGroup] with grouping [[3]] and
      thousands separator [","]);
    - the sign handling of [format];
    - [precisionFixed];
    - the tick format of a linear scale.

    The theorems state that a count in the thousands gets a comma on the
    axis, unlike its bar label (line 95, Number::toString), and that a
    small domain gives ticks with a decimal point. *)

From S2P Require Import Prelude JsNumber StringToNumber NumberFormat D3Ticks.
From Stdlib Require Import Ascii String Qround Qabs.
From stdpp Require Import strings.

Module D3Format.
Local Open Scope Q_scope.

(** The UTF-8 bytes of U+2212 MINUS SIGN, the locale's [minus]. *)
Definition minus_sign : string :=
  String (ascii_of_nat 226) (String (ascii_of_nat 136) (String (ascii_of_nat 146) EmptyString)).

Definition digits_text (ds : list nat) : list ascii := map digit_char ds.

(** [x.toFixed(p)] for [0 <= x < 10^21]: the integer [n] nearest to
    [x * 10^p], the larger one on a tie... *)
Definition fixed_int (p : nat) (x : Q) : Z :=
  Qfloor (x * inject_Z (10 ^ Z.of_nat p) + (1 # 2)).

(** ... written with [p] digits after the point, padded with zeros to
    have one digit before it. *)
Definition fixed_text (p : nat) (n : Z) : list ascii :=
  let ds := decimal_digits (Z.to_N n) in
  if (p =? 0)%nat then digits_text ds
  else
    let ds' := repeat 0%nat (S p - length ds) ++ ds in
    let k := length ds' in
    digits_text (take (k - p) ds') ++ ["."%char] ++ digits_text (drop (k - p) ds').

Definition to_fixed (p : nat) (x : Q) : option (list ascii) :=
  if Qle_bool (inject_Z (10 ^ 21)) x then None else Some (fixed_text p (fixed_int p x)).

(** [formatGroup([3], ",")] on the integer digits: a comma before every
    third digit counted from the right, walked here on the reversed
    digits. *)
Fixpoint group_rev (i : nat) (rds : list ascii) : list ascii :=
  match rds with
  | [] => []
  | d :: r =>
      (if (0 <? i)%nat && (i mod 3 =? 0)%nat then [","%char; d] else [d]) ++ group_rev (S i) r
  end.

Definition group_thousands (ds : list ascii) : list ascii := rev (group_rev 0 (rev ds)).

Definition is_digit (c : ascii) : bool :=
  let n := nat_of_ascii c in (48 <=? n)%nat && (n <=? 57)%nat.

(** The digits before the first non-digit, and the rest: [format]'s
    scan for the integer part. *)
Fixpoint split_digits (s : list ascii) : list ascii * list ascii :=
  match s with
  | [] => ([], [])
  | c :: r => if is_digit c then let '(a, b) := split_digits r in (c :: a, b) else ([], s)
  end.

(** [format(",." + p + "f")(value)] on a Number: the sign, the fixed
    digits of the absolute value, the integer part (the digits before the
    first non-digit) grouped and the rest appended. *)
Definition format_fixed_comma (p : nat) (v : number) : option string :=
  match v with
  | NaN => Some "NaN"
  | PosInf => Some "Infinity"
  | NegInf => Some (minus_sign ++ "Infinity")%string
  | Fin q =>
      s ← to_fixed p (Qabs q);
      let negative := qlt q 0 && negb (fixed_int p (Qabs q) =? 0)%Z in
      let '(int_part, suffix) := split_digits s in
      Some ((if negative then minus_sign else "") ++
            string_of_list_ascii (group_thousands int_part ++ suffix))%string
  end.

(** [precisionFixed(step)]: [max(0, -exponent(|step|))], with exponent 0
    for a zero step. *)
Definition precision_fixed (step : Q) : nat :=
  if Qeq_bool step 0 then 0%nat else Z.to_nat (- floor_log10 (Qabs step)).

(** d3-scale's [linear.tickFormat()]: [tickFormat(d0, d1, 10)] on the
    domain's ends.  A NaN or infinite end makes the step NaN and the
    precision the specifier's default, 6. *)
Definition linear_tick_format (d0 d1 : number) : number -> option string :=
  match d0, d1 with
  | Fin a, Fin b => format_fixed_comma (precision_fixed (tick_step a b 10))
  | _, _ => format_fixed_comma 6
  end.

End D3Format.

Export D3Format.

(** ** Grouping only adds commas *)

Local Open Scope Q_scope.

(** The text with its commas removed. *)
Definition strip_commas (s : list ascii) : list ascii :=
  List.filter (fun c => negb (Ascii.eqb c ","%char)) s.

Lemma strip_commas_app s1 s2 : strip_commas (s1 ++ s2) = strip_commas s1 ++ strip_commas s2.
Proof. apply List.filter_app. Qed.

Lemma strip_commas_rev s : strip_commas (rev s) = rev (strip_commas s).
Proof.
  induction s as [|c s IH]; [done|]. cbn [rev]. rewrite strip_commas_app, IH.
  unfold strip_commas. cbn [List.filter].
  destruct (negb _); cbn [rev]; [done | by rewrite app_nil_r].
Qed.

Lemma strip_group_rev i s : strip_commas (group_rev i s) = strip_commas s.
Proof.
  revert i. induction s as [|d s IH]; intros i; [done|]. cbn [group_rev].
  rewrite strip_commas_app, IH. unfold strip_commas.
  destruct (_ && _); cbn [List.filter app]; [rewrite Ascii.eqb_refl; cbn [negb]|];
    by destruct (negb _).
Qed.

Lemma strip_group_thousands s : strip_commas (group_thousands s) = strip_commas s.
Proof.
  unfold group_thousands. by rewrite strip_commas_rev, strip_group_rev, strip_commas_rev, rev_involutive.
Qed.

Lemma group_rev_comma i s : (4 <= length s)%nat -> i = 0%nat -> ","%char ∈ group_rev i s.
Proof.
  intros Hs ->. destruct s as [|a [|b [|c [|d s]]]]; cbn in Hs; try lia.
  cbn [group_rev]. cbn. do 3 apply list_elem_of_further. apply list_elem_of_here.
Qed.

(** ** The digits of an integer *)

Lemma digit_char_is_digit d : (d < 10)%nat -> is_digit (digit_char d) = true.
Proof. intros Hd. digit_cases d. Qed.

Lemma digit_char_not_comma d : (d < 10)%nat -> Ascii.eqb (digit_char d) ","%char = false.
Proof. intros Hd. digit_cases d. Qed.

Lemma split_digits_text ds :
  Forall (fun d => d < 10)%nat ds -> split_digits (digits_text ds) = (digits_text ds, []).
Proof.
  induction 1 as [|d ds Hd _ IH]; [done|]. cbn [digits_text map split_digits].
  rewrite digit_char_is_digit by done. fold (digits_text ds). by rewrite IH.
Qed.

Lemma strip_digits_text ds :
  Forall (fun d => d < 10)%nat ds -> strip_commas (digits_text ds) = digits_text ds.
Proof.
  induction 1 as [|d ds Hd _ IH]; [done|]. unfold strip_commas. cbn [digits_text map List.filter].
  rewrite digit_char_not_comma by done. cbn [negb]. f_equal. apply IH.
Qed.

Lemma Qfloor_int_half n : Qfloor (inject_Z n + (1 # 2)) = n.
Proof.
  pose proof (Qfloor_le (inject_Z n + (1 # 2))) as H1.
  pose proof (Qlt_floor (inject_Z n + (1 # 2))) as H2.
  set (f := Qfloor _) in *. rewrite inject_Z_plus in H2. change (inject_Z 1) with 1 in H2.
  assert (Ha : (f < n + 1)%Z).
  { rewrite Zlt_Qlt, inject_Z_plus. change (inject_Z 1) with 1. lra. }
  assert (Hb : (n < f + 1)%Z).
  { rewrite Zlt_Qlt, inject_Z_plus. change (inject_Z 1) with 1. lra. }
  lia.
Qed.

(** The axis label of an integer below 10^21: its digits, grouped. *)
Lemma format_integer n :
  (0 <= n < 10 ^ 21)%Z ->
  format_fixed_comma 0 (Fin (inject_Z n)) =
    Some (string_of_list_ascii (group_thousands (digits_text (decimal_digits (Z.to_N n))))).
Proof.
  intros Hn. unfold format_fixed_comma, to_fixed.
  change (Qabs (inject_Z n)) with (inject_Z (Z.abs n)). rewrite Z.abs_eq by lia.
  replace (Qle_bool (inject_Z (10 ^ 21)) (inject_Z n)) with false
    by (symmetry; apply not_true_iff_false; rewrite Qle_bool_iff, <- Zle_Qle; lia).
  assert (Hfi : fixed_int 0 (inject_Z n) = n).
  { unfold fixed_int. rewrite <- (Qfloor_int_half n) at 2. apply Qfloor_comp.
    change (inject_Z (10 ^ Z.of_nat 0)) with 1. ring. }
  cbn [mbind option_bind]. rewrite Hfi.
  replace (qlt (inject_Z n) 0) with false
    by (symmetry; apply qlt_false; change 0 with (inject_Z 0); rewrite <- Zle_Qle; lia).
  unfold fixed_text. cbn [Nat.eqb].
  destruct (decimal_digits_spec (Z.to_N n)) as (_ & Hf & _).
  by rewrite split_digits_text, app_nil_r by done.
Qed.

(** C35: an integer axis label, its commas removed, is the text
    Number::toString gives the same integer (the text of a bar label,
    line 95): the two agree but for the thousands separators. *)
Theorem axis_label_integer (n : Z) :
  (0 <= n <= 2 ^ 53)%Z ->
  exists s t, format_fixed_comma 0 (Fin (inject_Z n)) = Some s /\
    number_to_string (Fin (inject_Z n)) = Some t /\
    strip_commas (list_ascii_of_string s) = list_ascii_of_string t.
Proof.
  intros Hn. rewrite format_integer by lia. do 2 eexists. split; [done|].
  rewrite number_to_string_int by lia. split; [reflexivity|]. unfold decimal_string.
  replace (n <? 0)%Z with false by (symmetry; apply Z.ltb_ge; lia).
  rewrite Z.abs_eq by lia. rewrite !list_ascii_of_string_of_list_ascii.
  destruct (decimal_digits_spec (Z.to_N n)) as (_ & Hf & _).
  by rewrite strip_group_thousands, strip_digits_text.
Qed.

(** C36: from 1000 on, the axis label of a count has a comma, where the
    bar label (Number::toString) has none. *)
Theorem axis_label_thousands (n : Z) :
  (1000 <= n < 10 ^ 21)%Z ->
  exists s, format_fixed_comma 0 (Fin (inject_Z n)) = Some s /\
    ","%char ∈ list_ascii_of_string s.
Proof.
  intros Hn. rewrite format_integer by lia. eexists. split; [done|].
  rewrite list_ascii_of_string_of_list_ascii. unfold group_thousands.
  apply elem_of_rev, group_rev_comma; [|done].
  destruct (decimal_digits_spec (Z.to_N n)) as (Hv & Hf & _).
  pose proof (digits_value_bounds _ Hf) as [_ Hlt]. rewrite Hv, Z2N.id in Hlt by lia.
  unfold digits_text. rewrite length_rev, length_map.
  destruct (decide (4 <= length (decimal_digits (Z.to_N n)))%nat) as [|Hl]; [done|].
  assert (10 ^ Z.of_nat (length (decimal_digits (Z.to_N n))) <= 10 ^ 3)%Z
    by (apply Z.pow_le_mono_r; lia). lia.
Qed.

Lemma axis_label_integer_witness :
  exists s t, format_fixed_comma 0 (Fin (inject_Z 1234)) = Some s /\
    number_to_string (Fin (inject_Z 1234)) = Some t /\
    strip_commas (list_ascii_of_string s) = list_ascii_of_string t.
Proof. apply axis_label_integer. lia. Defined.

Lemma axis_label_thousands_witness :
  exists s, format_fixed_comma 0 (Fin (inject_Z 1234)) = Some s /\
    ","%char ∈ list_ascii_of_string s.
Proof. apply axis_label_thousands. lia. Defined.

(** With a largest count of 10 or more, d3's tick step is at least 1
    and the axis uses no decimal places. *)
Lemma tick_precision_ge_10 (M : Q) :
  10 <= M -> precision_fixed (tick_step 0 M 10) = 0%nat.
Proof.
  intros HM. pose proof (tick_step_ge_one 0 M 10 ltac:(lra) ltac:(discriminate)) as Hst.
  assert (Hraw : 1 <= (M - 0) / 10) by (apply Qle_shift_div_l; [reflexivity | lra]).
  specialize (Hst Hraw). unfold precision_fixed.
  replace (Qeq_bool (tick_step 0 M 10) 0) with false
    by (symmetry; apply not_true_iff_false; rewrite Qeq_bool_iff; lra).
  pose proof (floor_log10_nonneg (Qabs (tick_step 0 M 10))
                (Qle_trans _ _ _ Hst (Qle_Qabs _))). lia.
Qed.

(** C37: for a positive whole largest count [n], the linear axis labels
    its ticks without decimal places exactly when [n >= 8]; from 1 to 7
    the step is 0.1, 0.2 or 0.5 and the labels have a decimal point. *)
Theorem tick_precision_integer (n : Z) :
  (1 <= n)%Z -> precision_fixed (tick_step 0 (inject_Z n) 10) = 0%nat <-> (8 <= n)%Z.
Proof.
  intros Hn. destruct (Z_le_gt_dec 10 n) as [H10|H10].
  - split; [lia|]. intros _. apply tick_precision_ge_10.
    rewrite Zle_Qle in H10. exact H10.
  - assert (Hc : n = 1%Z \/ n = 2%Z \/ n = 3%Z \/ n = 4%Z \/ n = 5%Z \/ n = 6%Z \/
                 n = 7%Z \/ n = 8%Z \/ n = 9%Z) by lia.
    repeat destruct Hc as [-> | Hc]; subst; vm_compute; split; (done || lia).
Qed.

Lemma tick_precision_integer_witness :
  precision_fixed (tick_step 0 (inject_Z 120) 10) = 0%nat <-> (8 <= 120)%Z.
Proof. apply tick_precision_integer. lia. Defined.
