(* ===== verification/D3Axis.v ===== *)
(** * d3-axis: the axes and gridlines of lines 39-72

    Lines 40-41 build [d3.axisBottom().scale(x)] and
    [d3.axisLeft().scale(y)].  Lines 60-72 build two more axes for the
    gridlines: [d3.axisBottom(x).tickSize(-height).tickFormat("")] and
    [d3.axisLeft(y).tickSize(-width).tickFormat("")].  Each axis is
    drawn with [selection.call(axis)] into a fresh [g].

    This file models the axis object (orient, scale, inner and outer tick
    sizes, padding, format) and what [axis(context)] of d3-axis 3 (d3 v7)
    appends on a first call:
    - the attributes it sets on the [g];
    - a [path.domain];
    - one [g.tick] per tick value, holding a [line] and a [text].

    The tick values are:
    - for the linear scale, [scale.ticks()], that is [d3.ticks(d0, d1, 10)]
      ([D3Ticks]);
    - for the band scale, its domain.

    The positions are:
    - for the linear scale, [+scale(d)];
    - for the band scale, [+scale(d)] plus half the bandwidth, less the
      offset.

    Each position is shifted by d3's [offset]: 0.5 when
    [window.devicePixelRatio] is at most 1, and 0 otherwise.  The model
    takes the offset as a parameter.

    The labels are:
    - for the linear scale, [scale.tickFormat()] ([D3Format]);
    - for the band scale, the domain value itself;
    - with [tickFormat("")], the empty string. *)

From S2P Require Import Prelude JsNumber JsValue NumberFormat Svg D3Scale D3Ticks D3Format.
From stdpp Require Import strings.
From Stdlib Require Import Qminmax.

Module D3Axis.
Local Open Scope Q_scope.

Inductive orient : Type := OTop | ORight | OBottom | OLeft.

Inductive axis_scale : Type :=
| ALinear (l : linear)
| ABand (b : band).

(** [tickFormat]: [null] (the scale's own format) or a constant. *)
Inductive tick_format : Type :=
| TFDefault
| TFConst (s : string).

Record axis : Type := Axis {
  ax_orient : orient;
  ax_scale : axis_scale;
  ax_inner : Q;
  ax_outer : Q;
  ax_padding : Q;
  ax_format : tick_format
}.

(** [d3.axisBottom(scale)] and the like: tick sizes 6, padding 3, the
    scale's format. *)
Definition axis_new (o : orient) (s : axis_scale) : axis := Axis o s 6 6 3 TFDefault.

(** [axis.tickSize(v)] sets the inner and the outer size. *)
Definition tick_size (v : Q) (a : axis) : axis :=
  Axis (ax_orient a) (ax_scale a) v v (ax_padding a) (ax_format a).

(** [axis.tickFormat(s)] with a constant. *)
Definition tick_format_const (s : string) (a : axis) : axis :=
  Axis (ax_orient a) (ax_scale a) (ax_inner a) (ax_outer a) (ax_padding a) (TFConst s).

(** [k]: -1 for the top and left axes, 1 otherwise. *)
Definition k_of (o : orient) : Q := match o with OTop | OLeft => -1 | _ => 1 end.

(** [x]: the attribute of the tick's cross direction. *)
Definition cross_attr (o : orient) : string :=
  match o with OLeft | ORight => "x" | _ => "y" end.

Definition translate (o : orient) (p : number) : attr :=
  match o with OTop | OBottom => ATranslate p (Fin 0) | _ => ATranslate (Fin 0) p end.

Definition dy_of (o : orient) : string :=
  match o with OTop => "0em" | OBottom => "0.71em" | _ => "0.32em" end.

Definition anchor_of (o : orient) : string :=
  match o with ORight => "start" | OLeft => "end" | _ => "middle" end.

(** The tick values, as JS values. *)
Definition tick_values (s : axis_scale) : list jsval :=
  match s with
  | ALinear l => JNumber <$> ticks_num (lin_d0 l) (lin_d1 l) 10
  | ABand b => band_domain b
  end.

(** [+v] on an optional scale output: [undefined] is NaN. *)
Definition num_of_opt (v : option number) : number := default NaN v.

(** The position function: [number(scale)] or [center(scale, offset)]
    (d3 does not round here: the script does not call [band.round]). *)
Definition tick_position (s : axis_scale) (offset : Q) (d : jsval) : number :=
  match s with
  | ALinear l => num_of_opt (linear_apply l (to_number d))
  | ABand b =>
      add (num_of_opt (Fin <$> band_apply b d)) (Fin (Qmax 0 (bandwidth b - offset * 2) / 2))
  end.

(** [text.text(v)]: [undefined] writes the empty string. *)
Definition text_of_jsval (v : jsval) : option string :=
  match v with
  | JUndefined => Some ""
  | JString s => Some s
  | JNumber n => number_to_string n
  end.

(** The label of a tick value. *)
Definition tick_label (a : axis) (d : jsval) : option string :=
  match ax_format a, ax_scale a with
  | TFConst s, _ => Some s
  | TFDefault, ALinear l => linear_tick_format (lin_d0 l) (lin_d1 l) (to_number d)
  | TFDefault, ABand _ => text_of_jsval d
  end.

(** [range0] and [range1]: the scale's range ends, shifted by [offset]. *)
Definition range_ends (s : axis_scale) (offset : Q) : number * number :=
  match s with
  | ALinear l => (add (lin_r0 l) (Fin offset), add (lin_r1 l) (Fin offset))
  | ABand b => (Fin (band_r0 b + offset), Fin (band_r1 b + offset))
  end.

(** The [d] attribute of [path.domain]. *)
Definition domain_path (a : axis) (offset : Q) : list path_seg :=
  let '(r0, r1) := range_ends (ax_scale a) offset in
  let ko := Fin (k_of (ax_orient a) * ax_outer a) in
  match ax_orient a with
  | OLeft | ORight =>
      if Qeq_bool (ax_outer a) 0 then [PM (Fin offset) r0; PV r1]
      else [PM ko r0; PH (Fin offset); PV r1; PH ko]
  | OTop | OBottom =>
      if Qeq_bool (ax_outer a) 0 then [PM r0 (Fin offset); PH r1]
      else [PM r0 ko; PV (Fin offset); PH r1; PV ko]
  end.

(** [path.domain]. *)
Definition domain_node (a : axis) (offset : Q) : node :=
  leaf "path" [("class", AStr "domain"); ("stroke", AStr "currentColor");
               ("d", APath (domain_path a offset))] [] None.

(** The [line] of a tick: [x2] or [y2] is [k * tickSizeInner]. *)
Definition tick_line (a : axis) : node :=
  let o := ax_orient a in
  leaf "line" [("stroke", AStr "currentColor");
               ((cross_attr o ++ "2")%string, ANum (Fin (k_of o * ax_inner a)))] [] None.

(** The [text] of a tick, [k * spacing] away from the axis. *)
Definition tick_text (a : axis) (d : jsval) : node :=
  let o := ax_orient a in
  let spacing := Qmax (ax_inner a) 0 + ax_padding a in
  leaf "text" [("fill", AStr "currentColor"); (cross_attr o, ANum (Fin (k_of o * spacing)));
               ("dy", AStr (dy_of o))] [] (tick_label a d).

(** The attributes of a [g.tick]: its class, opacity and position. *)
Definition tick_attrs (a : axis) (offset : Q) (d : jsval) : list (string * attr) :=
  [("class", AStr "tick"); ("opacity", ANum (Fin 1));
   ("transform", translate (ax_orient a) (add (tick_position (ax_scale a) offset d) (Fin offset)))].

(** One [g.tick] with its [line] and [text]. *)
Definition tick_node (a : axis) (offset : Q) (d : jsval) : node :=
  Node "g" (tick_attrs a offset d) [] None [tick_line a; tick_text a d].

(** [g.call(axis)] on a [g] the axis has not drawn into: the [g] gets
    its presentation attributes, then the domain path and the ticks. *)
Definition axis_call (a : axis) (offset : Q) (g : node) : node :=
  let '(Node t attrs styles x cs) := g in
  Node t
    (attrs ++ [("fill", AStr "none"); ("font-size", ANum (Fin 10));
               ("font-family", AStr "sans-serif"); ("text-anchor", AStr (anchor_of (ax_orient a)))])
    styles x
    (cs ++ domain_node a offset :: map (tick_node a offset) (tick_values (ax_scale a))).

End D3Axis.

Export D3Axis.

(** ** The elements an axis draws *)

Lemma tags_tick_node a offset d : tags (tick_node a offset d) = ["g"; "line"; "text"].
Proof. unfold tick_node, tick_line, tick_text, leaf. rewrite !tags_eq. reflexivity. Qed.

(** On a fresh [g], an axis adds a path and, per tick, a [g] holding a
    [line] and a [text]. *)
Lemma tags_axis_call a offset t attrs s x :
  tags (axis_call a offset (Node t attrs s x [])) =
    t :: "path" :: concat (map (fun _ => ["g"; "line"; "text"]) (tick_values (ax_scale a))).
Proof.
  unfold axis_call. rewrite tags_eq. cbn [app map concat]. unfold domain_node, leaf. rewrite tags_eq.
  cbn [map concat app]. do 3 f_equal. rewrite map_map. apply map_ext. apply tags_tick_node.
Qed.

(** What [selectAll(tag)] then [.attr] or [.style] does to an axis drawn
    into a fresh [g], when [tag] is not [g] or [path]: the domain path is
    kept and each tick is updated in place. *)
Lemma update_axis_call tag f a offset t attrs :
  tag <> "g" -> tag <> "path" ->
  update_desc tag f (axis_call a offset (Node t attrs [] None [])) =
    Node t (el_attrs (axis_call a offset (Node t attrs [] None []))) [] None
      (domain_node a offset :: map (fun d => update_desc tag f (tick_node a offset d))
                                  (tick_values (ax_scale a))).
Proof.
  intros Hg Hp. cbn [axis_call update_desc app el_attrs]. f_equal. cbn [map].
  rewrite bool_decide_eq_false_2 by (unfold domain_node, leaf; cbn; congruence).
  f_equal. rewrite map_map. apply map_ext. intros d.
  by rewrite bool_decide_eq_false_2 by (unfold tick_node; cbn; congruence).
Qed.

Lemma all_nodes_update_axis tag f a offset t attrs :
  tag <> "g" -> tag <> "path" ->
  all_nodes (update_desc tag f (axis_call a offset (Node t attrs [] None []))) =
    update_desc tag f (axis_call a offset (Node t attrs [] None [])) :: domain_node a offset ::
    concat (map (fun d => all_nodes (update_desc tag f (tick_node a offset d)))
                (tick_values (ax_scale a))).
Proof.
  intros Hg Hp. rewrite (update_axis_call tag f a offset t attrs Hg Hp) at 1.
  rewrite all_nodes_eq, <- (update_axis_call tag f a offset t attrs Hg Hp).
  cbn [map concat]. f_equal. unfold domain_node, leaf. rewrite all_nodes_eq. cbn.
  by rewrite map_map.
Qed.

Lemma attr_value_update_desc name tag f e : attr_value name (update_desc tag f e) = attr_value name e.
Proof. by destruct e. Qed.
