(* ===== verification/Chart.v ===== *)
(** * Lines 16-122: the chart drawn from the selected rows

    After the selection, the script:
    - fixes the layout (lines 17-19);
    - appends an [svg] with a translated group (lines 22-27);
    - builds the two scales (lines 30-37);
    - draws the two axes and the two sets of gridlines (lines 40-72);
    - appends one [rect] per row (lines 75-82), one label per row
      (lines 85-95) and three fixed texts (lines 98-122).

    The drawing is modelled as the SVG tree the script builds ([Svg]):
    the [svg] holds the translated [g], and the [g] holds, in order:
    - the four axis groups ([D3Axis]);
    - the bars;
    - the labels;
    - the titles.

    An attribute whose value function returns [undefined] is removed by
    d3 and is absent here.  d3-axis shifts its ticks by 0.5 pixels unless
    [window.devicePixelRatio] exceeds 1, so the drawing takes that ratio
    as an input ([axis_offset]). *)

From S2P Require Import Prelude JsNumber StringToNumber JsValue NumberFormat Svg StableSort TopReasons D3Scale D3Ticks D3Format D3Axis.
From stdpp Require Import strings gmap.
From Stdlib Require Import Qminmax.

Module Chart.
Local Open Scope Q_scope.

(** Line 17. *)
Record margins : Type := Margins { m_top : Q; m_right : Q; m_bottom : Q; m_left : Q }.
Definition margin : margins := Margins 70 50 50 200.

(** Lines 18-19: the plot area. *)
Definition width : Q := 800 - m_left margin - m_right margin.
Definition height : Q := 400 - m_top margin - m_bottom margin.

(** Lines 30-32: [x] maps [0, max count] to [0, width]. *)
Definition x_scale (top : list (gmap string jsval)) : linear :=
  Linear (Fin 0) (number_of (d3_max (map count_of top))) (Fin 0) (Fin width).

(** Lines 34-37: [y] has one band per distinct reason, in order. *)
Definition y_scale (top : list (gmap string jsval)) : band :=
  scale_band (map (fun d => get d "reason") top) 0 height (1 # 10).

(** [undefined] read as a Number, as [+] does with [y(d.reason)]. *)
Definition to_num (v : option Q) : number := match v with Some q => Fin q | None => NaN end.

(** d3-axis's [offset]: [window.devicePixelRatio > 1 ? 0 : 0.5]. *)
Definition axis_offset (device_pixel_ratio : Q) : Q :=
  if qlt 1 device_pixel_ratio then 0 else 1 # 2.

(** Lines 22-25: the [svg]. *)
Definition svg_root (children : list node) : node :=
  Node "svg" [("width", ANum (Fin (width + m_left margin + m_right margin)));
              ("height", ANum (Fin (height + m_top margin + m_bottom margin)))] [] None children.

(** Lines 26-27: the group translated by the margins, parent of all that
    follows. *)
Definition plot_group (children : list node) : node :=
  Node "g"
    [("transform", AStr ("translate(" ++ default "" (number_to_string (Fin (m_left margin))) ++
                         "," ++ default "" (number_to_string (Fin (m_top margin))) ++ ")"))]
    [] None children.

(** Lines 46 and 62: ["translate(0," + height + ")"]. *)
Definition baseline_transform : attr :=
  AStr ("translate(0," ++ default "" (number_to_string (Fin height)) ++ ")").

(** [.selectAll('text').style("font-family", "Roboto").style("font-size",
    "1.2em")] (lines 48-50 and 55-57). *)
Definition style_tick_texts (g : node) : node :=
  update_desc "text" (fun e => node_set_style "font-size" "1.2em" (node_set_style "font-family" "Roboto" e)) g.

(** [.selectAll("line").attr("stroke", "#ddd")] (lines 64-65 and 71-72). *)
Definition lighten_lines (g : node) : node :=
  update_desc "line" (node_set_attr "stroke" (AStr "#ddd")) g.

(** Lines 40 and 44-50: the bottom axis. *)
Definition x_axis_group (offset : Q) (x : linear) : node :=
  style_tick_texts
    (axis_call (axis_new OBottom (ALinear x)) offset
       (Node "g" [("class", AStr "x-axis"); ("transform", baseline_transform)] [] None [])).

(** Lines 41 and 52-57: the left axis. *)
Definition y_axis_group (offset : Q) (y : band) : node :=
  style_tick_texts
    (axis_call (axis_new OLeft (ABand y)) offset (Node "g" [("class", AStr "y-axis")] [] None [])).

(** Lines 60-65: the gridlines at the ticks of [x]. *)
Definition x_grid_group (offset : Q) (x : linear) : node :=
  lighten_lines
    (axis_call (tick_format_const "" (tick_size (- height) (axis_new OBottom (ALinear x)))) offset
       (Node "g" [("class", AStr "grid"); ("transform", baseline_transform)] [] None [])).

(** Lines 68-72: the gridlines at the bands of [y]. *)
Definition y_grid_group (offset : Q) (y : band) : node :=
  lighten_lines
    (axis_call (tick_format_const "" (tick_size (- width) (axis_new OLeft (ABand y)))) offset
       (Node "g" [("class", AStr "grid")] [] None [])).

(** Lines 75-82: one bar. *)
Definition bar (x : linear) (y : band) (d : gmap string jsval) : node :=
  leaf "rect"
    ([("class", AStr "bar")] ++
     opt_attr "y" (Fin <$> band_apply y (get d "reason")) ++
     opt_attr "width" (linear_apply x (count_of d)) ++
     [("height", ANum (Fin (bandwidth y))); ("fill", AStr "#34D1BF")])
    [] None.

(** Lines 85-95: one label, right of its bar, centred on it. *)
Definition label (x : linear) (y : band) (d : gmap string jsval) : node :=
  leaf "text"
    ([("class", AStr "label")] ++
     opt_attr "x" (linear_apply x (count_of d)) ++
     [("y", ANum (add (to_num (band_apply y (get d "reason"))) (Fin (bandwidth y / 2))));
      ("dx", AStr "3"); ("dy", AStr ".35em")])
    [("font-family", "Roboto"); ("font-size", "0.8em")]
    (number_to_string (count_of d)).

(** Lines 98-122: headline, subheadline and source line. *)
Definition titles : list node :=
  [leaf "text" [("x", ANum (Fin 0)); ("y", ANum (Fin (-40)))]
     [("font-family", "Roboto"); ("font-size", "2em"); ("font-weight", "bold");
      ("fill", "#D1345B")]
     (Some "What are Bostonians calling 311 for?");
   leaf "text" [("x", ANum (Fin 0)); ("y", ANum (Fin (-20)))]
     [("font-family", "Roboto"); ("font-size", "1em"); ("fill", "#777")]
     (Some "Top 10 reasons for 311 calls in the past year");
   leaf "text" [("x", ANum (Fin 0)); ("y", ANum (Fin (height + m_top margin - 10)))]
     [("font-family", "Roboto"); ("font-size", "0.8em"); ("fill", "#777")]
     (Some "Source: Analyze Boston (https://data.boston.gov/dataset/311-service-requests)")].

(** Lines 40-122: what the script appends to the group, in order. *)
Definition plot_children (dpr : Q) (top : list (gmap string jsval)) : list node :=
  let x := x_scale top in
  let y := y_scale top in
  let offset := axis_offset dpr in
  [x_axis_group offset x; y_axis_group offset y; x_grid_group offset x; y_grid_group offset y] ++
  map (bar x y) top ++ map (label x y) top ++ titles.

(** Lines 16-122: the drawing. *)
Definition render (dpr : Q) (top : list (gmap string jsval)) : node :=
  svg_root [plot_group (plot_children dpr top)].

(** The whole callback: lines 2-122 on the rows [d3.csv] parsed. *)
Definition chart `{SortEngine} (dpr : Q) (data : list (gmap string jsval)) : node :=
  render dpr (top_reasons data).

End Chart.

Export Chart.

(** ** Properties of the drawing *)

Local Open Scope Q_scope.

Lemma bar_width x y d : attr_value "width" (bar x y d) = ANum <$> linear_apply x (count_of d).
Proof.
  unfold attr_value, bar; cbn [el_attrs].
  destruct (band_apply y (get d "reason")), (linear_apply x (count_of d)); reflexivity.
Qed.

Lemma tags_styled_axis a offset t attrs :
  tags (style_tick_texts (axis_call a offset (Node t attrs [] None []))) =
    tags (axis_call a offset (Node t attrs [] None [])).
Proof. apply tags_update_desc. intros n. by rewrite !tags_set_style. Qed.

Lemma tags_lightened_axis a offset t attrs :
  tags (lighten_lines (axis_call a offset (Node t attrs [] None []))) =
    tags (axis_call a offset (Node t attrs [] None [])).
Proof. apply tags_update_desc. intros n. apply tags_set_attr. Qed.

(** No tag [r] but the group's own [g] and the axis's [path], [g], [line]
    and [text]. *)
Lemma axis_no_tag r a offset t attrs :
  r <> t -> r ∉ ["path"; "g"; "line"; "text"] ->
  List.filter (fun u => bool_decide (u = r)) (tags (axis_call a offset (Node t attrs [] None []))) = [].
Proof.
  intros Ht Hr. rewrite tags_axis_call. apply filter_nil_Forall.
  constructor; [by apply bool_decide_eq_false_2|]. constructor; [apply bool_decide_eq_false_2; set_solver|].
  apply Forall_concat, Forall_forall. intros ts (v & -> & _)%elem_of_map_iff.
  repeat constructor; apply bool_decide_eq_false_2; set_solver.
Qed.

Lemma filter_concat_const {A} (f : string -> bool) (g : A -> node) (l : list A) t :
  (forall a, tags (g a) = [t]) ->
  List.filter f (concat (map tags (map g l))) = if f t then map (fun _ => t) l else [].
Proof.
  intros Hg. induction l as [|a l IH]; [by destruct (f t)|].
  cbn [map concat]. rewrite Hg, List.filter_app, IH. cbn [List.filter app]. by destruct (f t).
Qed.

(** C20: the drawing has exactly one [rect] per selected row, axes and
    gridlines included: no bar is added or dropped (scenario 7: three rows
    give three bars). *)
Theorem render_bars (dpr : Q) (top : list (gmap string jsval)) :
  length (List.filter (has_tag "rect") (all_nodes (render dpr top))) = length top.
Proof.
  rewrite filter_has_tag. unfold render, svg_root, plot_group. rewrite !tags_eq.
  cbn [map concat]. rewrite app_nil_r, tags_eq. unfold plot_children.
  rewrite !filter_cons_false by (by apply bool_decide_eq_false_2).
  rewrite !map_app, !concat_app, !List.filter_app.
  cbn [map concat]. unfold x_axis_group, y_axis_group, x_grid_group, y_grid_group.
  rewrite !tags_styled_axis, !tags_lightened_axis, app_nil_r, !List.filter_app.
  rewrite !axis_no_tag by set_solver.
  rewrite !(filter_concat_const _ _ _ "rect"), !(filter_concat_const _ _ _ "text")
    by (intros; unfold bar, label, leaf; by rewrite tags_eq).
  cbn [List.filter]. rewrite !bool_decide_eq_true_2, !bool_decide_eq_false_2 by done.
  assert (Ht : List.filter (fun u => bool_decide (u = "rect")) (concat (map tags titles)) = [])
    by reflexivity.
  rewrite Ht. cbn [app length]. rewrite !app_nil_r. apply length_map.
Qed.

Lemma width_eq : width == 550.
Proof. reflexivity. Qed.

Lemma height_eq : height == 280.
Proof. reflexivity. Qed.

(** C16: when the largest selected count [m] is positive, the bar of a
    row with count [c] is [c * width / m] wide. *)
Theorem bar_width_proportional (top : list (gmap string jsval)) d (m c : Q) :
  d3_max (map count_of top) = Some (Fin m) -> 0 < m -> count_of d = Fin c ->
  exists q, attr_value "width" (bar (x_scale top) (y_scale top) d) = Some (ANum (Fin q)) /\
    q == c * width / m.
Proof.
  intros Hmax Hm Hc. rewrite bar_width. unfold x_scale. rewrite Hmax, Hc.
  change (number_of (Some (Fin m))) with (Fin m).
  destruct (linear_apply_proportional m width c Hm) as (q & -> & Hq). by exists q.
Qed.

(** C26: when every selected count is 0 (the largest is 0), every bar
    with a finite count is half the plot wide (275 pixels), not empty. *)
Theorem bar_width_all_zero (top : list (gmap string jsval)) d (z c : Q) :
  d3_max (map count_of top) = Some (Fin z) -> z == 0 -> count_of d = Fin c ->
  exists q, attr_value "width" (bar (x_scale top) (y_scale top) d) = Some (ANum (Fin q)) /\
    q == 275.
Proof.
  intros Hmax Hz Hc. rewrite bar_width. unfold x_scale. rewrite Hmax, Hc.
  change (number_of (Some (Fin z))) with (Fin z).
  destruct (linear_apply_degenerate z width c Hz) as (q & -> & Hq).
  exists q. split; [done|]. rewrite Hq, width_eq. reflexivity.
Qed.

(** C25: a row whose count is NaN (scenario 8) gets a bar without a
    [width] attribute (d3 removes it, the bar is not drawn), a label
    without an [x] attribute, and the label text "NaN". *)
Theorem bar_label_nan x y (d : gmap string jsval) :
  count_of d = NaN ->
  attr_value "width" (bar x y d) = None /\ attr_value "x" (label x y d) = None /\
  el_text (label x y d) = Some "NaN".
Proof.
  intros Hd. rewrite bar_width, Hd. split; [done|].
  unfold attr_value, label; cbn [el_attrs el_text]. rewrite Hd. done.
Qed.

(** C18: when the selected reasons are distinct strings, the vertical
    scale has exactly one band per selected row, in the selection's order
    (band completeness). *)
Theorem y_domain_distinct (top : list (gmap string jsval)) :
  Forall (fun d => not_number (get d "reason")) top ->
  NoDup (map (fun d => get d "reason") top) ->
  band_domain (y_scale top) = map (fun d => get d "reason") top.
Proof.
  intros Hs Hnd. unfold y_scale, scale_band; cbn [band_domain].
  apply intern_domain_distinct; [|done]. by apply Forall_fmap.
Qed.

(** C19: every band of the vertical scale lies inside the plot's height
    and ends before the next band begins. *)
Theorem y_band_layout (top : list (gmap string jsval)) (i : nat) :
  (i < length (band_domain (y_scale top)))%nat ->
  exists v, band_values (y_scale top) !! i = Some v /\ 0 <= v /\
    v + bandwidth (y_scale top) <= height /\
    forall v', band_values (y_scale top) !! S i = Some v' -> v + bandwidth (y_scale top) <= v'.
Proof. apply band_layout. rewrite height_eq. lra. Qed.

(** C17: the horizontal scale's domain ends at the largest count of the
    selected rows (specification property 3): the count of one selected
    row, [>=] the counts of all of them. *)
Theorem x_domain_max (top : list (gmap string jsval)) :
  Forall count_ok top -> top <> [] ->
  exists d, d ∈ top /\ lin_d1 (x_scale top) = count_of d /\
    forall d', d' ∈ top -> greater_eq (count_of d) (count_of d') = true.
Proof.
  intros Hok Hne. destruct (d3_max_spec (map count_of top)) as [Hnone Hsome].
  unfold x_scale; cbn [lin_d1]. destruct (d3_max (map count_of top)) as [m|] eqn:E.
  - destruct (Hsome m eq_refl) as (Hin & _ & Hge).
    apply elem_of_map_iff in Hin as (d & -> & Hd).
    exists d. split; [done|]. split; [done|].
    intros d' Hd'. apply Hge; [apply elem_of_map_iff; by exists d'|].
    rewrite Forall_forall in Hok. by apply Hok.
  - destruct top as [|d0 top]; [done|].
    apply proj1 in Hnone. specialize (Hnone eq_refl).
    inversion Hnone as [|? ? Hn0 _]; inversion Hok as [|? ? Hk0 _]. unfold count_ok in Hk0. congruence.
Qed.

(** Without a [reason] column every [d.reason] is [undefined], and the
    vertical scale's domain is that one value. *)
Lemma y_domain_without_reason `{SortEngine} (columns : list string) (lines : list (list string)) :
  "reason" ∉ columns -> lines <> [] ->
  band_domain (y_scale (top_reasons (map (csv_row columns) lines))) = [JUndefined].
Proof.
  intros Hcol Hne. set (top := top_reasons _).
  assert (Hall : Forall (fun d => get d "reason" = JUndefined) top).
  { apply Forall_forall. intros d Hd. subst top.
    rewrite top_reasons_take in Hd. apply elem_of_take in Hd as (i & Hi & _).
    apply list_elem_of_lookup_2 in Hi. unfold sorted_rows in Hi. rewrite engine_perm in Hi.
    unfold coerce in Hi. apply elem_of_map_iff in Hi as (d' & -> & Hd').
    apply elem_of_map_iff in Hd' as (cells & -> & _).
    unfold coerce_row. rewrite get_insert_ne by done. by apply csv_row_absent. }
  assert (Htop : top <> []).
  { subst top. rewrite top_reasons_take. unfold sorted_rows.
    intros Hnil. apply (f_equal length) in Hnil.
    rewrite length_take, (Permutation_length (engine_perm _ _)) in Hnil.
    unfold coerce in Hnil. rewrite !length_map in Hnil. destruct lines; [done|]. simpl in Hnil. lia. }
  unfold y_scale, scale_band; cbn [band_domain]. apply intern_domain_const; [done| |].
  - by destruct top.
  - by apply Forall_fmap.
Qed.

(** C27: if the file's header spells the column [Reason] (or has no
    [reason] column at all), [d.reason] is [undefined] on every row: the
    vertical scale has a single band, 2520/11 (about 229) pixels high, and
    every bar is drawn in it. *)
Theorem y_scale_header_without_reason `{SortEngine} (columns : list string)
    (lines : list (list string)) :
  "reason" ∉ columns -> lines <> [] ->
  band_domain (y_scale (top_reasons (map (csv_row columns) lines))) = [JUndefined] /\
  bandwidth (y_scale (top_reasons (map (csv_row columns) lines))) == 2520 # 11.
Proof.
  intros Hcol Hne. pose proof (y_domain_without_reason columns lines Hcol Hne) as Hdom.
  split; [done|]. unfold bandwidth, band_step, band_n, band_lo, band_hi.
  rewrite Hdom. reflexivity.
Qed.

(** The specification expects a missing [reason] to show as the
    label "undefined"; d3 writes [undefined] as empty text, so without a
    [reason] column the left axis has one tick, labelled with the empty
    string. *)
Theorem y_axis_header_without_reason `{SortEngine} (offset : Q) (columns : list string)
    (lines : list (list string)) :
  "reason" ∉ columns -> lines <> [] ->
  map el_text (List.filter (has_tag "text")
    (all_nodes (y_axis_group offset (y_scale (top_reasons (map (csv_row columns) lines)))))) =
    [Some ""].
Proof.
  intros Hcol Hne. pose proof (y_domain_without_reason columns lines Hcol Hne) as Hdom.
  unfold y_axis_group, style_tick_texts. rewrite all_nodes_update_axis by done.
  cbn [tick_values axis_new ax_scale]. rewrite Hdom. reflexivity.
Qed.

(** C21: a bar and its label (lines 75-95): the bar sits in its reason's
    band ([y]) with the band's thickness as height; the label starts where
    the bar ends ([x] is the bar's [width]), is centred on the band, and
    shows the count as Number::toString writes it. *)
Theorem bar_label_geometry (x : linear) (y : band) (d : gmap string jsval) :
  attr_value "x" (label x y d) = attr_value "width" (bar x y d) /\
  attr_value "height" (bar x y d) = Some (ANum (Fin (bandwidth y))) /\
  el_text (label x y d) = number_to_string (count_of d) /\
  forall v, band_apply y (get d "reason") = Some v ->
    attr_value "y" (bar x y d) = Some (ANum (Fin v)) /\
    attr_value "y" (label x y d) = Some (ANum (Fin (v + bandwidth y / 2))).
Proof.
  unfold attr_value, bar, label, leaf; cbn [el_attrs el_text].
  destruct (band_apply y (get d "reason")) as [b|], (linear_apply x (count_of d));
    (split; [reflexivity|]); (split; [reflexivity|]); (split; [reflexivity|]);
    intros v [= <-]; split; reflexivity.
Qed.

(** Scenario 6 drawn: whatever the engine, the chart of the rows
    Pothole 50, Noise 120, Trash 80 has three bars, of widths 550, 1100/3
    and 1375/6 pixels (120, 80 and 50 against a domain ending at 120). *)
Theorem chart_scenario_widths (E : SortEngine) :
  Forall2 (fun e q => exists q', attr_value "width" e = Some (ANum (Fin q')) /\ q' == q)
    (List.filter (has_tag "rect") (all_nodes (chart 1 Samples.scenario))) [550; 1100 # 3; 1375 # 6].
Proof.
  unfold chart, top_reasons. rewrite scenario_sorted_rows. vm_compute.
  repeat constructor; eexists; split; reflexivity.
Qed.

(** ** Axes and gridlines *)

Lemma grid_tick_nodes a offset d :
  all_nodes (update_desc "line" (node_set_attr "stroke" (AStr "#ddd")) (tick_node a offset d)) =
    [update_desc "line" (node_set_attr "stroke" (AStr "#ddd")) (tick_node a offset d);
     node_set_attr "stroke" (AStr "#ddd") (tick_line a); tick_text a d].
Proof. reflexivity. Qed.

Lemma styled_tick_nodes a offset d :
  all_nodes (update_desc "text" (fun e => node_set_style "font-size" "1.2em"
                                   (node_set_style "font-family" "Roboto" e)) (tick_node a offset d)) =
    [update_desc "text" (fun e => node_set_style "font-size" "1.2em"
                           (node_set_style "font-family" "Roboto" e)) (tick_node a offset d);
     tick_line a;
     node_set_style "font-size" "1.2em" (node_set_style "font-family" "Roboto" (tick_text a d))].
Proof. reflexivity. Qed.

(** The tick positions of two axes that share orient and scale agree,
    whatever their sizes and formats and whatever [selectAll] updated. *)
Lemma transforms_update_axis tag1 f1 tag2 f2 a1 a2 offset t1 t2 attrs1 attrs2 :
  tag1 <> "g" -> tag1 <> "path" -> tag2 <> "g" -> tag2 <> "path" ->
  ax_orient a1 = ax_orient a2 -> ax_scale a1 = ax_scale a2 ->
  map (attr_value "transform") (el_children (update_desc tag1 f1 (axis_call a1 offset (Node t1 attrs1 [] None [])))) =
  map (attr_value "transform") (el_children (update_desc tag2 f2 (axis_call a2 offset (Node t2 attrs2 [] None [])))).
Proof.
  intros ? ? ? ? Ho Hs. rewrite !update_axis_call by done. cbn [el_children map].
  f_equal; try reflexivity. rewrite Hs, !map_map. apply map_ext. intros d.
  rewrite !attr_value_update_desc. unfold tick_node, tick_attrs. by rewrite Ho, Hs.
Qed.

(** C22: the horizontal gridlines (lines 60-65) sit at the ticks of the
    bottom axis, one per tick; each is a light grey ([#ddd]) line from the
    baseline up [height] pixels, to the top of the plot; and they carry
    no tick labels (their texts are empty). *)
Theorem x_gridlines (offset : Q) (x : linear) :
  map (attr_value "transform") (el_children (x_grid_group offset x)) =
    map (attr_value "transform") (el_children (x_axis_group offset x)) /\
  Forall (fun n => attr_value "stroke" n = Some (AStr "#ddd") /\
                   attr_value "y2" n = Some (ANum (Fin (- height))))
    (List.filter (has_tag "line") (all_nodes (x_grid_group offset x))) /\
  Forall (fun n => el_text n = Some "")
    (List.filter (has_tag "text") (all_nodes (x_grid_group offset x))).
Proof.
  split; [by apply transforms_update_axis|].
  unfold x_grid_group, lighten_lines. rewrite all_nodes_update_axis by done.
  rewrite !filter_cons_false by reflexivity. rewrite !filter_concat, !map_map.
  setoid_rewrite grid_tick_nodes. split; apply Forall_concat_map; intros d; cbn; repeat constructor.
Qed.

(** C23: the vertical gridlines (lines 68-72) are one per band of [y], at
    the bands' positions on the left axis; each is a light grey line
    [width] pixels long, across the whole plot; they carry no labels. *)
Theorem y_gridlines (offset : Q) (y : band) :
  map (attr_value "transform") (el_children (y_grid_group offset y)) =
    map (attr_value "transform") (el_children (y_axis_group offset y)) /\
  length (List.filter (has_tag "line") (all_nodes (y_grid_group offset y))) =
    length (band_domain y) /\
  Forall (fun n => attr_value "stroke" n = Some (AStr "#ddd") /\
                   attr_value "x2" n = Some (ANum (Fin width)))
    (List.filter (has_tag "line") (all_nodes (y_grid_group offset y))) /\
  Forall (fun n => el_text n = Some "")
    (List.filter (has_tag "text") (all_nodes (y_grid_group offset y))).
Proof.
  split; [by apply transforms_update_axis|].
  unfold y_grid_group, lighten_lines. rewrite all_nodes_update_axis by done.
  rewrite !filter_cons_false by reflexivity. rewrite !filter_concat, !map_map.
  setoid_rewrite grid_tick_nodes. split; [|split]; [| apply Forall_concat_map; intros d; cbn; repeat constructor ..].
  rewrite (length_concat_map_const _ _ 1) by reflexivity. cbn. lia.
Qed.

(** C24: when the largest selected count [M] is positive, every tick
    of the bottom axis, and so every horizontal gridline, is placed
    within the plot's width: at a value between 0 and [M], mapped to
    [value * width / M]. *)
Theorem x_ticks_in_plot (offset : Q) (top : list (gmap string jsval)) (M : Q) d :
  d3_max (map count_of top) = Some (Fin M) -> 0 < M ->
  d ∈ tick_values (ALinear (x_scale top)) ->
  exists v p, d = JNumber (Fin v) /\ 0 <= v <= M /\
    tick_position (ALinear (x_scale top)) offset d = Fin p /\ p == v * width / M /\
    0 <= p <= width.
Proof.
  intros Hmax HM Hd. unfold tick_values, x_scale in Hd |- *. rewrite Hmax in Hd |- *.
  change (number_of (Some (Fin M))) with (Fin M) in Hd |- *. cbn [lin_d0 lin_d1] in Hd.
  unfold ticks_num in Hd. change (Qle_bool 10 0) with false in Hd. cbv iota in Hd.
  apply list_elem_of_fmap in Hd as (w & -> & Hw). apply list_elem_of_fmap in Hw as (v & -> & Hv).
  apply ticks_in_range in Hv. rewrite Q.min_l, Q.max_r in Hv by lra.
  destruct (linear_apply_proportional M width v HM) as (q & Hq & Hqv).
  exists v, q. split; [done|]. split; [done|].
  unfold tick_position. cbn [to_number]. rewrite Hq. split; [done|]. split; [done|].
  rewrite Hqv, width_eq. split.
  - apply Qle_shift_div_l; [done|]. nra.
  - apply Qle_shift_div_r; [done|]. nra.
Qed.

(** Scenario 6 on the axes: whatever the engine and the pixel
    ratio, the bottom axis is labelled 0, 10, ..., 120 and the left axis
    Noise, Trash, Pothole, top to bottom. *)
Theorem axes_scenario_labels (E : SortEngine) (offset : Q) :
  map el_text (List.filter (has_tag "text")
    (all_nodes (x_axis_group offset (x_scale (top_reasons Samples.scenario))))) =
    map Some ["0"; "10"; "20"; "30"; "40"; "50"; "60"; "70"; "80"; "90"; "100"; "110"; "120"] /\
  map el_text (List.filter (has_tag "text")
    (all_nodes (y_axis_group offset (y_scale (top_reasons Samples.scenario))))) =
    map Some ["Noise"; "Trash"; "Pothole"].
Proof. unfold top_reasons. rewrite scenario_sorted_rows. split; vm_compute; reflexivity. Qed.

(** A small largest count gives the bottom axis fractional labels:
    on the rows A 5 and B 3 (largest count 5, tick step 0.5) its labels
    are 0.0, 0.5, ..., 5.0, fractions of a count no row can have. *)
Theorem x_axis_small_counts (E : SortEngine) (offset : Q) :
  map el_text (List.filter (has_tag "text")
    (all_nodes (x_axis_group offset (x_scale (top_reasons Samples.small))))) =
    map Some ["0.0"; "0.5"; "1.0"; "1.5"; "2.0"; "2.5"; "3.0"; "3.5"; "4.0"; "4.5"; "5.0"].
Proof.
  unfold top_reasons. rewrite sorted_rows_insertion by count_ok_by_compute.
  vm_compute. reflexivity.
Qed.

(** C28: the gridline groups keep d3-axis's domain path, drawn in the
    default colour ([currentColor]), which [.selectAll("line")] does not
    lighten: the horizontal gridlines add a dark line along the left,
    bottom and right edges of the plot, the vertical ones along the top,
    left and bottom edges. *)
Theorem grid_domain_paths (offset : Q) (x : linear) (y : band) :
  el_children (x_grid_group offset x) !! 0%nat =
    Some (leaf "path" [("class", AStr "domain"); ("stroke", AStr "currentColor");
      ("d", APath [PM (add (lin_r0 x) (Fin offset)) (Fin (- height)); PV (Fin offset);
                   PH (add (lin_r1 x) (Fin offset)); PV (Fin (- height))])] [] None) /\
  el_children (y_grid_group offset y) !! 0%nat =
    Some (leaf "path" [("class", AStr "domain"); ("stroke", AStr "currentColor");
      ("d", APath [PM (Fin width) (Fin (band_r0 y + offset)); PH (Fin offset);
                   PV (Fin (band_r1 y + offset)); PH (Fin width)])] [] None).
Proof.
  unfold x_grid_group, y_grid_group, lighten_lines. rewrite !update_axis_call by done.
  split; reflexivity.
Qed.

(** ** The bars stay inside the plot *)

Lemma bar_y x y d : attr_value "y" (bar x y d) = (fun q => ANum (Fin q)) <$> band_apply y (get d "reason").
Proof.
  unfold attr_value, bar; cbn [el_attrs].
  destruct (band_apply y (get d "reason")), (linear_apply x (count_of d)); reflexivity.
Qed.

Lemma greater_eq_fin a b : greater_eq (Fin a) (Fin b) = true -> b <= a.
Proof. unfold greater_eq, compare. destruct (Qcompare_spec a b); done || lra. Qed.

Lemma all_nodes_leaf t a st x : all_nodes (leaf t a st x) = [leaf t a st x].
Proof. unfold leaf. by rewrite all_nodes_eq. Qed.

Lemma filter_rect_bars x y (l : list (gmap string jsval)) :
  List.filter (has_tag "rect") (concat (map all_nodes (map (bar x y) l))) = map (bar x y) l.
Proof.
  induction l as [|d l IH]; [done|]. cbn [map concat]. unfold bar at 1. rewrite all_nodes_leaf.
  cbn [app]. rewrite filter_cons_true by (by apply bool_decide_eq_true_2). f_equal. exact IH.
Qed.

Lemma filter_rect_labels x y (l : list (gmap string jsval)) :
  List.filter (has_tag "rect") (concat (map all_nodes (map (label x y) l))) = [].
Proof.
  induction l as [|d l IH]; [done|]. cbn [map concat]. unfold label at 1. rewrite all_nodes_leaf.
  cbn [app]. rewrite filter_cons_false by (by apply bool_decide_eq_false_2). exact IH.
Qed.

(** The rows' rects are the only rects of the drawing, in order. *)
Lemma rects_of_render dpr top :
  List.filter (has_tag "rect") (all_nodes (render dpr top)) = map (bar (x_scale top) (y_scale top)) top.
Proof.
  assert (Hnone : forall g, List.filter (fun u => bool_decide (u = "rect")) (tags g) = [] ->
                  List.filter (has_tag "rect") (all_nodes g) = []).
  { intros g Hg. apply length_zero_iff_nil. by rewrite filter_has_tag, Hg. }
  unfold render, svg_root, plot_group, plot_children.
  rewrite all_nodes_eq. cbn [map concat]. rewrite app_nil_r, all_nodes_eq.
  rewrite !filter_cons_false by (by apply bool_decide_eq_false_2).
  rewrite !map_app, !concat_app, !List.filter_app. cbn [map concat]. rewrite !List.filter_app.
  rewrite !Hnone; cycle 1.
  1-4: unfold x_axis_group, y_axis_group, x_grid_group, y_grid_group;
       rewrite ?tags_styled_axis, ?tags_lightened_axis; apply axis_no_tag; set_solver.
  assert (Ht : List.filter (has_tag "rect") (concat (map all_nodes titles)) = []) by reflexivity.
  rewrite Ht, filter_rect_bars, filter_rect_labels. cbn [app List.filter]. by rewrite !app_nil_r.
Qed.

(** C15: safety: when every count is a number [>= 0], every [rect] of the
    drawing lies inside the plot: its width is in [[0, width]] and, when
    it has a [y], its band lies in [[0, height]]. *)
Theorem bars_inside_plot (dpr : Q) (top : list (gmap string jsval)) :
  Forall (fun d => exists c, count_of d = Fin c /\ 0 <= c) top ->
  Forall (fun e =>
      (exists w, attr_value "width" e = Some (ANum (Fin w)) /\ 0 <= w <= width) /\
      (forall v, attr_value "y" e = Some (ANum (Fin v)) -> 0 <= v /\ v + bandwidth (y_scale top) <= height))
    (List.filter (has_tag "rect") (all_nodes (render dpr top))).
Proof.
  intros Hc. rewrite rects_of_render. apply Forall_map. apply Forall_forall. intros d Hd.
  pose proof Hc as Hc'. rewrite Forall_forall in Hc'. destruct (Hc' d Hd) as (c & Hcd & Hc0). split.
  - rewrite bar_width. destruct (d3_max_spec (map count_of top)) as [Hnone Hsome].
    unfold x_scale. destruct (d3_max (map count_of top)) as [m|] eqn:Hm.
    + destruct (Hsome m eq_refl) as (Hin & _ & Hge).
      apply elem_of_map_iff in Hin as (d' & -> & Hd').
      destruct (Hc' d' Hd') as (M & HM & HM0). rewrite HM.
      assert (HcM : c <= M).
      { apply greater_eq_fin. rewrite <- HM, <- Hcd. apply Hge; [|by rewrite Hcd].
        apply elem_of_map_iff. by exists d. }
      change (number_of (Some (Fin M))) with (Fin M). rewrite Hcd. pose proof width_eq.
      destruct (Qlt_le_dec 0 M) as [HMp|HM0'].
      * destruct (linear_apply_proportional M width c HMp) as (q & -> & Hq).
        exists q. split; [done|]. rewrite Hq. split.
        -- apply Qle_shift_div_l; [done|]. nra.
        -- apply Qle_shift_div_r; [done|]. nra.
      * destruct (linear_apply_degenerate M width c ltac:(lra)) as (q & -> & Hq).
        exists q. split; [done|]. rewrite Hq, H. split; discriminate.
    + exfalso. apply proj1 in Hnone. specialize (Hnone eq_refl).
      rewrite Forall_map, Forall_forall in Hnone. specialize (Hnone d Hd). by rewrite Hcd in Hnone.
  - intros v. rewrite bar_y. destruct (band_apply _ _) as [q|] eqn:Hq; [|done].
    intros [= <-]. unfold band_apply in Hq. destruct (index_of _ _) as [i|]; [|done]. cbn in Hq.
    pose proof (lookup_lt_Some _ _ _ Hq) as Hi. unfold y_scale in Hi |- *.
    rewrite band_values_length in Hi.
    destruct (band_layout (map (fun d => get d "reason") top) height ltac:(rewrite height_eq; lra) i Hi)
      as (v' & Hv' & H0 & H1 & _).
    unfold y_scale in Hq. rewrite Hq in Hv'. injection Hv' as <-. done.
Qed.


(** ** Witnesses *)

Lemma bar_width_proportional_witness :
  exists q, attr_value "width"
    (bar (x_scale (coerce Samples.scenario)) (y_scale (coerce Samples.scenario))
         (coerce_row (Samples.row "Trash" "80"))) = Some (ANum (Fin q)) /\
    q == 80 * width / 120.
Proof. apply (bar_width_proportional _ _ 120 80); [vm_compute; reflexivity | lra | vm_compute; reflexivity]. Defined.

Lemma bar_width_all_zero_witness :
  exists q, attr_value "width"
    (bar (x_scale (coerce [Samples.row "A" "0"; Samples.row "B" ""]))
         (y_scale (coerce [Samples.row "A" "0"; Samples.row "B" ""]))
         (coerce_row (Samples.row "B" ""))) = Some (ANum (Fin q)) /\ q == 275.
Proof. apply (bar_width_all_zero _ _ 0 0); [vm_compute; reflexivity | reflexivity | vm_compute; reflexivity]. Defined.

Lemma bar_label_nan_witness :
  let d := coerce_row (Samples.row "B" "N/A") in
  let top := coerce Samples.with_nan in
  attr_value "width" (bar (x_scale top) (y_scale top) d) = None /\
  attr_value "x" (label (x_scale top) (y_scale top) d) = None /\
  el_text (label (x_scale top) (y_scale top) d) = Some "NaN".
Proof. apply bar_label_nan. vm_compute. reflexivity. Defined.

Lemma y_domain_distinct_witness :
  band_domain (y_scale (coerce Samples.scenario)) =
    map (fun d => get d "reason") (coerce Samples.scenario).
Proof.
  apply y_domain_distinct; [repeat constructor | vm_compute; repeat constructor; set_solver].
Defined.

Lemma y_band_layout_witness :
  exists v, band_values (y_scale (coerce Samples.scenario)) !! 2%nat = Some v /\ 0 <= v /\
    v + bandwidth (y_scale (coerce Samples.scenario)) <= height /\
    forall v', band_values (y_scale (coerce Samples.scenario)) !! 3%nat = Some v' ->
      v + bandwidth (y_scale (coerce Samples.scenario)) <= v'.
Proof. apply y_band_layout. vm_compute. lia. Defined.

Lemma x_domain_max_witness :
  exists d, d ∈ coerce Samples.scenario /\ lin_d1 (x_scale (coerce Samples.scenario)) = count_of d /\
    forall d', d' ∈ coerce Samples.scenario -> greater_eq (count_of d) (count_of d') = true.
Proof. apply x_domain_max; [apply coerce_count_ok; count_ok_by_compute | discriminate]. Defined.

Lemma y_scale_header_without_reason_witness :
  band_domain (y_scale (@top_reasons insertion_engine
    (map (csv_row ["Reason"; "Count"]) [["Noise"; "120"]; ["Trash"; "80"]]))) = [JUndefined] /\
  bandwidth (y_scale (@top_reasons insertion_engine
    (map (csv_row ["Reason"; "Count"]) [["Noise"; "120"]; ["Trash"; "80"]]))) == 2520 # 11.
Proof. apply y_scale_header_without_reason; [set_solver | discriminate]. Defined.

Lemma x_ticks_in_plot_witness :
  exists v p, JNumber (Fin 60) = JNumber (Fin v) /\ 0 <= v <= 120 /\
    tick_position (ALinear (x_scale (coerce Samples.scenario))) (1 # 2) (JNumber (Fin 60)) = Fin p /\
    p == v * width / 120 /\ 0 <= p <= width.
Proof.
  apply (x_ticks_in_plot (1 # 2) (coerce Samples.scenario) 120);
    [vm_compute; reflexivity | reflexivity |].
  vm_compute. do 6 apply list_elem_of_further. apply list_elem_of_here.
Defined.

Lemma y_axis_header_without_reason_witness :
  map el_text (List.filter (has_tag "text")
    (all_nodes (y_axis_group (1 # 2) (y_scale (@top_reasons insertion_engine
      (map (csv_row ["Reason"; "Count"]) [["Noise"; "120"]; ["Trash"; "80"]])))))) = [Some ""].
Proof. apply y_axis_header_without_reason; [set_solver | discriminate]. Defined.

Lemma bar_label_geometry_witness :
  let top := coerce Samples.scenario in
  let d := coerce_row (Samples.row "Noise" "120") in
  attr_value "y" (bar (x_scale top) (y_scale top) d) = Some (ANum (Fin (190960000 # 1922000))) /\
  attr_value "y" (label (x_scale top) (y_scale top) d) = Some (ANum (Fin ((190960000 # 1922000) + bandwidth (y_scale top) / 2))).
Proof. apply (bar_label_geometry _ _ _). vm_compute. reflexivity. Defined.

Lemma bars_inside_plot_witness :
  Forall (fun e =>
      (exists w, attr_value "width" e = Some (ANum (Fin w)) /\ 0 <= w <= width) /\
      (forall v, attr_value "y" e = Some (ANum (Fin v)) ->
                 0 <= v /\ v + bandwidth (y_scale Samples.scenario) <= height))
    (List.filter (has_tag "rect") (all_nodes (render 1 Samples.scenario))).
Proof.
  apply bars_inside_plot.
  repeat constructor; eexists; (split; [vm_compute; reflexivity | vm_compute; discriminate]).
Defined.
