(* ===== verification/Page.v ===== *)
(** * Line 2 over time: the load, the callback and the page

    [d3.csv("boston_311_2023_by_reason.csv")] (d3-fetch 3) returns the
    promise [fetch(url).then(responseText).then(text => csvParse(text))]:
    - [fetch] rejects with a [TypeError] when the network fails;
    - [responseText] throws [new Error(status + " " + statusText)] unless
      [response.ok], a status from 200 to 299;
    - [csvParse] never throws ([Dsv.parse_rows_total]).
    The script attaches its callback with [.then(callback)] and no
    rejection handler.  The callback (lines 3-122) runs in one synchronous
    pass and appends the [svg] to [d3.select("#chart")]; when the page
    has no [#chart] element the selection is empty and every [append],
    [attr] and [call] on it does nothing.

    This file models the page as a state: the children of [#chart] (or
    its absence) and the state of the promise.  [step] is the step
    relation of the page, for a given answer of the network:
    - the promise settles ([settle]);
    - the callback runs on the fulfilled rows ([Chart.chart]).
    A rejected promise has no handler: no step leaves it.

    The theorems, by rule induction on the reflexive-transitive closure
    [rtc] (stdpp): the invariant of the reachable states, that a failed
    load draws nothing, and that a successful one always ends with the
    whole chart drawn, whatever the text of the file. *)

From S2P Require Import Prelude JsNumber JsValue Svg StableSort TopReasons Dsv Chart.
From stdpp Require Import strings gmap relations.

Module Page.

(** A fetch [Response]: its status, status text and body text. *)
Record response : Type := Response { status : Z; status_text : string; body : string }.

(** [response.ok]. *)
Definition response_ok (r : response) : bool := (200 <=? status r)%Z && (status r <=? 299)%Z.

(** What the network answers. *)
Inductive fetch_result : Type :=
| NetworkError
| Responded (r : response).

(** Why the promise rejects: [fetch]'s [TypeError], or the [Error] of
    [responseText] with its status and status text. *)
Inductive load_error : Type :=
| FetchTypeError
| HttpError (status : Z) (status_text : string).

(** The promise of line 2, and whether its callback has run. *)
Inductive promise : Type :=
| Pending
| Fulfilled (data : list (gmap string jsval))
| Rejected (e : load_error)
| Handled.

(** The page: the children of [#chart] ([None]: no such element) and the
    promise. *)
Record page : Type := Page { container : option (list node); load : promise }.

(** The rows [csvParse] gives for a body.  [csv_parse] always returns
    ([Dsv.parse_rows_total]), so the default is never taken. *)
Definition rows_of (r : response) : list (gmap string jsval) :=
  default [] (snd <$> csv_parse (body r)).

(** The chain of [d3.csv] on the network's answer. *)
Definition settle (fr : fetch_result) : promise :=
  match fr with
  | NetworkError => Rejected FetchTypeError
  | Responded r =>
      if response_ok r then Fulfilled (rows_of r)
      else Rejected (HttpError (status r) (status_text r))
  end.

(** [d3.select("#chart").append("svg")...]: the drawing goes last among
    the container's children; with no container, nothing happens. *)
Definition append_chart (c : option (list node)) (svg : node) : option (list node) :=
  (fun cs => cs ++ [svg]) <$> c.

Section Steps.
Context `{SortEngine} (dpr : Q) (fr : fetch_result).

(** The steps of the page when the network answers [fr]. *)
Inductive step : page -> page -> Prop :=
| step_settle c : step (Page c Pending) (Page c (settle fr))
| step_callback c data :
    step (Page c (Fulfilled data)) (Page (append_chart c (chart dpr data)) Handled).

End Steps.

End Page.

Export Page.

(** ** The reachable pages *)

Section Reachable.
Context `{SortEngine} (dpr : Q) (fr : fetch_result) (c0 : option (list node)).

(** What holds of every page reachable from [Page c0 Pending], stated on
    the network's answer [fr] and the container [c0] only:
    - pending: [#chart] is untouched;
    - fulfilled: [#chart] is untouched and the server answered with a 2xx
      status; the rows are the parsed body;
    - rejected: [#chart] is untouched and the error is the [TypeError] of
      a network failure or the [Error] with the status of a non-2xx
      answer;
    - after the callback: the answer was 2xx and [#chart] (when present)
      holds its children followed by one svg, the chart of the parsed
      body. *)
Definition page_inv (p : page) : Prop :=
  match load p with
  | Pending => container p = c0
  | Fulfilled data =>
      container p = c0 /\ exists r, fr = Responded r /\ response_ok r = true /\ data = rows_of r
  | Rejected e =>
      container p = c0 /\
      ((fr = NetworkError /\ e = FetchTypeError) \/
       exists r, fr = Responded r /\ response_ok r = false /\ e = HttpError (status r) (status_text r))
  | Handled =>
      exists r, fr = Responded r /\ response_ok r = true /\
        container p = (fun cs => cs ++ [chart dpr (rows_of r)]) <$> c0
  end.

Lemma page_inv_step p q : page_inv p -> step dpr fr p q -> page_inv q.
Proof.
  intros Hp Hs. destruct Hs as [c|c data]; unfold page_inv in *; cbn [load container] in *.
  - subst c. destruct fr as [|r]; cbn; [by eauto|].
    destruct (response_ok r) eqn:Hok; cbn; eauto 10.
  - destruct Hp as [-> (r & Hr & Hok & ->)]. eauto.
Qed.

(** C8: the page's invariant holds in every state reachable from the
    empty, pending page: nothing is drawn before the callback, a rejection
    carries the error of the network's answer, and the callback appends
    exactly one svg, the chart of the parsed body, after the container's
    children. *)
Theorem page_invariant p : rtc (step dpr fr) (Page c0 Pending) p -> page_inv p.
Proof.
  intros Hr. remember (Page c0 Pending) as p0 eqn:E.
  assert (Hp0 : page_inv p0) by (subst; done). clear E.
  induction Hr as [|x y z Hxy _ IH]; [done|]. apply IH. by eapply page_inv_step.
Qed.

(** C10: a load that fails (the network fails, or the server answers
    with a status outside 200-299) never draws: the container keeps its
    children in every reachable state, and no error is shown. *)
Theorem failed_load_draws_nothing p :
  (forall r, fr = Responded r -> response_ok r = false) ->
  rtc (step dpr fr) (Page c0 Pending) p -> container p = c0.
Proof.
  intros Hfail Hr. apply page_invariant in Hr. unfold page_inv in Hr.
  destruct (load p); try tauto.
  destruct Hr as (r & Hr & Hok & _). by rewrite (Hfail r Hr) in Hok.
Qed.

(** The pages reachable after an answer [r] with [response.ok]: pending,
    fulfilled with the parsed rows, or with the chart drawn. *)
Lemma reachable_ok r p :
  fr = Responded r -> response_ok r = true -> rtc (step dpr fr) (Page c0 Pending) p ->
  p = Page c0 Pending \/ p = Page c0 (Fulfilled (rows_of r)) \/
  p = Page (append_chart c0 (chart dpr (rows_of r))) Handled.
Proof.
  intros Hfr Hok Hr. apply page_invariant in Hr. destruct p as [c l]. unfold page_inv in Hr.
  cbn [load container] in Hr. rewrite Hfr in Hr.
  destruct l as [|data|e|]; [by left; subst | | |].
  - destruct Hr as [-> (r' & [= <-] & _ & ->)]. by right; left.
  - destruct Hr as [_ [[? _]|(r' & [= <-] & Hok' & _)]]; [done | congruence].
  - destruct Hr as (r' & [= <-] & _ & ->). by right; right.
Qed.

(** C9: liveness: when the server answers with [response.ok], whatever
    the text of the file, every reachable page can still reach the page
    with the whole chart drawn, and that page is the only one with no
    step left: the load never stops half way. *)
Theorem load_ok_draws_chart r :
  fr = Responded r -> response_ok r = true ->
  let final := Page (append_chart c0 (chart dpr (rows_of r))) Handled in
  (forall p, rtc (step dpr fr) (Page c0 Pending) p -> rtc (step dpr fr) p final) /\
  (forall p, rtc (step dpr fr) (Page c0 Pending) p -> (forall q, ~ step dpr fr p q) -> p = final).
Proof.
  intros Hfr Hok final. assert (Hs : settle fr = Fulfilled (rows_of r)) by (subst; cbn; by rewrite Hok).
  assert (H1 : step dpr fr (Page c0 Pending) (Page c0 (Fulfilled (rows_of r))))
    by (rewrite <- Hs; constructor).
  assert (H2 : step dpr fr (Page c0 (Fulfilled (rows_of r))) final) by constructor.
  split; intros p Hr; destruct (reachable_ok r p Hfr Hok Hr) as [-> | [-> | ->]].
  - eapply rtc_l; [exact H1|]. by apply rtc_once.
  - by apply rtc_once.
  - done.
  - intros Hn. by destruct (Hn _ H1).
  - intros Hn. by destruct (Hn _ H2).
  - done.
Qed.

End Reachable.

(** ** Runs on concrete answers *)

Module PageSamples.
(** A two-line file, and the answers 200 and 404. *)
Definition file : string := "reason,Count" ++ String NEWLINE "Noise,120".
Definition ok : response := Response 200 "OK" file.
Definition not_found : response := Response 404 "Not Found" "".
End PageSamples.

Lemma page_invariant_witness :
  @page_inv insertion_engine 1 (Responded PageSamples.ok) (Some [])
    (Page (Some []) (settle (Responded PageSamples.ok))).
Proof. apply page_invariant. apply rtc_once. constructor. Defined.

Lemma failed_load_draws_nothing_witness :
  container (Page (Some []) (settle (Responded PageSamples.not_found))) = Some [].
Proof.
  apply (@failed_load_draws_nothing insertion_engine 1 (Responded PageSamples.not_found)).
  - intros r [= <-]. reflexivity.
  - apply rtc_once. constructor.
Defined.

Lemma load_ok_draws_chart_witness :
  rtc (@step insertion_engine 1 (Responded PageSamples.ok)) (Page (Some []) Pending)
    (Page (append_chart (Some []) (@chart insertion_engine 1 (rows_of PageSamples.ok))) Handled).
Proof.
  refine (proj1 (load_ok_draws_chart 1 (Responded PageSamples.ok) (Some []) PageSamples.ok eq_refl _) _ _);
    [reflexivity | apply rtc_refl].
Defined.
